(** * english-tutor backend: session lifecycle and message pipeline

    A shallow embedding of the authentication service (register, login,
    refresh, logout, credential sweep), the JWT helpers, the LLM agent
    client, the chat service and the LLM lookup controller, together with
    the properties the specification states about them; then the rest of
    the two services (profile, conversations, history), the error handler
    and the validation helpers, with properties read off the code.

    Conventions of the embedding:
    - a JavaScript string is the list of its UTF-16 code units;
    - a [Date] is its epoch value in milliseconds, an integer;
    - [async] functions are computations in a state-and-exception monad over
      a [World]: the four database tables, the clock, the outbound network
      and the sequence of effects performed so far;
    - rows carry the columns of the migration that creates the tables. *)

From Stdlib Require Import List ZArith NArith String Ascii Bool Lia DecimalString.
Import ListNotations.

Set Implicit Arguments.
Open Scope Z_scope.

(* ================================================================== *)
(** ** JavaScript strings *)

Module Js.

(** A string is a sequence of 16-bit code units; [length], [substring]
    and the regular expressions of the sources all count code units. *)
Definition jsstring := list N.

(** Literals of the sources, written as Rocq strings. *)
Definition js (s : string) : jsstring :=
  map N_of_ascii (list_ascii_of_string s).
Arguments js s : simpl never.

Definition length (s : jsstring) : nat := List.length s.

(** [s.substring(start, end)] for non-negative integer arguments: both
    indices are clamped to the length and swapped when out of order. *)
Definition substring (s : jsstring) (start stop : nat) : jsstring :=
  let a := Nat.min start (length s) in
  let b := Nat.min stop (length s) in
  let from := Nat.min a b in
  let to := Nat.max a b in
  firstn (to - from) (skipn from s).

Fixpoint eqb (a b : jsstring) : bool :=
  match a, b with
  | [], [] => true
  | x :: a', y :: b' => N.eqb x y && eqb a' b'
  | _, _ => false
  end.

(** Decimal rendering of an integer, as a template literal or [String(n)]
    produces it. *)
Definition ofZ (z : Z) : jsstring :=
  js (NilZero.string_of_int (Z.to_int z)).

(** [prefixb p s]: [s] starts with [p]; [includes s p]: [s.includes(p)]. *)
Fixpoint prefixb (p s : jsstring) : bool :=
  match p, s with
  | [], _ => true
  | x :: p', y :: s' => N.eqb x y && prefixb p' s'
  | _ :: _, [] => false
  end.

Fixpoint includes (s p : jsstring) : bool :=
  prefixb p s ||
  match s with
  | [] => false
  | _ :: s' => includes s' p
  end.

End Js.

Import Js.

(* ================================================================== *)
(** ** Regular expressions of the agent client *)

Module Regex.

(** Character classes that occur in [markdownPatterns]. *)
Inductive cls : Type :=
| CChar (c : N)            (* a literal code unit *)
| CAny                     (* [\s\S], or [.] under the [s] flag *)
| CDot                     (* [.] without the [s] flag *)
| CSpace                   (* [\s] *)
| CDigit                   (* [\d] *)
| COneOf (l : list N)      (* [...] *)
| CNoneOf (l : list N).    (* [^...] *)

(** Line terminators of ECMAScript: LF, CR, LS, PS. *)
Definition is_line_terminator (c : N) : bool :=
  (N.eqb c 10 || N.eqb c 13 || N.eqb c 8232 || N.eqb c 8233)%N.

(** White space of ECMAScript's [\s]: TAB, LF, VT, FF, CR, SP, NBSP,
    U+1680, U+2000..U+200A, LS, PS, U+202F, U+205F, U+3000, BOM. *)
Definition is_space (c : N) : bool :=
  ((N.leb 9 c && N.leb c 13) || N.eqb c 32 || N.eqb c 160 || N.eqb c 5760
   || (N.leb 8192 c && N.leb c 8202) || N.eqb c 8232 || N.eqb c 8233
   || N.eqb c 8239 || N.eqb c 8287 || N.eqb c 12288 || N.eqb c 65279)%N.

Definition is_digit (c : N) : bool := (N.leb 48 c && N.leb c 57)%N.

Definition mem (c : N) (l : list N) : bool := existsb (N.eqb c) l.

Definition in_cls (k : cls) (c : N) : bool :=
  match k with
  | CChar d => N.eqb c d
  | CAny => true
  | CDot => negb (is_line_terminator c)
  | CSpace => is_space c
  | CDigit => is_digit c
  | COneOf l => mem c l
  | CNoneOf l => negb (mem c l)
  end.

Inductive regex : Type :=
| Void
| Eps
| Cls (k : cls)
| Seq (r1 r2 : regex)
| Alt (r1 r2 : regex)
| Star (r : regex).

(** [r+], [r?] and a literal word. Lazy quantifiers ([*?]) accept the
    same strings as the greedy ones; [test] only asks whether a match
    exists, so they are embedded as [Star]. *)
Definition Plus (r : regex) : regex := Seq r (Star r).
Definition Opt (r : regex) : regex := Alt Eps r.

Fixpoint word (s : jsstring) : regex :=
  match s with
  | [] => Eps
  | c :: s' => Seq (Cls (CChar c)) (word s')
  end.

Definition lit (s : string) : regex := word (js s).

(** The language of a regular expression. *)
Inductive matches : regex -> jsstring -> Prop :=
| MEps : matches Eps []
| MCls k c : in_cls k c = true -> matches (Cls k) [c]
| MSeq r1 r2 s1 s2 :
    matches r1 s1 -> matches r2 s2 -> matches (Seq r1 r2) (s1 ++ s2)
| MAltL r1 r2 s : matches r1 s -> matches (Alt r1 r2) s
| MAltR r1 r2 s : matches r2 s -> matches (Alt r1 r2) s
| MStarNil r : matches (Star r) []
| MStarCons r s1 s2 :
    matches r s1 -> matches (Star r) s2 -> matches (Star r) (s1 ++ s2).

(** Matching by derivatives. *)
Fixpoint nullable (r : regex) : bool :=
  match r with
  | Void => false
  | Eps => true
  | Cls _ => false
  | Seq r1 r2 => nullable r1 && nullable r2
  | Alt r1 r2 => nullable r1 || nullable r2
  | Star _ => true
  end.

Fixpoint deriv (c : N) (r : regex) : regex :=
  match r with
  | Void => Void
  | Eps => Void
  | Cls k => if in_cls k c then Eps else Void
  | Seq r1 r2 =>
      if nullable r1
      then Alt (Seq (deriv c r1) r2) (deriv c r2)
      else Seq (deriv c r1) r2
  | Alt r1 r2 => Alt (deriv c r1) (deriv c r2)
  | Star r1 => Seq (deriv c r1) (Star r1)
  end.

(** A pattern is a body with the optional [^] and [$] assertions of the
    [m] flag at its two ends, which is the only place where the sources
    use them. *)
Record pattern : Type := Pattern {
  bol : bool;
  body : regex;
  eol : bool
}.

(** [$] under [m]: at the end of input or before a line terminator. *)
Definition at_line_end (rest : jsstring) : bool :=
  match rest with
  | [] => true
  | c :: _ => is_line_terminator c
  end.

(** Some prefix of [s] matches [r] (and ends at a line end if [e]). *)
Fixpoint accepts_prefix (e : bool) (r : regex) (s : jsstring) : bool :=
  (nullable r && (negb e || at_line_end s)) ||
  match s with
  | [] => false
  | c :: s' => accepts_prefix e (deriv c r) s'
  end.

(** Scan the start positions from left to right; [ls] tells whether the
    current position starts a line. *)
Fixpoint test_from (p : pattern) (ls : bool) (s : jsstring) : bool :=
  ((negb (bol p) || ls) && accepts_prefix (eol p) (body p) s) ||
  match s with
  | [] => false
  | c :: s' => test_from p (is_line_terminator c) s'
  end.

(** [pattern.test(content)] for a pattern without the [g] and [y] flags:
    no state is kept between calls. *)
Definition test (p : pattern) (s : jsstring) : bool := test_from p true s.

(** The declarative reading of [test]: the text splits into a part
    before the match, the match and a part after it. *)
Definition line_start (before : jsstring) : Prop :=
  before = [] \/ exists b c, before = b ++ [c] /\ is_line_terminator c = true.

Definition line_end (after : jsstring) : Prop :=
  at_line_end after = true.

Definition occurs (p : pattern) (s : jsstring) : Prop :=
  exists before mid after,
    s = before ++ mid ++ after /\
    matches (body p) mid /\
    (bol p = true -> line_start before) /\
    (eol p = true -> line_end after).

(** Where a line may start when the scan has passed [before] and the
    flag [ls] tells whether the scan began at a line start. *)
Definition starts_line (ls : bool) (before : jsstring) : Prop :=
  (before = [] /\ ls = true) \/
  exists b c, before = b ++ [c] /\ is_line_terminator c = true.

End Regex.

Import Regex.

(* ================================================================== *)
(** ** agentClient: format detection *)

Inductive Format : Type := FText | FMarkdown | FCode.

Module Patterns.

Definition plain (r : regex) : pattern := Pattern false r false.
Definition anyc : regex := Cls CAny.
Definition dot : regex := Cls CDot.
Definition sp : regex := Cls CSpace.

(** [new RegExp('```[\\s\\S]*?```')] *)
Definition codeBlock : pattern :=
  plain (Seq (lit "```") (Seq (Star anyc) (lit "```"))).

(** [new RegExp('`[^`]+`')] *)
Definition inlineCode : pattern :=
  plain (Seq (lit "`") (Seq (Plus (Cls (CNoneOf [96%N]))) (lit "`"))).

(** [/^#{1,6}\s/m] *)
Definition hash : regex := Cls (CChar 35).
Definition header : pattern :=
  Pattern true
    (Seq hash (Seq (Opt hash) (Seq (Opt hash) (Seq (Opt hash)
       (Seq (Opt hash) (Seq (Opt hash) sp))))))
    false.

(** [/\*\*.*?\*\*/s] *)
Definition bold : pattern :=
  plain (Seq (lit "**") (Seq (Star anyc) (lit "**"))).

(** [/\*.*?\*/s] *)
Definition italic : pattern :=
  plain (Seq (lit "*") (Seq (Star anyc) (lit "*"))).

(** [/_.*?_/s] *)
Definition italicAlt : pattern :=
  plain (Seq (lit "_") (Seq (Star anyc) (lit "_"))).

(** [/^\s*[-*+]\s/m] *)
Definition unorderedList : pattern :=
  Pattern true
    (Seq (Star sp) (Seq (Cls (COneOf [45%N; 42%N; 43%N])) sp)) false.

(** [/^\s*\d+\.\s/m] *)
Definition orderedList : pattern :=
  Pattern true
    (Seq (Star sp) (Seq (Plus (Cls CDigit)) (Seq (lit ".") sp))) false.

(** [/\[.*?\]\(.*?\)/] *)
Definition link : pattern :=
  plain (Seq (lit "[") (Seq (Star dot) (Seq (lit "](")
           (Seq (Star dot) (lit ")"))))).

(** [/^\s*>\s/m] *)
Definition blockquote : pattern :=
  Pattern true (Seq (Star sp) (Seq (lit ">") sp)) false.

(** [/\|.*\|.*\|/m] *)
Definition table : pattern :=
  plain (Seq (lit "|") (Seq (Star dot) (Seq (lit "|")
           (Seq (Star dot) (lit "|"))))).

(** [/^---+$/m] *)
Definition rule : pattern :=
  Pattern true (Seq (lit "--") (Plus (Cls (CChar 45)))) true.

(** [/~~.*?~~/s] *)
Definition strikethrough : pattern :=
  plain (Seq (lit "~~") (Seq (Star anyc) (lit "~~"))).

End Patterns.

Definition markdownPatterns : list pattern :=
  [ Patterns.codeBlock; Patterns.inlineCode; Patterns.header; Patterns.bold;
    Patterns.italic; Patterns.italicAlt; Patterns.unorderedList;
    Patterns.orderedList; Patterns.link; Patterns.blockquote;
    Patterns.table; Patterns.rule; Patterns.strikethrough ].

(** [detectMessageFormat(content)] *)
Definition detectMessageFormat (content : jsstring) : Format :=
  let hasMarkdown := existsb (fun p => test p content) markdownPatterns in
  if hasMarkdown then FMarkdown else FText.

(* ================================================================== *)
(** ** chatService: conversation title *)

(** [generateConversationTitle(message)] *)
Definition generateConversationTitle (message : jsstring) : jsstring :=
  let maxLength := 50%nat in
  let title := substring message 0 maxLength in
  if (Js.length title <? Js.length message)%nat
  then title ++ js "..."
  else title.

(* ================================================================== *)
(** ** Errors *)

(** [enum ErrorCodes], the members the services use. *)
Inductive ErrorCodes : Type :=
| INVALID_CREDENTIALS
| TOKEN_EXPIRED
| TOKEN_INVALID
| ACCOUNT_LOCKED
| FORBIDDEN
| USER_NOT_FOUND
| CONVERSATION_NOT_FOUND
| MESSAGE_NOT_FOUND
| EMAIL_ALREADY_EXISTS.

(** [class AppError]: message, HTTP status and error code. *)
Record AppError : Type := mkAppError {
  message : jsstring;
  statusCode : Z;
  errorCode : ErrorCodes;
  isOperational : bool
}.

Definition UnauthorizedError (msg : jsstring) (code : ErrorCodes) : AppError :=
  mkAppError msg 401 code true.
Definition ForbiddenError (msg : jsstring) (code : ErrorCodes) : AppError :=
  mkAppError msg 403 code true.
Definition NotFoundError (msg : jsstring) (code : ErrorCodes) : AppError :=
  mkAppError msg 404 code true.
Definition ConflictError (msg : jsstring) (code : ErrorCodes) : AppError :=
  mkAppError msg 409 code true.

(** What the Prisma client raises where the services rely on it. *)
Inductive PrismaFailure : Type :=
| UniqueConstraint        (* P2002 *)
| RecordNotFound          (* P2025 *)
| ValidationFailure.      (* an argument of the wrong type *)

(** Everything a [throw] or a rejected promise can carry here. *)
Inductive Exn : Type :=
| AppErr (e : AppError)
| PrismaErr (f : PrismaFailure)
| TypeErr                          (* property read on undefined or null *)
| FetchRejected (timedOut : bool)  (* network failure or abort by timeout *)
| SyntaxErr                        (* [response.json()] on a non-JSON body *)
| JwtErr (expired : bool)          (* TokenExpiredError / JsonWebTokenError *)
| PlainError (msg : jsstring).     (* [new Error(msg)] *)

Inductive Result (A : Type) : Type :=
| Ok (a : A)
| Throw (e : Exn).
Arguments Ok {A} a.
Arguments Throw {A} e.

(* ================================================================== *)
(** ** Rows of the four tables *)

(** Primary keys are UUID strings drawn by the database; the model draws
    them from a counter. *)
Definition Id := nat.
Definition Date := Z.

Module User.
Record t : Type := mk {
  id : Id;
  email : jsstring;
  password : jsstring;
  name : jsstring;
  role : jsstring;
  emailVerified : bool;
  loginAttempts : Z;
  lockedUntil : option Date;
  createdAt : Date;
  lastLoginAt : option Date;
  updatedAt : Date
}.
End User.

Module Conversation.
Record t : Type := mk {
  id : Id;
  userId : Id;
  title : jsstring;
  createdAt : Date;
  updatedAt : Date
}.
End Conversation.

Inductive Role : Type := user | assistant.

(** A JavaScript number as far as the metadata needs it. *)
Inductive JsNumber : Type := Num (z : Z) | NaN.

Record Metadata : Type := mkMetadata {
  model : jsstring;
  tokens : JsNumber;
  processingTime : option JsNumber
}.

Inductive Status : Type := sent.

Module Message.
Record t : Type := mk {
  id : Id;
  conversationId : Id;
  role : Role;
  content : jsstring;
  format : Format;
  status : Status;
  timestamp : Date;
  metadata : option Metadata
}.
End Message.

(* ================================================================== *)
(** ** jsonwebtoken *)

(** [interface TokenPayload] *)
Record TokenPayload : Type := mkPayload {
  userId : Id;
  email : jsstring;
  role : jsstring
}.

(** [interface DecodedToken extends TokenPayload] *)
Record DecodedToken : Type := mkDecoded {
  payload : TokenPayload;
  iat : Z;
  exp : Z
}.

(** A bearer token, symbolically: either a string that no key of this
    program signed, or the HS256 signature by [key] of the claims, the
    issue time and the expiry, both in seconds. Signing is deterministic:
    equal inputs give the equal token string. *)
Inductive Token : Type :=
| Unsigned (s : jsstring)
| Signed (key : jsstring) (claims : TokenPayload) (iat exp : Z).

Definition payload_eqb (a b : TokenPayload) : bool :=
  Nat.eqb (userId a) (userId b) && Js.eqb (email a) (email b)
  && Js.eqb (role a) (role b).

Definition token_eqb (a b : Token) : bool :=
  match a, b with
  | Unsigned s, Unsigned s' => Js.eqb s s'
  | Signed k p i e, Signed k' p' i' e' =>
      Js.eqb k k' && payload_eqb p p' && Z.eqb i i' && Z.eqb e e'
  | _, _ => false
  end.

(** A row of [refresh_tokens]; the [token] column holds the token string. *)
Module RefreshToken.
Record t : Type := mk {
  id : Id;
  token : Token;
  userId : Id;
  expiresAt : Date;
  createdAt : Date;
  revokedAt : option Date
}.
End RefreshToken.

(** A duration such as ['15m'] or ['7d']: digits and one of [s m h d]. *)
Inductive TimeUnit : Type := Seconds | Minutes | Hours | Days.

Record Expiry : Type := mkExpiry {
  amount : Z;
  timeUnit : TimeUnit
}.

Definition unitMillis (u : TimeUnit) : Z :=
  match u with
  | Seconds => 1000
  | Minutes => 60 * 1000
  | Hours => 60 * 60 * 1000
  | Days => 24 * 60 * 60 * 1000
  end.

Definition expiryMillis (e : Expiry) : Z := amount e * unitMillis (timeUnit e).
Definition expirySeconds (e : Expiry) : Z := expiryMillis e / 1000.

(* ================================================================== *)
(** ** Configuration *)

Module Config.
Record jwt_t : Type := mkJwt {
  accessSecret : jsstring;
  refreshSecret : jsstring;
  accessExpiry : Expiry;
  refreshExpiry : Expiry
}.
Record security_t : Type := mkSecurity {
  bcryptRounds : Z;
  maxLoginAttempts : Z;
  accountLockoutDuration : Z
}.
Record agent_t : Type := mkAgent {
  serviceUrl : jsstring;
  timeout : Z
}.
Record t : Type := mk {
  jwt : jwt_t;
  security : security_t;
  agent : agent_t
}.

(** The values used when the environment sets none. *)
Definition defaults : t :=
  mk (mkJwt (js "default-access-secret-change-me")
            (js "default-refresh-secret-change-me")
            (mkExpiry 15 Minutes) (mkExpiry 7 Days))
     (mkSecurity 12 5 900000)
     (mkAgent (js "http://localhost:8001") 30000).
End Config.

(* ================================================================== *)
(** ** The outbound call of the agent client *)

(** A value read from the parsed response body. *)
Inductive JsValue : Type :=
| JUndefined
| JNull
| JBool (b : bool)
| JNum (z : Z)
| JStr (s : jsstring).

(** [interface LLMResponse], as the body really arrives: [response] is
    whatever the JSON value holds under that key, [JUndefined] when it
    holds nothing there (the key is missing, or the value is a number, a
    string, a boolean or an array); the two counters are absent or
    integers. *)
Record LLMResponse : Type := mkLLMResponse {
  response : JsValue;
  tool_calls_made : option Z;
  iterations : option Z
}.

Record LLMMessage : Type := mkLLMMessage {
  llmRole : Role;
  llmContent : jsstring
}.

Record FetchRequest : Type := mkFetchRequest {
  url : jsstring;
  requestMessages : list LLMMessage;
  timeoutMs : Z
}.

(** The body of a response: text that does not parse (or whose reading
    is cut off), the JSON value [null], or any other JSON value, seen
    through its three keys. *)
Inductive Body : Type :=
| NotJson
| JsonNull
| Json (data : LLMResponse).

Record HttpResponse : Type := mkHttpResponse {
  status : Z;
  statusText : jsstring;
  responseBody : Body
}.

(** [response.ok] *)
Definition ok (r : HttpResponse) : bool :=
  (200 <=? status r) && (status r <=? 299).

Inductive FetchOutcome : Type :=
| Rejects (timedOut : bool)
| Responds (r : HttpResponse).

(** [interface AgentResponse]; [content] is declared a string, the cast
    of the parsed body does not check it. *)
Record AgentResponse : Type := mkAgentResponse {
  agentContent : JsValue;
  agentFormat : Format;
  agentMetadata : option Metadata
}.

(* ================================================================== *)
(** ** The world *)

Inductive LogLevel : Type := Info | Warn | Error.

Inductive Table : Type := Users | RefreshTokens | Conversations | Messages.

(** The effects of a run, oldest first. *)
Inductive Event : Type :=
| EvLog (level : LogLevel) (msg : jsstring)
| EvBcryptHash (password : jsstring)
| EvBcryptCompare (password hash : jsstring)
| EvFetch (req : FetchRequest)
| EvCreate (tbl : Table) (row : Id)
| EvUpdate (tbl : Table) (row : Id)
| EvDeleteMany (tbl : Table) (count : nat).

(** What the process is given: its configuration, the library functions
    whose tables are not in the sources, the readings of the clock (the
    n-th reading of a run is [time n]) and the behaviour of the LLM
    service. *)
Record Env : Type := mkEnv {
  config : Config.t;
  toLowerCase : jsstring -> jsstring;
  bcryptHash : jsstring -> Z -> jsstring;
  bcryptCompare : jsstring -> jsstring -> bool;
  time : nat -> Date;
  fetch : FetchRequest -> FetchOutcome
}.

Record World : Type := mkWorld {
  env : Env;
  users : list User.t;
  refreshTokens : list RefreshToken.t;
  conversations : list Conversation.t;
  messages : list Message.t;
  nextId : Id;
  clockReads : nat;
  trace : list Event
}.

(** Successive readings of the clock never go back. *)
Definition monotone (e : Env) : Prop :=
  forall n, time e n <= time e (S n).

(* ================================================================== *)
(** ** Computations *)

(** An [async] function: it runs on a world and leaves a world, whether it
    returns or throws; what it wrote before throwing stays written. *)
Definition M (A : Type) : Type := World -> Result A * World.

Definition ret {A : Type} (a : A) : M A := fun w => (Ok a, w).

Definition throw {A : Type} (e : Exn) : M A := fun w => (Throw e, w).

Definition bind {A B : Type} (m : M A) (k : A -> M B) : M B :=
  fun w =>
    match m w with
    | (Ok a, w') => k a w'
    | (Throw e, w') => (Throw e, w')
    end.

(** [try { m } catch (error) { h error }] *)
Definition try_catch {A : Type} (m : M A) (h : Exn -> M A) : M A :=
  fun w =>
    match m w with
    | (Ok a, w') => (Ok a, w')
    | (Throw e, w') => h e w'
    end.

Declare Scope monad_scope.
Delimit Scope monad_scope with monad.
Notation "x <- m ;; k" := (bind m (fun x => k))
  (at level 61, m at next level, right associativity) : monad_scope.
Notation "m ;; k" := (bind m (fun _ => k))
  (at level 61, right associativity) : monad_scope.
Open Scope monad_scope.

Definition gets {A : Type} (f : World -> A) : M A := fun w => (Ok (f w), w).

Definition modify (f : World -> World) : M unit := fun w => (Ok tt, f w).

Definition set_users (l : list User.t) (w : World) : World :=
  mkWorld (env w) l (refreshTokens w) (conversations w) (messages w)
          (nextId w) (clockReads w) (trace w).
Definition set_refreshTokens (l : list RefreshToken.t) (w : World)
  : World :=
  mkWorld (env w) (users w) l (conversations w) (messages w)
          (nextId w) (clockReads w) (trace w).
Definition set_conversations (l : list Conversation.t) (w : World) : World :=
  mkWorld (env w) (users w) (refreshTokens w) l (messages w)
          (nextId w) (clockReads w) (trace w).
Definition set_messages (l : list Message.t) (w : World) : World :=
  mkWorld (env w) (users w) (refreshTokens w) (conversations w) l
          (nextId w) (clockReads w) (trace w).
Definition set_nextId (n : Id) (w : World) : World :=
  mkWorld (env w) (users w) (refreshTokens w) (conversations w) (messages w)
          n (clockReads w) (trace w).
Definition set_clockReads (n : nat) (w : World) : World :=
  mkWorld (env w) (users w) (refreshTokens w) (conversations w) (messages w)
          (nextId w) n (trace w).
Definition set_trace (l : list Event) (w : World) : World :=
  mkWorld (env w) (users w) (refreshTokens w) (conversations w) (messages w)
          (nextId w) (clockReads w) l.

(** An effect is appended to the trace. *)
Definition emit (ev : Event) : M unit :=
  modify (fun w => set_trace (trace w ++ [ev]) w).

(** [new Date()], [Date.now()]: the next reading of the clock. *)
Definition now : M Date :=
  fun w => (Ok (time (env w) (clockReads w)),
            set_clockReads (S (clockReads w)) w).

(** A new primary key. *)
Definition freshId : M Id :=
  fun w => (Ok (nextId w), set_nextId (S (nextId w)) w).

(** [logger.info], [logger.warn], [logger.error] never throw. *)
Definition logger (level : LogLevel) (msg : jsstring) : M unit :=
  emit (EvLog level msg).

(** [try { m } catch (error) { logger.error(msg, ...); throw error; }] *)
Definition logged {A : Type} (msg : jsstring) (m : M A) : M A :=
  try_catch m (fun error => logger Error msg ;; throw error).

(* ================================================================== *)
(** ** The Prisma client, table by table *)

Module Prisma.

Module user.

Definition byEmail (e : jsstring) (u : User.t) : bool :=
  Js.eqb (User.email u) e.
Definition byId (i : Id) (u : User.t) : bool := Nat.eqb (User.id u) i.

(** [findUnique({ where: { email } })] *)
Definition findUniqueByEmail (e : jsstring) : M (option User.t) :=
  gets (fun w => find (byEmail e) (users w)).

(** [findUnique({ where: { id } })] *)
Definition findUnique (i : Id) : M (option User.t) :=
  gets (fun w => find (byId i) (users w)).

(** [create({ data: { email, password, name, role, emailVerified } })]:
    the other columns take their defaults; [email] is unique. *)
Definition create (email password name role : jsstring)
           (emailVerified : bool) : M User.t :=
  taken <- findUniqueByEmail email ;;
  match taken with
  | Some _ => throw (PrismaErr UniqueConstraint)
  | None =>
      i <- freshId ;;
      t <- now ;;
      let row := User.mk i email password name role emailVerified
                         0 None t None t in
      modify (fun w => set_users (users w ++ [row]) w) ;;
      emit (EvCreate Users i) ;;
      ret row
  end.

Definition touch (t : Date) (u : User.t) : User.t :=
  User.mk (User.id u) (User.email u) (User.password u) (User.name u)
          (User.role u) (User.emailVerified u) (User.loginAttempts u)
          (User.lockedUntil u) (User.createdAt u) (User.lastLoginAt u) t.

Definition apply (i : Id) (f : User.t -> User.t) (t : Date)
           (u : User.t) : User.t :=
  if byId i u then touch t (f u) else u.

(** [update({ where: { id }, data })]: [data] is the change [f]; the
    [updatedAt] column is stamped by the client. *)
Definition update (i : Id) (f : User.t -> User.t) : M User.t :=
  found <- findUnique i ;;
  match found with
  | None => throw (PrismaErr RecordNotFound)
  | Some u =>
      t <- now ;;
      modify (fun w => set_users (map (apply i f t) (users w)) w) ;;
      emit (EvUpdate Users i) ;;
      ret (touch t (f u))
  end.

End user.

Module refreshToken.

Definition row := RefreshToken.t.

Definition byToken (tok : Token) (r : row) : bool :=
  token_eqb (RefreshToken.token r) tok.
Definition byId (i : Id) (r : row) : bool :=
  Nat.eqb (RefreshToken.id r) i.

(** [findUnique({ where: { token } })] *)
Definition findUnique (tok : Token) : M (option row) :=
  gets (fun w => find (byToken tok) (refreshTokens w)).

(** [findUnique({ where: { token }, include: { user: true } })]; the
    foreign key makes the owner present in every reachable store. *)
Definition findUniqueWithUser (tok : Token)
  : M (option (row * option User.t)) :=
  gets (fun w =>
          match find (byToken tok) (refreshTokens w) with
          | None => None
          | Some r =>
              Some (r, find (user.byId (RefreshToken.userId r)) (users w))
          end).

(** [create({ data: { token, userId, expiresAt } })]; [token] is
    unique. *)
Definition create (tok : Token) (uid : Id) (expiresAt : Date) : M row :=
  taken <- findUnique tok ;;
  match taken with
  | Some _ => throw (PrismaErr UniqueConstraint)
  | None =>
      i <- freshId ;;
      t <- now ;;
      let r := RefreshToken.mk i tok uid expiresAt t None in
      modify (fun w => set_refreshTokens (refreshTokens w ++ [r]) w) ;;
      emit (EvCreate RefreshTokens i) ;;
      ret r
  end.

Definition revoke (t : Date) (r : row) : row :=
  RefreshToken.mk (RefreshToken.id r) (RefreshToken.token r)
                  (RefreshToken.userId r) (RefreshToken.expiresAt r)
                  (RefreshToken.createdAt r) (Some t).

Definition apply (i : Id) (f : row -> row) (r : row) : row :=
  if byId i r then f r else r.

(** [update({ where: { id }, data })] *)
Definition update (i : Id) (f : row -> row) : M row :=
  found <- gets (fun w => find (byId i) (refreshTokens w)) ;;
  match found with
  | None => throw (PrismaErr RecordNotFound)
  | Some r =>
      modify (fun w =>
                set_refreshTokens (map (apply i f) (refreshTokens w)) w) ;;
      emit (EvUpdate RefreshTokens i) ;;
      ret (f r)
  end.

(** [deleteMany({ where })] with the filter [sel]; returns [count]. *)
Definition deleteMany (sel : row -> bool) : M nat :=
  doomed <- gets (fun w => filter sel (refreshTokens w)) ;;
  modify (fun w =>
            set_refreshTokens
              (filter (fun r => negb (sel r)) (refreshTokens w)) w) ;;
  emit (EvDeleteMany RefreshTokens (List.length doomed)) ;;
  ret (List.length doomed).

End refreshToken.

Module message.

Definition ofConversation (c : Id) (m : Message.t) : bool :=
  Nat.eqb (Message.conversationId m) c.

(** [create({ data })]; the [content] column is a string, any other
    value is refused by the client. *)
Definition create (cid : Id) (role : Role) (content : JsValue)
           (format : Format) (status : Status)
           (metadata : option Metadata) : M Message.t :=
  match content with
  | JStr text =>
      i <- freshId ;;
      t <- now ;;
      let m := Message.mk i cid role text format status t metadata in
      modify (fun w => set_messages (messages w ++ [m]) w) ;;
      emit (EvCreate Messages i) ;;
      ret m
  | _ => throw (PrismaErr ValidationFailure)
  end.

(** [orderBy: { timestamp: 'asc' }]; rows of equal timestamp keep the
    order of insertion. *)
Fixpoint insert (m : Message.t) (l : list Message.t) : list Message.t :=
  match l with
  | [] => [m]
  | x :: l' =>
      if Message.timestamp m <? Message.timestamp x
      then m :: l
      else x :: insert m l'
  end.

Definition orderByTimestamp (l : list Message.t) : list Message.t :=
  fold_left (fun acc m => insert m acc) l [].

End message.

Module conversation.

Definition byId (i : Id) (c : Conversation.t) : bool :=
  Nat.eqb (Conversation.id c) i.

(** [findUnique({ where: { id },
                  include: { messages: { orderBy: { timestamp: 'asc' } } } })] *)
Definition findUniqueWithMessages (i : Id)
  : M (option (Conversation.t * list Message.t)) :=
  gets (fun w =>
          match find (byId i) (conversations w) with
          | None => None
          | Some c =>
              Some (c, message.orderByTimestamp
                         (filter (message.ofConversation i) (messages w)))
          end).

(** [create({ data: { userId, title } })] *)
Definition create (uid : Id) (title : jsstring) : M Conversation.t :=
  i <- freshId ;;
  t <- now ;;
  let c := Conversation.mk i uid title t t in
  modify (fun w => set_conversations (conversations w ++ [c]) w) ;;
  emit (EvCreate Conversations i) ;;
  ret c.

Definition stamp (i : Id) (t : Date) (c : Conversation.t)
  : Conversation.t :=
  if byId i c
  then Conversation.mk (Conversation.id c) (Conversation.userId c)
                       (Conversation.title c) (Conversation.createdAt c) t
  else c.

(** [update({ where: { id }, data: { updatedAt } })] *)
Definition updateUpdatedAt (i : Id) (t : Date) : M unit :=
  found <- gets (fun w => find (byId i) (conversations w)) ;;
  match found with
  | None => throw (PrismaErr RecordNotFound)
  | Some _ =>
      modify (fun w =>
                set_conversations (map (stamp i t) (conversations w)) w) ;;
      emit (EvUpdate Conversations i)
  end.

End conversation.

End Prisma.

(* ================================================================== *)
(** ** utils/jwt *)

Module jwt.

(** [jwt.sign(payload, secret, { expiresIn })]: [iat] is the clock in
    whole seconds, [exp] is [iat] plus the duration. *)
Definition sign (p : TokenPayload) (secret : jsstring) (expiresIn : Expiry)
  : M Token :=
  t <- now ;;
  let issued := t / 1000 in
  ret (Signed secret p issued (issued + expirySeconds expiresIn)).

(** [jwt.verify(token, secret)]: the clock is read first; a string that
    is not a token signed with [secret] is refused, then an expired one. *)
Definition verify (tok : Token) (secret : jsstring) : M DecodedToken :=
  t <- now ;;
  let clockTimestamp := t / 1000 in
  match tok with
  | Unsigned _ => throw (JwtErr false)
  | Signed key claims issued expires =>
      if negb (Js.eqb key secret) then throw (JwtErr false)
      else if expires <=? clockTimestamp then throw (JwtErr true)
      else ret (mkDecoded claims issued expires)
  end.

End jwt.

Definition jwtConfig : M Config.jwt_t :=
  gets (fun w => Config.jwt (config (env w))).

(** [generateAccessToken(payload)] *)
Definition generateAccessToken (p : TokenPayload) : M Token :=
  cfg <- jwtConfig ;;
  jwt.sign p (Config.accessSecret cfg) (Config.accessExpiry cfg).

(** [generateRefreshToken(payload)] *)
Definition generateRefreshToken (p : TokenPayload) : M Token :=
  cfg <- jwtConfig ;;
  jwt.sign p (Config.refreshSecret cfg) (Config.refreshExpiry cfg).

(** [verifyAccessToken(token)] *)
Definition verifyAccessToken (tok : Token) : M DecodedToken :=
  cfg <- jwtConfig ;;
  try_catch (jwt.verify tok (Config.accessSecret cfg))
    (fun error =>
       match error with
       | JwtErr true =>
           throw (AppErr (UnauthorizedError (js "Access token expired")
                                            TOKEN_EXPIRED))
       | _ =>
           throw (AppErr (UnauthorizedError (js "Invalid access token")
                                            TOKEN_INVALID))
       end).

(** [verifyRefreshToken(token)] *)
Definition verifyRefreshToken (tok : Token) : M DecodedToken :=
  cfg <- jwtConfig ;;
  try_catch (jwt.verify tok (Config.refreshSecret cfg))
    (fun error =>
       match error with
       | JwtErr true =>
           throw (AppErr (UnauthorizedError (js "Refresh token expired")
                                            TOKEN_EXPIRED))
       | _ =>
           throw (AppErr (UnauthorizedError (js "Invalid refresh token")
                                            TOKEN_INVALID))
       end).

(** [getTokenExpiry(expiryString)]: the calendar field of the unit is
    advanced by the amount, which adds that many milliseconds as long as
    no change of the local clock offset falls in between. *)
Definition getTokenExpiry (e : Expiry) : M Date :=
  t <- now ;;
  ret (t + expiryMillis e).

(* ================================================================== *)
(** ** services/authService *)

Record RegisterData : Type := mkRegisterData {
  registerEmail : jsstring;
  registerPassword : jsstring;
  registerName : jsstring
}.

Record LoginData : Type := mkLoginData {
  loginEmail : jsstring;
  loginPassword : jsstring
}.

Record UserSummary : Type := mkUserSummary {
  summaryId : Id;
  summaryEmail : jsstring;
  summaryName : jsstring;
  summaryRole : jsstring;
  summaryEmailVerified : bool
}.

Record AuthResponse : Type := mkAuthResponse {
  authUser : UserSummary;
  accessToken : Token;
  refreshToken : Token
}.

Record TokenPair : Type := mkTokenPair {
  pairAccessToken : Token;
  pairRefreshToken : Token
}.

Definition securityConfig : M Config.security_t :=
  gets (fun w => Config.security (config (env w))).

(** [bcrypt.hash(password, rounds)], [bcrypt.compare(password, hash)] *)
Definition bcrypt_hash (password : jsstring) (rounds : Z) : M jsstring :=
  emit (EvBcryptHash password) ;;
  gets (fun w => bcryptHash (env w) password rounds).

Definition bcrypt_compare (password hash : jsstring) : M bool :=
  emit (EvBcryptCompare password hash) ;;
  gets (fun w => bcryptCompare (env w) password hash).

Definition lowerCase (s : jsstring) : M jsstring :=
  gets (fun w => toLowerCase (env w) s).

(** [Math.ceil(a / b)] for integers [a] and positive [b]. The source
    divides doubles, by 1000 and then by 60; for differences of epoch
    values that quotient is off from the exact one by far less than
    1/60000, so the rounded-up results agree. *)
Definition ceilDiv (a b : Z) : Z := - ((- a) / b).

Definition lockedMessage (remainingTime : Z) : jsstring :=
  js "Account is locked. Please try again in " ++ ofZ remainingTime
     ++ js " minutes".

Definition setLock (attempts : Z) (lock : option Date) (u : User.t) : User.t :=
  User.mk (User.id u) (User.email u) (User.password u) (User.name u)
          (User.role u) (User.emailVerified u) attempts lock
          (User.createdAt u) (User.lastLoginAt u) (User.updatedAt u).

Definition setAttempts (attempts : Z) (u : User.t) : User.t :=
  User.mk (User.id u) (User.email u) (User.password u) (User.name u)
          (User.role u) (User.emailVerified u) attempts (User.lockedUntil u)
          (User.createdAt u) (User.lastLoginAt u) (User.updatedAt u).

Definition setLoggedIn (t : Date) (u : User.t) : User.t :=
  User.mk (User.id u) (User.email u) (User.password u) (User.name u)
          (User.role u) (User.emailVerified u) 0 None
          (User.createdAt u) (Some t) (User.updatedAt u).

(** [checkAccountLock(user)]. Both tests start with [user.lockedUntil &&],
    so the clock is read only for an account that carries a lock. *)
Definition checkAccountLock (u : User.t) : M unit :=
  match User.lockedUntil u with
  | None => ret tt
  | Some lockedUntil =>
      t1 <- now ;;
      if t1 <? lockedUntil then
        t2 <- now ;;
        let remainingTime := ceilDiv (lockedUntil - t2) (1000 * 60) in
        throw (AppErr (UnauthorizedError (lockedMessage remainingTime)
                                         ACCOUNT_LOCKED))
      else
        t3 <- now ;;
        if lockedUntil <=? t3 then
          Prisma.user.update (User.id u) (setLock 0 None) ;;
          ret tt
        else ret tt
  end.

(** [handleFailedLogin(userId, currentAttempts)] *)
Definition handleFailedLogin (uid : Id) (currentAttempts : Z) : M unit :=
  let attempts := currentAttempts + 1 in
  cfg <- securityConfig ;;
  if Config.maxLoginAttempts cfg <=? attempts then
    t <- now ;;
    let lockUntil := t + Config.accountLockoutDuration cfg in
    Prisma.user.update uid (setLock attempts (Some lockUntil)) ;;
    logger Warn (js "Account locked due to too many failed login attempts") ;;
    throw (AppErr (UnauthorizedError
             (js "Too many failed login attempts. Account locked for 15 minutes")
             ACCOUNT_LOCKED))
  else
    Prisma.user.update uid (setAttempts attempts) ;;
    ret tt.

Definition summary (u : User.t) : UserSummary :=
  mkUserSummary (User.id u) (User.email u) (User.name u) (User.role u)
                (User.emailVerified u).

(** The tail shared by [register] and [login]: sign the pair, store the
    refresh token, build the response. *)
Definition issueTokens (u : User.t) : M AuthResponse :=
  let tokenPayload := mkPayload (User.id u) (User.email u) (User.role u) in
  access <- generateAccessToken tokenPayload ;;
  refresh <- generateRefreshToken tokenPayload ;;
  cfg <- jwtConfig ;;
  expiresAt <- getTokenExpiry (Config.refreshExpiry cfg) ;;
  Prisma.refreshToken.create refresh (User.id u) expiresAt ;;
  ret (mkAuthResponse (summary u) access refresh).

(** [register(data)] *)
Definition register (data : RegisterData) : M AuthResponse :=
  logged (js "Registration failed") (
    lowered <- lowerCase (registerEmail data) ;;
    existingUser <- Prisma.user.findUniqueByEmail lowered ;;
    match existingUser with
    | Some _ =>
        throw (AppErr (ConflictError (js "Email already registered")
                                     EMAIL_ALREADY_EXISTS))
    | None =>
        cfg <- securityConfig ;;
        hashedPassword <- bcrypt_hash (registerPassword data)
                                      (Config.bcryptRounds cfg) ;;
        u <- Prisma.user.create lowered hashedPassword (registerName data)
                                (js "user") false ;;
        logger Info (js "User registered successfully") ;;
        issueTokens u
    end).

(** [login(data)]. [user] is the row as it was read at the start: the
    writes of [checkAccountLock] go to the table, not to this value. *)
Definition login (data : LoginData) : M AuthResponse :=
  logged (js "Login failed") (
    lowered <- lowerCase (loginEmail data) ;;
    found <- Prisma.user.findUniqueByEmail lowered ;;
    match found with
    | None =>
        throw (AppErr (UnauthorizedError (js "Invalid email or password")
                                         INVALID_CREDENTIALS))
    | Some u =>
        checkAccountLock u ;;
        isPasswordValid <- bcrypt_compare (loginPassword data)
                                          (User.password u) ;;
        (if negb isPasswordValid then
           handleFailedLogin (User.id u) (User.loginAttempts u) ;;
           throw (AppErr (UnauthorizedError (js "Invalid email or password")
                                            INVALID_CREDENTIALS))
         else ret tt) ;;
        t <- now ;;
        Prisma.user.update (User.id u) (setLoggedIn t) ;;
        logger Info (js "User logged in successfully") ;;
        issueTokens u
    end).

(** [refreshAccessToken(refreshTokenString)] *)
Definition refreshAccessToken (refreshTokenString : Token) : M TokenPair :=
  logged (js "Token refresh failed") (
    verifyRefreshToken refreshTokenString ;;
    storedToken <- Prisma.refreshToken.findUniqueWithUser refreshTokenString ;;
    match storedToken with
    | None =>
        throw (AppErr (UnauthorizedError (js "Invalid refresh token")
                                         TOKEN_INVALID))
    | Some (stored, owner) =>
        match RefreshToken.revokedAt stored with
        | Some _ =>
            throw (AppErr (UnauthorizedError
                             (js "Refresh token has been revoked")
                             TOKEN_INVALID))
        | None =>
            t <- now ;;
            if RefreshToken.expiresAt stored <? t then
              throw (AppErr (UnauthorizedError (js "Refresh token expired")
                                               TOKEN_EXPIRED))
            else
              revokedAt <- now ;;
              Prisma.refreshToken.update (RefreshToken.id stored)
                (Prisma.refreshToken.revoke revokedAt) ;;
              match owner with
              | None => throw TypeErr
              | Some u =>
                  let tokenPayload :=
                    mkPayload (User.id u) (User.email u) (User.role u) in
                  newAccessToken <- generateAccessToken tokenPayload ;;
                  newRefreshToken <- generateRefreshToken tokenPayload ;;
                  cfg <- jwtConfig ;;
                  expiresAt <- getTokenExpiry (Config.refreshExpiry cfg) ;;
                  Prisma.refreshToken.create newRefreshToken (User.id u)
                                             expiresAt ;;
                  logger Info (js "Access token refreshed") ;;
                  ret (mkTokenPair newAccessToken newRefreshToken)
              end
        end
    end).

(** [logout(refreshTokenString)] *)
Definition logout (refreshTokenString : Token) : M unit :=
  logged (js "Logout failed") (
    found <- Prisma.refreshToken.findUnique refreshTokenString ;;
    match found with
    | Some stored =>
        match RefreshToken.revokedAt stored with
        | None =>
            revokedAt <- now ;;
            Prisma.refreshToken.update (RefreshToken.id stored)
              (Prisma.refreshToken.revoke revokedAt) ;;
            logger Info (js "User logged out")
        | Some _ => ret tt
        end
    | None => ret tt
    end).

(** The [where] clause of the sweep:
    [OR: [{ expiresAt: { lt: now } }, { revokedAt: { not: null } }]] *)
Definition sweepFilter (t : Date) (r : RefreshToken.t) : bool :=
  (RefreshToken.expiresAt r <? t) ||
  match RefreshToken.revokedAt r with
  | Some _ => true
  | None => false
  end.

(** [cleanupExpiredTokens()] *)
Definition cleanupExpiredTokens : M nat :=
  logged (js "Token cleanup failed") (
    t <- now ;;
    count <- Prisma.refreshToken.deleteMany (sweepFilter t) ;;
    logger Info (js "Expired tokens cleaned up") ;;
    ret count).

(* ================================================================== *)
(** ** services/agentClient *)

(** [String(v)], the coercion [RegExp.prototype.test] applies to its
    argument. *)
Definition toString (v : JsValue) : jsstring :=
  match v with
  | JUndefined => js "undefined"
  | JNull => js "null"
  | JBool true => js "true"
  | JBool false => js "false"
  | JNum z => ofZ z
  | JStr s => s
  end.

(** [v.length]: a [TypeError] on [undefined] and [null], the number of
    code units of a string, [undefined] on a number or a boolean. *)
Definition lengthOf (v : JsValue) : M JsValue :=
  match v with
  | JUndefined | JNull => throw TypeErr
  | JStr s => ret (JNum (Z.of_nat (Js.length s)))
  | JBool _ | JNum _ => ret JUndefined
  end.

(** [Math.floor(v / 4)] for what [lengthOf] returns. *)
Definition floorQuarter (v : JsValue) : JsNumber :=
  match v with
  | JNum n => Num (n / 4)
  | _ => NaN
  end.

(** [n * 100] for a counter that may be missing. *)
Definition timesHundred (n : option Z) : JsNumber :=
  match n with
  | Some z => Num (z * 100)
  | None => NaN
  end.

(** [transformMessagesToLLMFormat(conversationHistory, currentMessage)] *)
Definition transformMessagesToLLMFormat (conversationHistory : list Message.t)
           (currentMessage : jsstring) : list LLMMessage :=
  let messages :=
    map (fun msg => mkLLMMessage (Message.role msg) (Message.content msg))
        conversationHistory in
  messages ++ [mkLLMMessage user currentMessage].

(** [fetch(url, { method: 'POST', body, signal: AbortSignal.timeout(..) })]:
    the promise rejects on a network failure and on the timeout. *)
Definition doFetch (req : FetchRequest) : M HttpResponse :=
  emit (EvFetch req) ;;
  outcome <- gets (fun w => fetch (env w) req) ;;
  match outcome with
  | Rejects timedOut => throw (FetchRejected timedOut)
  | Responds r => ret r
  end.

(** [response.json()]; [None] is the value [null]. *)
Definition json (r : HttpResponse) : M (option LLMResponse) :=
  match responseBody r with
  | NotJson => throw SyntaxErr
  | JsonNull => ret None
  | Json data => ret (Some data)
  end.

(** Reading a property of the parsed value: a [TypeError] on [null]. *)
Definition fieldsOf (parsed : option LLMResponse) : M LLMResponse :=
  match parsed with
  | None => throw TypeErr
  | Some data => ret data
  end.

Definition fallbackContent : jsstring :=
  js "I'm having trouble processing your message right now. Please try again.".

Definition fallbackResponse : AgentResponse :=
  mkAgentResponse (JStr fallbackContent) FText
                  (Some (mkMetadata (js "llm-backend-v1") (Num 0) None)).

Module agentClient.

(** [sendMessage(userId, message, conversationHistory)] *)
Definition sendMessage (uid : Id) (message : jsstring)
           (conversationHistory : list Message.t) : M AgentResponse :=
  try_catch (
    logger Info (js "LLM agent processing message") ;;
    let messages :=
      transformMessagesToLLMFormat conversationHistory message in
    cfg <- gets (fun w => Config.agent (config (env w))) ;;
    reply <- doFetch (mkFetchRequest (Config.serviceUrl cfg) messages
                                     (Config.timeout cfg)) ;;
    (if negb (ok reply) then
       throw (PlainError (js "LLM service returned " ++ ofZ (status reply)
                             ++ js ": " ++ statusText reply))
     else ret tt) ;;
    parsed <- json reply ;;
    data <- fieldsOf parsed ;;
    let format := detectMessageFormat (toString (response data)) in
    logger Info (js "LLM agent response received") ;;
    len <- lengthOf (response data) ;;
    ret (mkAgentResponse (response data) format
           (Some (mkMetadata (js "llm-backend-v1") (floorQuarter len)
                             (Some (timesHundred (iterations data))))))
  ) (fun error =>
    logger Error (js "LLM agent error") ;;
    ret fallbackResponse).

End agentClient.

(* ================================================================== *)
(** ** services/chatService *)

Record SendMessageData : Type := mkSendMessageData {
  senderId : Id;
  messageText : jsstring;
  conversationRef : option Id
}.

Record MessageResponse : Type := mkMessageResponse {
  responseConversationId : Id;
  userMessage : Message.t;
  assistantMessage : Message.t
}.

Module chatService.

(** The first statement of [sendMessage]: the conversation to extend
    and its history. *)
Definition resolve (data : SendMessageData)
  : M (Conversation.t * list Message.t) :=
  match conversationRef data with
  | Some cid =>
      existingConversation <-
        Prisma.conversation.findUniqueWithMessages cid ;;
      match existingConversation with
      | None =>
          throw (AppErr (NotFoundError (js "Conversation not found")
                                       CONVERSATION_NOT_FOUND))
      | Some (c, history) =>
          if negb (Nat.eqb (Conversation.userId c) (senderId data)) then
            throw (AppErr (ForbiddenError
                             (js "You do not have access to this conversation")
                             FORBIDDEN))
          else ret (c, history)
      end
  | None =>
      c <- Prisma.conversation.create (senderId data)
             (generateConversationTitle (messageText data)) ;;
      logger Info (js "New conversation created") ;;
      ret (c, [])
  end.

(** [sendMessage(data)] *)
Definition sendMessage (data : SendMessageData) : M MessageResponse :=
  logged (js "Send message failed") (
    resolved <- resolve data ;;
    let conversation := fst resolved in
    let conversationHistory := snd resolved in
    userMsg <- Prisma.message.create (Conversation.id conversation) user
                 (JStr (messageText data)) FText sent None ;;
    agentResponse <- agentClient.sendMessage (senderId data)
                       (messageText data) conversationHistory ;;
    assistantMsg <- Prisma.message.create (Conversation.id conversation)
                      assistant (agentContent agentResponse)
                      (agentFormat agentResponse) sent
                      (agentMetadata agentResponse) ;;
    t <- now ;;
    Prisma.conversation.updateUpdatedAt (Conversation.id conversation) t ;;
    logger Info (js "Message sent and response received") ;;
    ret (mkMessageResponse (Conversation.id conversation) userMsg
                           assistantMsg)).

End chatService.

(* ================================================================== *)
(** ** controllers/llmController *)

(** The [select] of [getUserById]. *)
Record UserInfo : Type := mkUserInfo {
  infoId : Id;
  infoName : jsstring;
  infoEmail : jsstring;
  infoRole : jsstring;
  infoEmailVerified : bool;
  infoCreatedAt : Date;
  infoUpdatedAt : Date
}.

Definition selectInfo (u : User.t) : UserInfo :=
  mkUserInfo (User.id u) (User.name u) (User.email u) (User.role u)
             (User.emailVerified u) (User.createdAt u) (User.updatedAt u).

(** The body handed to [res.json]. *)
Record UserInfoBody : Type := mkUserInfoBody {
  success : bool;
  data : UserInfo
}.

Module llmController.

(** [getUserById(req, res)] with [req.params.userId = uid]; the result
    is what [res.json] is called with. *)
Definition getUserById (uid : Id) : M UserInfoBody :=
  try_catch (
    found <- Prisma.user.findUnique uid ;;
    let selected := option_map selectInfo found in
    match selected with
    | None =>
        throw (AppErr (NotFoundError (js "User not found") USER_NOT_FOUND))
    | Some info =>
        logger Info (js "LLM service fetched user information") ;;
        ret (mkUserInfoBody true info)
    end
  ) (fun error => throw error).

End llmController.

(* ================================================================== *)
(** ** The specification's reading of the format tag *)

(** The nine kinds of markup the specification lists, each read as an
    occurrence of the corresponding pattern(s) of [markdownPatterns]. *)
Module Markup.
Definition fencedCode (s : jsstring) : Prop := occurs Patterns.codeBlock s.
Definition header (s : jsstring) : Prop := occurs Patterns.header s.
Definition emphasis (s : jsstring) : Prop :=
  occurs Patterns.bold s \/ occurs Patterns.italic s
  \/ occurs Patterns.italicAlt s.
Definition link (s : jsstring) : Prop := occurs Patterns.link s.
Definition table (s : jsstring) : Prop := occurs Patterns.table s.
Definition rule (s : jsstring) : Prop := occurs Patterns.rule s.
Definition strikethrough (s : jsstring) : Prop :=
  occurs Patterns.strikethrough s.

(** The pattern the list leaves out. *)
Definition inlineCode (s : jsstring) : Prop := occurs Patterns.inlineCode s.

End Markup.


(* ================================================================== *)
(** ** The specification's reading of a failed outbound call *)




(** The conversation named by the request exists and belongs to the
    caller, or the request names none. *)
Definition resolves (data : SendMessageData) (w : World) : Prop :=
  match conversationRef data with
  | None => True
  | Some cid =>
      exists c, find (Prisma.conversation.byId cid) (conversations w) = Some c
                /\ Conversation.userId c = senderId data
  end.

Definition isFetch (ev : Event) : bool :=
  match ev with
  | EvFetch _ => true
  | _ => false
  end.



(* ================================================================== *)
(** ** Reading the store *)

(** The account a login with address [e] finds. *)
Definition account (w : World) (e : jsstring) : option User.t :=
  find (Prisma.user.byEmail (toLowerCase (env w) e)) (users w).

(** The stored credential with token value [tok]. *)
Definition credential (w : World) (tok : Token)
  : option RefreshToken.t :=
  find (Prisma.refreshToken.byToken tok) (refreshTokens w).

(** Consecutive login attempts on one address, one per password. *)
Fixpoint loginAttemptsWith (e : jsstring) (passwords : list jsstring)
         (w : World) : World :=
  match passwords with
  | [] => w
  | p :: rest => loginAttemptsWith e rest (snd (login (mkLoginData e p) w))
  end.

Definition isCompare (ev : Event) : bool :=
  match ev with
  | EvBcryptCompare _ _ => true
  | _ => false
  end.

(** The error names the time left in seconds, as the specification words
    it: it is an [ACCOUNT_LOCKED] error whose text shows the number of
    seconds left, rounded up, and that number is positive. *)
Definition reportsSeconds (e : Exn) (remainingMillis : Z) : Prop :=
  exists err,
    e = AppErr err /\
    errorCode err = ACCOUNT_LOCKED /\
    includes (message err) (ofZ (ceilDiv remainingMillis 1000)) = true /\
    0 < ceilDiv remainingMillis 1000.

(** The sweep as the specification words it: a row that the sweep
    removes is both past its expiry and revoked. *)
Definition sweepsOnlyExpiredAndRevoked (w : World) : Prop :=
  forall r,
    In r (refreshTokens w) ->
    ~ In r (refreshTokens (snd (cleanupExpiredTokens w))) ->
    RefreshToken.expiresAt r < time (env w) (clockReads w) /\
    RefreshToken.revokedAt r <> None.

(** Two user rows that differ at most in the columns the lookup of the
    LLM controller leaves out. *)
Definition differOnlyInHiddenColumns (u1 u2 : User.t) : Prop :=
  exists password attempts lock lastLogin,
    u2 = User.mk (User.id u1) (User.email u1) password (User.name u1)
                 (User.role u1) (User.emailVerified u1) attempts lock
                 (User.createdAt u1) lastLogin (User.updatedAt u1).


(* ================================================================== *)
(** ** Names for what the services compute *)

Definition agentRequest (w : World) (h : list Message.t) (m : jsstring)
  : FetchRequest :=
  mkFetchRequest (Config.serviceUrl (Config.agent (config (env w))))
                 (transformMessagesToLLMFormat h m)
                 (Config.timeout (Config.agent (config (env w)))).

Definition newMessage (w : World) (cid : Id) (r : Role) (text : jsstring)
           (f : Format) (md : option Metadata) : Message.t :=
  Message.mk (nextId w) cid r text f sent (time (env w) (clockReads w)) md.

Definition invalidCredentials : Exn :=
  AppErr (UnauthorizedError (js "Invalid email or password")
                            INVALID_CREDENTIALS).

Definition tooManyAttempts : Exn :=
  AppErr (UnauthorizedError
            (js "Too many failed login attempts. Account locked for 15 minutes")
            ACCOUNT_LOCKED).

Definition maxAttempts (w : World) : Z :=
  Config.maxLoginAttempts (Config.security (config (env w))).

Definition lockoutDuration (w : World) : Z :=
  Config.accountLockoutDuration (Config.security (config (env w))).

Definition jwtOf (w : World) : Config.jwt_t := Config.jwt (config (env w)).

Definition nowSeconds (w : World) : Z := time (env w) (clockReads w) / 1000.

Definition payloadOf (u : User.t) : TokenPayload :=
  mkPayload (User.id u) (User.email u) (User.role u).

(** The access token signed at the n-th reading of the clock. *)
Definition accessAt (w : World) (n : nat) (u : User.t) : Token :=
  Signed (Config.accessSecret (jwtOf w)) (payloadOf u)
         (time (env w) n / 1000)
         (time (env w) n / 1000
          + expirySeconds (Config.accessExpiry (jwtOf w))).

Definition refreshAt (w : World) (n : nat) (u : User.t) : Token :=
  Signed (Config.refreshSecret (jwtOf w)) (payloadOf u)
         (time (env w) n / 1000)
         (time (env w) n / 1000
          + expirySeconds (Config.refreshExpiry (jwtOf w))).

(** The row [issueTokens] stores. *)
Definition issuedRow (w : World) (u : User.t) : RefreshToken.t :=
  RefreshToken.mk (nextId w) (refreshAt w (S (clockReads w)) u) (User.id u)
    (time (env w) (S (S (clockReads w)))
     + expiryMillis (Config.refreshExpiry (jwtOf w)))
    (time (env w) (S (S (S (clockReads w))))) None.

(** The row [register] creates. *)
Definition registeredUser (data : RegisterData) (w : World) : User.t :=
  User.mk (nextId w) (toLowerCase (env w) (registerEmail data))
    (bcryptHash (env w) (registerPassword data)
       (Config.bcryptRounds (Config.security (config (env w)))))
    (registerName data) (js "user") false 0 None
    (time (env w) (clockReads w)) None (time (env w) (clockReads w)).

(** The table after a rotation: the presented row revoked, the new row
    appended. *)
Definition rotated (w : World) (stored : RefreshToken.t) (u : User.t)
  : World :=
  let n := clockReads w in
  set_trace
    (trace w ++ [EvUpdate RefreshTokens (RefreshToken.id stored);
                 EvCreate RefreshTokens (nextId w);
                 EvLog Info (js "Access token refreshed")])
    (set_refreshTokens
       (map (Prisma.refreshToken.apply (RefreshToken.id stored)
               (Prisma.refreshToken.revoke (time (env w) (2 + n))))
            (refreshTokens w)
        ++ [RefreshToken.mk (nextId w) (refreshAt w (4 + n) u) (User.id u)
              (time (env w) (5 + n)
               + expiryMillis (Config.refreshExpiry (jwtOf w)))
              (time (env w) (6 + n)) None])
       (set_clockReads (7 + n) (set_nextId (S (nextId w)) w))).

(* ================================================================== *)
(** ** A concrete runtime for the examples *)

Module Sample.

Definition lower (c : N) : N :=
  if (N.leb 65 c && N.leb c 90)%bool then (c + 32)%N else c.

Definition toLower (s : jsstring) : jsstring := map lower s.

(** A stand-in for bcrypt that keeps the password readable. *)
Definition hash (password : jsstring) (rounds : Z) : jsstring :=
  js "$2b$" ++ password.

Definition compare (password hashed : jsstring) : bool :=
  Js.eqb hashed (hash password 12).

Definition runtime (clock : nat -> Date)
           (service : FetchRequest -> FetchOutcome) : Env :=
  mkEnv Config.defaults toLower hash compare clock service.

(** A clock that starts at [t0] and advances by [step] per reading. *)
Definition ticking (t0 step : Z) (n : nat) : Date := t0 + step * Z.of_nat n.

Definition unreachable (_ : FetchRequest) : FetchOutcome := Rejects false.

Definition replies (v : JsValue) (_ : FetchRequest) : FetchOutcome :=
  Responds (mkHttpResponse 200 (js "OK")
              (Json (mkLLMResponse v (Some 0) (Some 1)))).

Definition empty (e : Env) : World :=
  mkWorld e [] [] [] [] 0%nat 0%nat [].

(** 5 November 2026, 12:00:00 UTC. *)
Definition noon : Date := 1794052800000.

Definition hello : SendMessageData :=
  mkSendMessageData 7%nat (js "Hello!") None.



(** The LLM service is down. *)
Definition offline : World := empty (runtime (ticking noon 3) unreachable).

(** The LLM service answers 200 with [{"response": 42, ...}]. *)
Definition answering42 : World :=
  empty (runtime (ticking noon 3) (replies (JNum 42))).

(** The seeded demo account, with a given lockout state. *)
Definition demoPassword : jsstring := js "Password123!".

Definition demo (attempts : Z) (lock : option Date) : User.t :=
  User.mk 1%nat (js "demo@example.com") (hash demoPassword 12) (js "Demo")
          (js "user") true attempts lock (noon - 86400000) None
          (noon - 86400000).

Definition withDemo (attempts : Z) (lock : option Date)
           (clock : nat -> Date) : World :=
  mkWorld (runtime clock unreachable) [demo attempts lock] [] [] []
          2%nat 0%nat [].

Definition wrongPasswords : list jsstring :=
  [js "password"; js "Password"; js "Password1"; js "Password12";
   js "Password123"].

Definition demoLogin (password : jsstring) : LoginData :=
  mkLoginData (js "demo@example.com") password.

(** The demo account, locked for another 15 minutes; the clock stands
    at noon. *)
Definition lockedDemo : World :=
  withDemo 5 (Some (noon + 900000)) (ticking noon 0).

(** The demo account with a lock that ran out an hour ago. *)
Definition staleLockDemo : World :=
  withDemo 5 (Some (noon - 3600000)) (ticking noon 40).

(** A store with one credential revoked a minute ago that expires in a
    week, and one never revoked that expired a minute ago. *)
Definition revokedEarly : RefreshToken.t :=
  RefreshToken.mk 10%nat (Unsigned (js "revoked-early")) 1%nat
                  (noon + 604800000) (noon - 120000) (Some (noon - 60000)).

Definition expiredUnrevoked : RefreshToken.t :=
  RefreshToken.mk 11%nat (Unsigned (js "expired-unrevoked")) 1%nat
                  (noon - 60000) (noon - 604860000) None.

Definition twoCredentials : World :=
  mkWorld (runtime (ticking noon 1) unreachable) [demo 0 None]
          [revokedEarly; expiredUnrevoked] [] [] 12%nat 0%nat [].

Definition newcomer : RegisterData :=
  mkRegisterData (js "Ada@Example.com") (js "Password123!") (js "Ada").

(** A refresh token of the demo account issued almost seven days ago:
    its signature runs out 10 seconds after noon. The clock advances by
    two seconds per reading. *)
Definition agingToken : Token :=
  Signed (js "default-refresh-secret-change-me")
         (mkPayload 1%nat (js "demo@example.com") (js "user"))
         (noon / 1000 - 604790) (noon / 1000 + 10).

Definition agingRow : RefreshToken.t :=
  RefreshToken.mk 20%nat agingToken 1%nat (noon + 10000)
                  (noon - 604790000) None.

Definition aging : World :=
  mkWorld (runtime (ticking noon 2000) unreachable) [demo 0 None]
          [agingRow] [] [] 21%nat 0%nat [].

End Sample.

(* ================================================================== *)
(** ** services/authService: the profile *)




(* ================================================================== *)
(** ** The Prisma client: what the other chat operations call *)

Module PrismaChat.

Module conversation.

(** [findUnique({ where: { id } })] *)
Definition findUnique (i : Id) : M (option Conversation.t) :=
  gets (fun w => find (Prisma.conversation.byId i) (conversations w)).

Definition ownedBy (uid : Id) (c : Conversation.t) : bool :=
  Nat.eqb (Conversation.userId c) uid.

(** [orderBy: { updatedAt: 'desc' }]. The database leaves the order of
    rows of equal [updatedAt] open; here they keep the order of
    insertion. *)
Fixpoint insert (c : Conversation.t) (l : list Conversation.t)
  : list Conversation.t :=
  match l with
  | [] => [c]
  | x :: l' =>
      if Conversation.updatedAt x <? Conversation.updatedAt c
      then c :: l
      else x :: insert c l'
  end.

Definition orderByUpdatedAtDesc (l : list Conversation.t)
  : list Conversation.t :=
  fold_left (fun acc c => insert c acc) l [].

(** [findMany({ where: { userId }, orderBy: { updatedAt: 'desc' },
                skip, take })] *)
Definition findMany (uid : Id) (skip take : nat) : M (list Conversation.t) :=
  gets (fun w =>
          firstn take
            (skipn skip
               (orderByUpdatedAtDesc (filter (ownedBy uid) (conversations w))))).

(** [count({ where: { userId } })] *)
Definition count (uid : Id) : M nat :=
  gets (fun w => List.length (filter (ownedBy uid) (conversations w))).


Definition retitle (i : Id) (title : jsstring) (t : Date)
           (c : Conversation.t) : Conversation.t :=
  if Prisma.conversation.byId i c
  then Conversation.mk (Conversation.id c) (Conversation.userId c) title
                       (Conversation.createdAt c) t
  else c.

(** [update({ where: { id }, data: { title } })]; [updatedAt] is stamped
    by the client. *)
Definition updateTitle (i : Id) (title : jsstring) : M Conversation.t :=
  found <- findUnique i ;;
  match found with
  | None => throw (PrismaErr RecordNotFound)
  | Some c =>
      t <- now ;;
      modify (fun w =>
                set_conversations (map (retitle i title t) (conversations w))
                                  w) ;;
      emit (EvUpdate Conversations i) ;;
      ret (retitle i title t c)
  end.

(** [delete({ where: { id } })]; the foreign key of [messages] is declared
    [ON DELETE CASCADE], so the turns of the conversation go with it. The
    trace records the rows removed from each of the two tables. *)
Definition delete (i : Id) : M unit :=
  found <- findUnique i ;;
  match found with
  | None => throw (PrismaErr RecordNotFound)
  | Some _ =>
      gone <- gets (fun w =>
                      List.length
                        (filter (Prisma.message.ofConversation i)
                                (messages w))) ;;
      modify (fun w =>
                set_conversations
                  (filter (fun c => negb (Prisma.conversation.byId i c))
                          (conversations w)) w) ;;
      modify (fun w =>
                set_messages
                  (filter (fun m => negb (Prisma.message.ofConversation i m))
                          (messages w)) w) ;;
      emit (EvDeleteMany Conversations 1) ;;
      emit (EvDeleteMany Messages gone)
  end.

End conversation.

Module message.

Definition byId (i : Id) (m : Message.t) : bool := Nat.eqb (Message.id m) i.

(** [findUnique({ where: { id }, include: { conversation: true } })]; the
    foreign key makes the conversation present in every reachable store. *)
Definition findUniqueWithConversation (i : Id)
  : M (option (Message.t * option Conversation.t)) :=
  gets (fun w =>
          match find (byId i) (messages w) with
          | None => None
          | Some m =>
              Some (m, find (Prisma.conversation.byId
                               (Message.conversationId m))
                            (conversations w))
          end).

(** [delete({ where: { id } })] *)
Definition delete (i : Id) : M unit :=
  found <- gets (fun w => find (byId i) (messages w)) ;;
  match found with
  | None => throw (PrismaErr RecordNotFound)
  | Some _ =>
      modify (fun w =>
                set_messages (filter (fun m => negb (byId i m)) (messages w))
                             w) ;;
      emit (EvDeleteMany Messages 1)
  end.

End message.

End PrismaChat.

(* ================================================================== *)
(** ** services/chatService: the other operations *)

Definition conversationNotFound : Exn :=
  AppErr (NotFoundError (js "Conversation not found") CONVERSATION_NOT_FOUND).

Definition conversationForbidden : Exn :=
  AppErr (ForbiddenError (js "You do not have access to this conversation")
                         FORBIDDEN).



Module Chat.

(** [getConversationHistory(userId, page, limit)]. Pages are numbered from
    1 and [limit] is at least 1, which is what [getHistorySchema] lets
    through to the service. *)
Definition getConversationHistory (uid : Id) (page limit : positive)
  : M (list Conversation.t * nat) :=
  logged (js "Failed to get conversation history") (
    let skip := ((Pos.to_nat page - 1) * Pos.to_nat limit)%nat in
    conversations <- PrismaChat.conversation.findMany uid skip
                       (Pos.to_nat limit) ;;
    total <- PrismaChat.conversation.count uid ;;
    logger Info (js "Conversation history retrieved") ;;
    ret (conversations, total)).

(** [getConversation(userId, conversationId)] *)
Definition getConversation (uid cid : Id)
  : M (Conversation.t * list Message.t) :=
  logged (js "Failed to get conversation") (
    conversation <- Prisma.conversation.findUniqueWithMessages cid ;;
    match conversation with
    | None => throw conversationNotFound
    | Some (c, turns) =>
        if negb (Nat.eqb (Conversation.userId c) uid) then
          throw conversationForbidden
        else
          logger Info (js "Conversation retrieved") ;;
          ret (c, turns)
    end).


(** [deleteConversation(userId, conversationId)] *)
Definition deleteConversation (uid cid : Id) : M unit :=
  logged (js "Failed to delete conversation") (
    conversation <- PrismaChat.conversation.findUnique cid ;;
    match conversation with
    | None => throw conversationNotFound
    | Some c =>
        if negb (Nat.eqb (Conversation.userId c) uid) then
          throw conversationForbidden
        else
          PrismaChat.conversation.delete cid ;;
          logger Info (js "Conversation deleted")
    end).

(** [deleteMessage(userId, messageId)] *)
Definition deleteMessage (uid mid : Id) : M unit :=
  logged (js "Failed to delete message") (
    found <- PrismaChat.message.findUniqueWithConversation mid ;;
    match found with
    | None =>
        throw (AppErr (NotFoundError (js "Message not found")
                                     MESSAGE_NOT_FOUND))
    | Some (_, None) => throw TypeErr
    | Some (_, Some c) =>
        if negb (Nat.eqb (Conversation.userId c) uid) then
          throw (AppErr (ForbiddenError
                           (js "You do not have access to this message")
                           FORBIDDEN))
        else
          PrismaChat.message.delete mid ;;
          logger Info (js "Message deleted")
    end).

(** [updateConversationTitle(userId, conversationId, title)] *)
Definition updateConversationTitle (uid cid : Id) (title : jsstring)
  : M Conversation.t :=
  logged (js "Failed to update conversation title") (
    conversation <- PrismaChat.conversation.findUnique cid ;;
    match conversation with
    | None => throw conversationNotFound
    | Some c =>
        if negb (Nat.eqb (Conversation.userId c) uid) then
          throw conversationForbidden
        else
          updated <- PrismaChat.conversation.updateTitle cid title ;;
          logger Info (js "Conversation title updated") ;;
          ret updated
    end).

End Chat.

(* ================================================================== *)
(** ** utils/response: pagination *)

Record Pagination : Type := mkPagination {
  pageNumber : positive;
  pageLimit : positive;
  pageTotal : nat;
  totalPages : Z
}.

(** The [pagination] block [sendPaginated] builds:
    [totalPages = Math.ceil(total / limit)]. *)
Definition pagination (page limit : positive) (total : nat) : Pagination :=
  mkPagination page limit total (ceilDiv (Z.of_nat total) (Z.pos limit)).

(* ================================================================== *)
(** ** middleware/errorHandler *)




(* ================================================================== *)
(** ** utils/validation *)

(** [/^r$/.test(s)] for a pattern without the [m] flag: the whole of [s]
    is to match [r]. *)
Fixpoint testWhole (r : regex) (s : jsstring) : bool :=
  match s with
  | [] => nullable r
  | c :: s' => testWhole (deriv c r) s'
  end.

(** [r{n}] *)
Fixpoint times (n : nat) (r : regex) : regex :=
  match n with
  | O => Eps
  | S k => Seq r (times k r)
  end.

(** [[0-9a-f]] and [[89ab]] under the [i] flag. *)
Definition hexDigits : jsstring := js "0123456789abcdefABCDEF".
Definition variantDigits : jsstring := js "89abAB".

Definition hex : regex := Cls (COneOf hexDigits).

(** [/^[0-9a-f]{8}-[0-9a-f]{4}-4[0-9a-f]{3}-[89ab][0-9a-f]{3}-[0-9a-f]{12}$/i] *)
Definition uuidRegex : regex :=
  Seq (times 8 hex)
    (Seq (lit "-")
       (Seq (times 4 hex)
          (Seq (lit "-")
             (Seq (lit "4")
                (Seq (times 3 hex)
                   (Seq (lit "-")
                      (Seq (Cls (COneOf variantDigits))
                         (Seq (times 3 hex)
                            (Seq (lit "-") (times 12 hex)))))))))).

(** [isValidUUID(uuid)] *)
Definition isValidUUID (uuid : jsstring) : bool := testWhole uuidRegex uuid.

(** [s.trim()]: white space and line terminators are taken off both
    ends; they are the code units of [\s]. *)
Fixpoint trimStart (s : jsstring) : jsstring :=
  match s with
  | [] => []
  | c :: s' => if is_space c then trimStart s' else s
  end.

Definition trimEnd (s : jsstring) : jsstring := rev (trimStart (rev s)).

Definition trim (s : jsstring) : jsstring := trimEnd (trimStart s).

Definition angleBracket (c : N) : bool := mem c (js "<>").

(** [sanitizeString(input)]: [input.replace(/[<>]/g, '').trim()] *)
Definition sanitizeString (input : jsstring) : jsstring :=
  trim (filter (fun c => negb (angleBracket c)) input).

(** The code units of [\s], listed. *)
Definition whiteSpace : list N :=
  [9; 10; 11; 12; 13; 32; 160; 5760; 8192; 8193; 8194; 8195; 8196; 8197;
   8198; 8199; 8200; 8201; 8202; 8232; 8233; 8239; 8287; 12288; 65279]%N.

(** [[^\s@]] *)
Definition addressUnit : regex := Cls (CNoneOf (whiteSpace ++ js "@")).

(** [/^[^\s@]+@[^\s@]+\.[^\s@]+$/] *)
Definition emailRegex : regex :=
  Seq (Plus addressUnit)
    (Seq (lit "@")
       (Seq (Plus addressUnit) (Seq (lit ".") (Plus addressUnit)))).

(** [isValidEmail(email)] *)
Definition isValidEmail (email : jsstring) : bool :=
  testWhole emailRegex email.

(* ================================================================== *)
(** ** Names and readings for the properties of these operations *)

Definition emailAlreadyRegistered : Exn :=
  AppErr (ConflictError (js "Email already registered") EMAIL_ALREADY_EXISTS).

Definition messageNotFound : Exn :=
  AppErr (NotFoundError (js "Message not found") MESSAGE_NOT_FOUND).

Definition messageForbidden : Exn :=
  AppErr (ForbiddenError (js "You do not have access to this message")
                         FORBIDDEN).

(** A call is refused with [e]: it throws [e], the two chat tables are as
    they were, and the only effect is one error log. *)
Definition refusedWith {A : Type} (e : Exn) (m : M A) (w : World) : Prop :=
  fst (m w) = Throw e /\
  conversations (snd (m w)) = conversations w /\
  messages (snd (m w)) = messages w /\
  exists msg, trace (snd (m w)) = trace w ++ [EvLog Error msg].

(** The turns of a conversation as the store has them, oldest first. *)
Definition turnsOf (w : World) (cid : Id) : list Message.t :=
  Prisma.message.orderByTimestamp
    (filter (Prisma.message.ofConversation cid) (messages w)).





(** A list of conversations in the order [updatedAt: 'desc']. *)
Fixpoint newestFirst (l : list Conversation.t) : Prop :=
  match l with
  | [] => True
  | c :: rest =>
      (forall x, In x rest ->
                 Conversation.updatedAt x <= Conversation.updatedAt c) /\
      newestFirst rest
  end.

(** What the agent client sends for a message with the given history. *)
Definition llmTurn (m : Message.t) : LLMMessage :=
  mkLLMMessage (Message.role m) (Message.content m).

(** The outbound calls among the effects of a run. *)
Definition fetchesOf (added : list Event) : list Event :=
  filter isFetch added.

(** The events a run has added to the trace of the world it started
    from. *)
Definition addedBy {A : Type} (m : M A) (w : World) : list Event :=
  skipn (List.length (trace w)) (trace (snd (m w))).

(** Every conversation was last written before the clock reads now. *)
Definition conversationsInPast (w : World) : Prop :=
  forall c, In c (conversations w) ->
            Conversation.updatedAt c < time (env w) (clockReads w).

(** A list of turns in the order [timestamp: 'asc']. *)
Fixpoint oldestFirst (l : list Message.t) : Prop :=
  match l with
  | [] => True
  | m :: rest =>
      (forall x, In x rest -> Message.timestamp m <= Message.timestamp x) /\
      oldestFirst rest
  end.

(** Neither white space nor [@]. *)
Definition plainUnit (c : N) : bool := negb (is_space c) && negb (N.eqb c 64).

(** The UUID of the unit test of [isValidUUID], and one of version 4. *)
Definition testUuid : jsstring := js "123e4567-e89b-12d3-a456-426614174000".

(* ================================================================== *)
(** ** A store with two users' conversations, for the examples *)

Module Scenario.

(** User 7 owns conversation 20 with two turns, user 8 owns conversation
    21 with one turn. *)
Definition mine : Conversation.t :=
  Conversation.mk 20%nat 7%nat (js "Past tenses")
                  (Sample.noon - 7200000) (Sample.noon - 7000000).

Definition theirs : Conversation.t :=
  Conversation.mk 21%nat 8%nat (js "Articles")
                  (Sample.noon - 3600000) (Sample.noon - 3500000).

Definition question : Message.t :=
  Message.mk 30%nat 20%nat user (js "When do I use the past perfect?")
             FText sent (Sample.noon - 7200000) None.

Definition answer : Message.t :=
  Message.mk 31%nat 20%nat assistant (js "Use it for the **earlier** of two past events.")
             FMarkdown sent (Sample.noon - 7000000)
             (Some (mkMetadata (js "llm-backend-v1") (Num 11) (Some (Num 100)))).

Definition other : Message.t :=
  Message.mk 32%nat 21%nat user (js "a or an?") FText sent
             (Sample.noon - 3600000) None.

(** The LLM service answers every request with the same markdown text. *)
Definition reply : jsstring := js "Here is a list:
- one
- two".

Definition store (service : FetchRequest -> FetchOutcome) : World :=
  mkWorld (Sample.runtime (Sample.ticking Sample.noon 5) service)
          [] [] [mine; theirs] [question; answer; other] 40%nat 0%nat [].

Definition answering : World := store (Sample.replies (JStr reply)).

Definition followUp : SendMessageData :=
  mkSendMessageData 7%nat (js "And the past perfect continuous?") (Some 20%nat).

End Scenario.

(* ================================================================== *)
(** * Properties *)

Unset Implicit Arguments.

(** ** Regular expressions: the matcher against the language *)

Module RegexFacts.

Lemma nullable_matches r : nullable r = true <-> matches r [].
Proof.
  induction r; simpl; split; intro H.
  - discriminate.
  - inversion H.
  - constructor.
  - reflexivity.
  - discriminate.
  - inversion H.
  - apply andb_true_iff in H. destruct H as [H1 H2].
    change (@nil N) with (@nil N ++ []). constructor.
    + now apply IHr1.
    + now apply IHr2.
  - inversion H; subst.
    destruct s1; [| discriminate]. destruct s2; [| discriminate].
    apply andb_true_iff. split; [now apply IHr1 | now apply IHr2].
  - apply orb_true_iff in H. destruct H as [H | H].
    + apply MAltL. now apply IHr1.
    + apply MAltR. now apply IHr2.
  - apply orb_true_iff. inversion H; subst.
    + left. now apply IHr1.
    + right. now apply IHr2.
  - constructor.
  - reflexivity.
Qed.

(** A non-empty word of [Star r] starts with a non-empty word of [r]. *)
Lemma star_cons r c s :
  matches (Star r) (c :: s) ->
  exists s1 s2, s = s1 ++ s2 /\ matches r (c :: s1) /\ matches (Star r) s2.
Proof.
  intro H. remember (Star r) as r' eqn:Er. remember (c :: s) as w eqn:Ew.
  revert c s Ew.
  induction H; intros c0 s0 Ew; try discriminate.
  injection Er as ->.
  destruct s1 as [| x s1].
  - simpl in Ew. now apply IHmatches2.
  - simpl in Ew. injection Ew as -> <-.
    exists s1, s2. auto.
Qed.

Ltac inv H := inversion H; subst; clear H.

Lemma seq_cons r1 r2 c s :
  matches (Seq r1 r2) (c :: s) ->
  (exists s1 s2, s = s1 ++ s2 /\ matches r1 (c :: s1) /\ matches r2 s2) \/
  (matches r1 [] /\ matches r2 (c :: s)).
Proof.
  intro H. inversion H as [| | ? ? s1 s2 H1 H2 Er Es | | | |]; subst.
  destruct s1 as [| x s1]; simpl in Es.
  - subst s2. now right.
  - injection Es as -> <-. left. exists s1, s2. auto.
Qed.

Lemma matches_seq_cons r1 r2 c s1 s2 :
  matches r1 (c :: s1) -> matches r2 s2 ->
  matches (Seq r1 r2) (c :: s1 ++ s2).
Proof.
  intros H1 H2. change (c :: s1 ++ s2) with ((c :: s1) ++ s2).
  now constructor.
Qed.

Lemma deriv_matches r : forall c s,
  matches (deriv c r) s <-> matches r (c :: s).
Proof.
  induction r; intros c s; simpl.
  - split; intro H; inv H.
  - split; intro H; inv H.
  - destruct (in_cls k c) eqn:E; split; intro H; inv H.
    + now constructor.
    + constructor.
    + congruence.
  - destruct (nullable r1) eqn:En; split; intro H.
    + inv H.
      * match goal with H : matches (Seq _ _) _ |- _ => inv H end.
        apply matches_seq_cons; [now apply IHr1 | assumption].
      * change (c :: s) with ([] ++ c :: s).
        constructor; [now apply nullable_matches | now apply IHr2].
    + apply seq_cons in H.
      destruct H as [(s1 & s2 & -> & H1 & H2) | [H1 H2]].
      * apply MAltL. constructor; [now apply IHr1 | assumption].
      * apply MAltR. now apply IHr2.
    + inv H. apply matches_seq_cons; [now apply IHr1 | assumption].
    + apply seq_cons in H.
      destruct H as [(s1 & s2 & -> & H1 & H2) | [H1 H2]].
      * constructor; [now apply IHr1 | assumption].
      * apply nullable_matches in H1. congruence.
  - split; intro H; inv H.
    + apply MAltL. now apply IHr1.
    + apply MAltR. now apply IHr2.
    + apply MAltL. now apply IHr1.
    + apply MAltR. now apply IHr2.
  - split; intro H.
    + inv H. change (c :: s1 ++ s2) with ((c :: s1) ++ s2).
      constructor; [now apply IHr | assumption].
    + apply star_cons in H. destruct H as (s1 & s2 & -> & H1 & H2).
      constructor; [now apply IHr | assumption].
Qed.

Lemma accepts_prefix_spec e : forall s r,
  accepts_prefix e r s = true <->
  exists mid after,
    s = mid ++ after /\ matches r mid /\
    (e = true -> at_line_end after = true).
Proof.
  induction s as [| c s IH]; intro r; simpl.
  - rewrite orb_false_r, andb_true_iff, orb_true_iff, negb_true_iff.
    split.
    + intros [Hn He]. exists [], []. repeat split.
      * now apply nullable_matches.
    + intros (mid & after & E & Hm & He).
      symmetry in E. apply app_eq_nil in E. destruct E as [-> ->].
      split; [now apply nullable_matches |].
      destruct e; [right; reflexivity | now left].
  - rewrite orb_true_iff, andb_true_iff, orb_true_iff, negb_true_iff, IH.
    split.
    + intros [[Hn He] | (mid & after & -> & Hm & He)].
      * exists [], (c :: s). repeat split.
        -- now apply nullable_matches.
        -- intros ->. destruct He as [He | He]; [discriminate | exact He].
      * exists (c :: mid), after. repeat split; auto.
        now apply deriv_matches.
    + intros (mid & after & E & Hm & He).
      destruct mid as [| x mid].
      * left. simpl in E. subst after.
        split; [now apply nullable_matches |].
        destruct e; [right; now apply He | now left].
      * right. simpl in E. injection E as <- ->.
        exists mid, after. repeat split; auto.
        now apply deriv_matches.
Qed.

Lemma test_from_spec p : forall s ls,
  test_from p ls s = true <->
  exists before mid after,
    s = before ++ mid ++ after /\ matches (body p) mid /\
    (bol p = true -> starts_line ls before) /\
    (eol p = true -> at_line_end after = true).
Proof.
  induction s as [| c s IH]; intro ls; cbn [test_from].
  - rewrite orb_false_r, andb_true_iff, orb_true_iff, negb_true_iff,
      accepts_prefix_spec.
    split.
    + intros [Hb (mid & after & E & Hm & He)].
      exists [], mid, after. repeat split; auto.
      intros Hbol. left. split; [reflexivity |].
      destruct Hb as [Hb | Hb]; congruence.
    + intros (before & mid & after & E & Hm & Hb & He).
      symmetry in E. apply app_eq_nil in E. destruct E as [-> E].
      split.
      * destruct (bol p); [right | now left].
        destruct (Hb eq_refl) as [[_ H] | (b & x & H & _)]; [exact H |].
        destruct b; discriminate.
      * exists mid, after. auto.
  - rewrite orb_true_iff, andb_true_iff, orb_true_iff, negb_true_iff,
      accepts_prefix_spec, IH.
    split.
    + intros [[Hb (mid & after & E & Hm & He)]
             | (before & mid & after & -> & Hm & Hb & He)].
      * exists [], mid, after. repeat split; auto.
        intros Hbol. left. split; [reflexivity |].
        destruct Hb as [Hb | Hb]; congruence.
      * exists (c :: before), mid, after. repeat split; auto.
        intros Hbol. right.
        destruct (Hb Hbol) as [[-> H] | (b & x & -> & H)].
        -- exists [], c. auto.
        -- exists (c :: b), x. auto.
    + intros (before & mid & after & E & Hm & Hb & He).
      destruct before as [| x before].
      * left. split.
        -- destruct (bol p); [right | now left].
           destruct (Hb eq_refl) as [[_ H] | (b & y & H & _)]; [exact H |].
           destruct b; discriminate.
        -- exists mid, after. auto.
      * right. simpl in E. injection E as <- ->.
        exists before, mid, after. repeat split; auto.
        intros Hbol.
        destruct (Hb Hbol) as [[H _] | (b & y & H & Hy)]; [discriminate |].
        destruct b as [| z b].
        -- simpl in H. injection H as -> ->. left. auto.
        -- simpl in H. injection H as -> ->. right. exists b, y. auto.
Qed.

(** [test] decides the occurrence of the pattern. *)
Lemma test_occurs p s : test p s = true <-> occurs p s.
Proof.
  unfold test, occurs. rewrite test_from_spec.
  split; intros (before & mid & after & E & Hm & Hb & He);
    exists before, mid, after; repeat split; auto; intros Hbol.
  - destruct (Hb Hbol) as [[H _] | H]; [now left | now right].
  - destruct (Hb Hbol) as [H | H]; [left; auto | now right].
Qed.

Lemma test_not_occurs p s : test p s = false <-> ~ occurs p s.
Proof.
  rewrite <- test_occurs. destruct (test p s); split; congruence.
Qed.

End RegexFacts.

(* ================================================================== *)
(** ** Format detection *)

Lemma detect_markdown_iff s :
  detectMessageFormat s = FMarkdown <->
  exists p, In p markdownPatterns /\ occurs p s.
Proof.
  unfold detectMessageFormat.
  destruct (existsb (fun p => test p s) markdownPatterns) eqn:E.
  - split; [intros _ | reflexivity].
    apply existsb_exists in E. destruct E as (p & Hin & Ht).
    exists p. split; [exact Hin | now apply RegexFacts.test_occurs].
  - split; [discriminate |].
    intros (p & Hin & Ho). apply RegexFacts.test_occurs in Ho.
    assert (existsb (fun p => test p s) markdownPatterns = true) as E'
      by (apply existsb_exists; eauto).
    congruence.
Qed.

Lemma detect_text_or_markdown s :
  detectMessageFormat s = FText \/ detectMessageFormat s = FMarkdown.
Proof.
  unfold detectMessageFormat.
  destruct (existsb _ _); [now right | now left].
Qed.


(** What five of the patterns ask of a text, spelled out: an opening
    delimiter, anything at all, and the same delimiter again. *)
Lemma matches_word (d s : jsstring) : matches (word d) s <-> s = d.
Proof.
  revert s. induction d as [| c d IH]; intro s; simpl.
  - split; intro H; [now inversion H | subst; constructor].
  - split; intro H.
    + inversion H as [| | ? ? s1 s2 H1 H2 | | | |]; subst.
      inversion H1; subst.
      match goal with
      | E : in_cls (CChar _) _ = true |- _ =>
          cbn in E; apply N.eqb_eq in E; subst
      end.
      apply IH in H2. now subst.
    + subst. change (c :: d) with ([c] ++ d).
      constructor; [constructor; cbn; apply N.eqb_refl | now apply IH].
Qed.

Lemma matches_star_any (s : jsstring) : matches (Star (Cls CAny)) s.
Proof.
  induction s as [| c s IH]; [constructor |].
  change (c :: s) with ([c] ++ s).
  constructor; [now constructor | exact IH].
Qed.

Lemma occurs_delimited (d s : jsstring) :
  occurs (Patterns.plain (Seq (word d) (Seq (Star Patterns.anyc) (word d)))) s
  <-> exists a b c, s = a ++ d ++ b ++ d ++ c.
Proof.
  unfold occurs, Patterns.plain, Patterns.anyc. cbn [bol body eol]. split.
  - intros (before & mid & after & -> & Hm & _ & _).
    inversion Hm as [| | ? ? s1 s2 H1 H2 | | | |]; subst.
    inversion H2 as [| | ? ? s3 s4 H3 H4 | | | |]; subst.
    apply matches_word in H1, H4. subst.
    exists before, s3, after. now rewrite <- !app_assoc.
  - intros (a & b & c & ->).
    exists a, (d ++ b ++ d), c. rewrite <- !app_assoc.
    split; [reflexivity |]. split; [| split; discriminate].
    constructor; [now apply matches_word |].
    constructor; [apply matches_star_any | now apply matches_word].
Qed.

Lemma fencedCode_delimited s :
  Markup.fencedCode s <-> exists a b c, s = a ++ js "```" ++ b ++ js "```" ++ c.
Proof. apply occurs_delimited. Qed.

Lemma strikethrough_delimited s :
  Markup.strikethrough s <-> exists a b c, s = a ++ js "~~" ++ b ++ js "~~" ++ c.
Proof. apply occurs_delimited. Qed.

Lemma emphasis_delimited s :
  Markup.emphasis s <->
  (exists a b c, s = a ++ js "**" ++ b ++ js "**" ++ c) \/
  (exists a b c, s = a ++ js "*" ++ b ++ js "*" ++ c) \/
  (exists a b c, s = a ++ js "_" ++ b ++ js "_" ++ c).
Proof.
  unfold Markup.emphasis.
  rewrite <- (occurs_delimited (js "**")), <- (occurs_delimited (js "*")),
    <- (occurs_delimited (js "_")).
  reflexivity.
Qed.



(* ================================================================== *)
(** ** Conversation title *)


Lemma prefixb_firstn (n : nat) : forall s : jsstring,
  prefixb (firstn n s) s = true.
Proof.
  induction n as [| n IH]; intros [| c s]; simpl; auto.
  now rewrite N.eqb_refl, IH.
Qed.



(* ================================================================== *)
(** ** Running computations *)

Lemma bind_ok {A B : Type} {m : M A} (k : A -> M B) {w a w'} :
  m w = (Ok a, w') -> bind m k w = k a w'.
Proof. intro H. unfold bind. now rewrite H. Qed.

Lemma bind_throw {A B : Type} {m : M A} (k : A -> M B) {w e w'} :
  m w = (Throw e, w') -> bind m k w = (Throw e, w').
Proof. intro H. unfold bind. now rewrite H. Qed.

Ltac unfold_monad :=
  unfold logged, try_catch, bind, logger, emit, modify, gets, ret, throw,
    now, freshId in *.

Ltac unfold_world :=
  unfold set_users, set_refreshTokens, set_conversations, set_messages,
    set_nextId, set_clockReads, set_trace in *.

(** Two worlds are equal when their eight components are. *)
Lemma world_eq (w1 w2 : World) :
  env w1 = env w2 -> users w1 = users w2 ->
  refreshTokens w1 = refreshTokens w2 ->
  conversations w1 = conversations w2 -> messages w1 = messages w2 ->
  nextId w1 = nextId w2 -> clockReads w1 = clockReads w2 ->
  trace w1 = trace w2 ->
  w1 = w2.
Proof.
  destruct w1, w2. cbn. intros. subst. reflexivity.
Qed.

(** The world after a computation, up to the bookkeeping of appends. *)
Ltac same_world :=
  apply world_eq; cbn; repeat rewrite <- app_assoc; reflexivity.

(* ================================================================== *)
(** ** The agent client never throws *)



(* ================================================================== *)
(** ** The message pipeline *)

Lemma message_create_run cid r text f md w :
  Prisma.message.create cid r (JStr text) f sent md w =
  (Ok (newMessage w cid r text f md),
   set_trace (trace w ++ [EvCreate Messages (nextId w)])
     (set_messages (messages w ++ [newMessage w cid r text f md])
        (set_clockReads (S (clockReads w)) (set_nextId (S (nextId w)) w)))).
Proof. reflexivity. Qed.


Lemma find_app_last {A : Type} (f : A -> bool) (l : list A) x :
  f x = true -> exists y, find f (l ++ [x]) = Some y.
Proof.
  intro H. induction l as [| z l IH]; simpl.
  - rewrite H. eauto.
  - destruct (f z); eauto.
Qed.

(** What [resolve] leaves behind when it returns: the message table is
    untouched, the conversation is in the table, and no outbound call was
    made. *)
Lemma resolve_run data w :
  resolves data w ->
  exists c h w1 before,
    chatService.resolve data w = (Ok (c, h), w1) /\
    env w1 = env w /\
    messages w1 = messages w /\
    trace w1 = trace w ++ before /\
    forallb (fun ev => negb (isFetch ev)) before = true /\
    (exists c', find (Prisma.conversation.byId (Conversation.id c))
                     (conversations w1) = Some c').
Proof.
  unfold resolves, chatService.resolve.
  destruct (conversationRef data) as [cid |].
  - intros (c & Hc & Hown).
    unfold Prisma.conversation.findUniqueWithMessages. unfold_monad. cbn.
    rewrite Hc. cbn. rewrite Hown, Nat.eqb_refl. cbn.
    do 3 eexists. exists []. repeat split.
    + now rewrite app_nil_r.
    + pose proof (find_some _ _ Hc) as [_ Hid].
      unfold Prisma.conversation.byId in Hid. apply Nat.eqb_eq in Hid.
      rewrite Hid. eauto.
  - intros _. unfold Prisma.conversation.create. unfold_monad. cbn.
    do 4 eexists. repeat split.
    + unfold_world. cbn. rewrite <- app_assoc. reflexivity.
    + reflexivity.
    + apply find_app_last. unfold Prisma.conversation.byId. cbn.
      apply Nat.eqb_refl.
Qed.







Example agentClient_number_passes_through :
  fst (agentClient.sendMessage 7%nat (js "Hello!") [] Sample.answering42)
  = Ok (mkAgentResponse (JNum 42) FText
          (Some (mkMetadata (js "llm-backend-v1") NaN (Some (Num 100))))) /\
  fst (chatService.sendMessage Sample.hello Sample.answering42)
  = Throw (PrismaErr ValidationFailure).
Proof. split; vm_compute; reflexivity. Qed.

(* ================================================================== *)
(** ** The title of a conversation created by [sendMessage] *)


Lemma resolve_new_run data w :
  conversationRef data = None ->
  let c := Conversation.mk (nextId w) (senderId data)
             (generateConversationTitle (messageText data))
             (time (env w) (clockReads w)) (time (env w) (clockReads w)) in
  chatService.resolve data w =
  (Ok (c, []),
   set_trace (trace w ++ [EvCreate Conversations (nextId w);
                          EvLog Info (js "New conversation created")])
     (set_conversations (conversations w ++ [c])
        (set_clockReads (S (clockReads w)) (set_nextId (S (nextId w)) w)))).
Proof.
  intro Hnew. unfold chatService.resolve. rewrite Hnew.
  unfold Prisma.conversation.create. unfold_monad. cbn.
  f_equal. same_world.
Qed.





(* ================================================================== *)
(** ** Lookups after an update *)

Lemma find_map_same {A : Type} (p : A -> bool) (g : A -> A) (l : list A) :
  (forall x, p (g x) = p x) ->
  find p (map g l) = option_map g (find p l).
Proof.
  intro H. induction l as [| x l IH]; simpl; [reflexivity |].
  rewrite H. destruct (p x); [reflexivity | exact IH].
Qed.

Lemma find_byId_of_member (p : User.t -> bool) (l : list User.t) u :
  find p l = Some u ->
  exists u', find (Prisma.user.byId (User.id u)) l = Some u'.
Proof.
  intro H. apply find_some in H. destruct H as [Hin _].
  destruct (find (Prisma.user.byId (User.id u)) l) as [u' |] eqn:E; eauto.
  exfalso. apply (find_none _ _ E) in Hin.
  unfold Prisma.user.byId in Hin. now rewrite Nat.eqb_refl in Hin.
Qed.

Lemma byEmail_apply e i f t u :
  (forall x, User.email (f x) = User.email x) ->
  Prisma.user.byEmail e (Prisma.user.apply i f t u) = Prisma.user.byEmail e u.
Proof.
  intro Hf. unfold Prisma.user.apply, Prisma.user.byEmail.
  destruct (Prisma.user.byId i u); [| reflexivity].
  cbn. now rewrite Hf.
Qed.

(** [update] on the row a lookup by address returned. *)
Lemma user_update_run w e u f :
  account w e = Some u ->
  (forall x, User.email (f x) = User.email x) ->
  exists row w',
    Prisma.user.update (User.id u) f w = (Ok row, w') /\
    w' = set_trace (trace w ++ [EvUpdate Users (User.id u)])
           (set_users
              (map (Prisma.user.apply (User.id u) f
                      (time (env w) (clockReads w))) (users w))
              (set_clockReads (S (clockReads w)) w)) /\
    account w' e
    = Some (Prisma.user.touch (time (env w) (clockReads w)) (f u)).
Proof.
  intros Ha Hf. unfold account in *.
  destruct (find_byId_of_member _ _ _ Ha) as (u' & Hu').
  unfold Prisma.user.update, Prisma.user.findUnique. unfold_monad. cbn.
  rewrite Hu'. cbn.
  do 2 eexists. split; [reflexivity |]. split; [same_world |].
  cbn. rewrite find_map_same by (intro x; now apply byEmail_apply).
  rewrite Ha. cbn. unfold Prisma.user.apply, Prisma.user.byId.
  now rewrite Nat.eqb_refl.
Qed.

(* ================================================================== *)
(** ** One login attempt *)

(** The account is locked and the lock has not run out at the first
    reading of the clock: the attempt is refused before any comparison. *)
Lemma login_locked d w u L :
  account w (loginEmail d) = Some u ->
  User.lockedUntil u = Some L ->
  time (env w) (clockReads w) < L ->
  login d w =
  (Throw (AppErr (UnauthorizedError
                    (lockedMessage
                       (ceilDiv (L - time (env w) (S (clockReads w))) 60000))
                    ACCOUNT_LOCKED)),
   set_trace (trace w ++ [EvLog Error (js "Login failed")])
     (set_clockReads (S (S (clockReads w))) w)).
Proof.
  intros Ha HL Hlt. unfold account in Ha.
  unfold login, lowerCase, Prisma.user.findUniqueByEmail, checkAccountLock.
  unfold_monad. cbn. rewrite Ha. cbn. rewrite HL. cbn.
  apply Z.ltb_lt in Hlt. rewrite Hlt. cbn.
  f_equal.
Qed.

Lemma account_after_update w e u f t tr n :
  account w e = Some u ->
  (forall x, User.email (f x) = User.email x) ->
  account
    (set_trace tr
       (set_users (map (Prisma.user.apply (User.id u) f t) (users w))
          (set_clockReads n w))) e
  = Some (Prisma.user.touch t (f u)).
Proof.
  intros Ha Hf. unfold account in *. cbn.
  rewrite find_map_same by (intro x; now apply byEmail_apply).
  rewrite Ha. cbn. unfold Prisma.user.apply, Prisma.user.byId.
  now rewrite Nat.eqb_refl.
Qed.

(** A wrong password on an account without a lock, below the limit. *)
Lemma login_wrong_password d w u :
  account w (loginEmail d) = Some u ->
  User.lockedUntil u = None ->
  bcryptCompare (env w) (loginPassword d) (User.password u) = false ->
  User.loginAttempts u + 1 < maxAttempts w ->
  login d w =
  (Throw invalidCredentials,
   set_trace (trace w ++ [EvBcryptCompare (loginPassword d) (User.password u);
                          EvUpdate Users (User.id u);
                          EvLog Error (js "Login failed")])
     (set_users
        (map (Prisma.user.apply (User.id u)
                (setAttempts (User.loginAttempts u + 1))
                (time (env w) (clockReads w))) (users w))
        (set_clockReads (S (clockReads w)) w))).
Proof.
  intros Ha HL Hcmp Hlt.
  destruct (find_byId_of_member _ _ _ Ha) as (u' & Hu').
  unfold account in Ha. unfold maxAttempts in Hlt.
  unfold login, lowerCase, Prisma.user.findUniqueByEmail, checkAccountLock,
    bcrypt_compare, handleFailedLogin, securityConfig, Prisma.user.update,
    Prisma.user.findUnique.
  unfold_monad. cbn. rewrite Ha. cbn. rewrite HL. cbn. rewrite Hcmp. cbn.
  apply Z.leb_gt in Hlt. rewrite Hlt. cbn. rewrite Hu'. cbn.
  f_equal. same_world.
Qed.

(** A wrong password on an account without a lock that reaches the
    limit: the account is locked from the reading of the clock on. *)
Lemma login_wrong_password_locks d w u :
  account w (loginEmail d) = Some u ->
  User.lockedUntil u = None ->
  bcryptCompare (env w) (loginPassword d) (User.password u) = false ->
  maxAttempts w <= User.loginAttempts u + 1 ->
  login d w =
  (Throw tooManyAttempts,
   set_trace (trace w ++ [EvBcryptCompare (loginPassword d) (User.password u);
                          EvUpdate Users (User.id u);
                          EvLog Warn
                            (js "Account locked due to too many failed login attempts");
                          EvLog Error (js "Login failed")])
     (set_users
        (map (Prisma.user.apply (User.id u)
                (setLock (User.loginAttempts u + 1)
                   (Some (time (env w) (clockReads w) + lockoutDuration w)))
                (time (env w) (S (clockReads w)))) (users w))
        (set_clockReads (S (S (clockReads w))) w))).
Proof.
  intros Ha HL Hcmp Hle.
  destruct (find_byId_of_member _ _ _ Ha) as (u' & Hu').
  unfold account in Ha. unfold maxAttempts in Hle.
  unfold login, lowerCase, Prisma.user.findUniqueByEmail, checkAccountLock,
    bcrypt_compare, handleFailedLogin, securityConfig, Prisma.user.update,
    Prisma.user.findUnique.
  unfold_monad. cbn. rewrite Ha. cbn. rewrite HL. cbn. rewrite Hcmp. cbn.
  apply Z.leb_le in Hle. rewrite Hle. cbn. rewrite Hu'. cbn.
  f_equal. same_world.
Qed.

(* ================================================================== *)
(** ** Lockout *)

Lemma loginAttemptsWith_app e l1 l2 w :
  loginAttemptsWith e (l1 ++ l2) w
  = loginAttemptsWith e l2 (loginAttemptsWith e l1 w).
Proof.
  revert w. induction l1 as [| p l1 IH]; intro w; simpl; auto.
Qed.

(** Wrong passwords that stay below the limit only count up. *)
Lemma attempts_below_limit e : forall passwords w u,
  account w e = Some u ->
  User.lockedUntil u = None ->
  (forall p, In p passwords ->
             bcryptCompare (env w) p (User.password u) = false) ->
  User.loginAttempts u + Z.of_nat (List.length passwords) < maxAttempts w ->
  exists u',
    account (loginAttemptsWith e passwords w) e = Some u' /\
    env (loginAttemptsWith e passwords w) = env w /\
    User.lockedUntil u' = None /\
    User.password u' = User.password u /\
    User.id u' = User.id u /\
    User.loginAttempts u'
    = User.loginAttempts u + Z.of_nat (List.length passwords).
Proof.
  induction passwords as [| p rest IH]; intros w u Ha HL Hwrong Hlt.
  - exists u. cbn. repeat split; auto. lia.
  - cbn [loginAttemptsWith].
    assert (User.loginAttempts u + 1 < maxAttempts w) as Hlt1
      by (cbn [List.length] in Hlt; lia).
    rewrite (login_wrong_password (mkLoginData e p) w u Ha HL
               (Hwrong p (or_introl eq_refl)) Hlt1).
    cbn [snd loginPassword].
    match goal with
    | |- context [loginAttemptsWith e rest ?w1] => set (w1' := w1)
    end.
    assert (account w1' e
            = Some (Prisma.user.touch (time (env w) (clockReads w))
                      (setAttempts (User.loginAttempts u + 1) u))) as Ha1
      by (apply account_after_update; auto).
    destruct (IH w1' _ Ha1) as (u' & Hacc & Henv & HL' & Hpw & Hid & Hn).
    + cbn. exact HL.
    + intros q Hq. subst w1'. cbn. apply Hwrong. now right.
    + subst w1'. cbn [List.length] in Hlt. unfold maxAttempts in *. cbn. lia.
    + exists u'. rewrite Hacc, Henv. subst w1'. cbn in *.
      repeat split; auto. cbn [List.length]. lia.
Qed.

(** C3: from a clean account, five consecutive wrong passwords leave the
    account locked until [t + lockoutDuration], where [t] is the reading
    of the clock taken by the fifth attempt; a sixth attempt made while
    the clock still reads less than that, whatever its password (so also
    the correct one), is refused with [ACCOUNT_LOCKED], and its only
    effect besides reading the clock is the error log: no password is
    compared. *)
Theorem lockout_after_five_failures w e u passwords good :
  maxAttempts w = 5 ->
  0 < lockoutDuration w ->
  account w e = Some u ->
  User.loginAttempts u = 0 ->
  User.lockedUntil u = None ->
  List.length passwords = 5%nat ->
  (forall p, In p passwords ->
             bcryptCompare (env w) p (User.password u) = false) ->
  bcryptCompare (env w) good (User.password u) = true ->
  let w5 := loginAttemptsWith e passwords w in
  exists u5 t,
    account w5 e = Some u5 /\
    User.loginAttempts u5 = 5 /\
    User.lockedUntil u5 = Some (t + lockoutDuration w) /\
    t < t + lockoutDuration w /\
    (exists n, clockReads w5 = S (S n) /\ t = time (env w) n) /\
    (time (env w5) (clockReads w5) < t + lockoutDuration w ->
     exists msg w6,
       login (mkLoginData e good) w5
       = (Throw (AppErr (UnauthorizedError msg ACCOUNT_LOCKED)), w6) /\
       users w6 = users w5 /\
       trace w6 = trace w5 ++ [EvLog Error (js "Login failed")] /\
       forallb (fun ev => negb (isCompare ev))
               [EvLog Error (js "Login failed")] = true).
Proof.
  intros Hmax Hdur Ha H0 HL Hlen Hwrong Hgood w5.
  destruct passwords as [| p1 [| p2 [| p3 [| p4 [| p5 [| ? ?]]]]]];
    try discriminate.
  subst w5.
  change [p1; p2; p3; p4; p5] with ([p1; p2; p3; p4] ++ [p5]).
  rewrite loginAttemptsWith_app.
  destruct (attempts_below_limit e [p1; p2; p3; p4] w u Ha HL)
    as (u4 & Ha4 & Henv4 & HL4 & Hpw4 & Hid4 & Hn4).
  { intros p Hp. apply Hwrong. cbn in *. tauto. }
  { rewrite H0, Hmax. cbn. lia. }
  set (w4 := loginAttemptsWith e [p1; p2; p3; p4] w) in *.
  cbn [loginAttemptsWith].
  assert (bcryptCompare (env w4) p5 (User.password u4) = false) as Hc5.
  { rewrite Henv4, Hpw4. apply Hwrong. cbn. tauto. }
  assert (maxAttempts w4 <= User.loginAttempts u4 + 1) as Hle.
  { unfold maxAttempts in *. rewrite Henv4, Hmax, Hn4, H0. cbn. lia. }
  rewrite (login_wrong_password_locks (mkLoginData e p5) w4 u4 Ha4 HL4 Hc5 Hle).
  cbn [snd loginPassword].
  match goal with
  | |- context [account ?w1 e] => set (w5 := w1)
  end.
  assert (account w5 e
          = Some (Prisma.user.touch (time (env w4) (S (clockReads w4)))
                    (setLock (User.loginAttempts u4 + 1)
                       (Some (time (env w4) (clockReads w4)
                              + lockoutDuration w4)) u4))) as Ha5
    by (apply account_after_update; auto).
  assert (lockoutDuration w4 = lockoutDuration w) as Hd
    by (unfold lockoutDuration; now rewrite Henv4).
  rewrite Hd in Ha5.
  eexists. exists (time (env w4) (clockReads w4)).
  split; [exact Ha5 |].
  split; [cbn; rewrite Hn4, H0; reflexivity |].
  split; [reflexivity |].
  split; [lia |].
  split; [exists (clockReads w4); now rewrite Henv4 |].
  intro Hfuture.
  rewrite (login_locked (mkLoginData e good) w5 _ _ Ha5 eq_refl Hfuture).
  do 2 eexists. split; [reflexivity |]. cbn. auto.
Qed.

Lemma lockout_after_five_failures_witness :
  let w := Sample.withDemo 0 None (Sample.ticking Sample.noon 40) in
  let e := js "Demo@Example.com" in
  let w5 := loginAttemptsWith e Sample.wrongPasswords w in
  exists u5 t,
    account w5 e = Some u5 /\
    User.loginAttempts u5 = 5 /\
    User.lockedUntil u5 = Some (t + lockoutDuration w) /\
    t < t + lockoutDuration w /\
    (exists n, clockReads w5 = S (S n) /\ t = time (env w) n) /\
    (time (env w5) (clockReads w5) < t + lockoutDuration w ->
     exists msg w6,
       login (mkLoginData e Sample.demoPassword) w5
       = (Throw (AppErr (UnauthorizedError msg ACCOUNT_LOCKED)), w6) /\
       users w6 = users w5 /\
       trace w6 = trace w5 ++ [EvLog Error (js "Login failed")] /\
       forallb (fun ev => negb (isCompare ev))
               [EvLog Error (js "Login failed")] = true).
Proof.
  intros w e.
  apply (lockout_after_five_failures w e (Sample.demo 0 None)
           Sample.wrongPasswords Sample.demoPassword).
  - reflexivity.
  - reflexivity.
  - vm_compute. reflexivity.
  - reflexivity.
  - reflexivity.
  - reflexivity.
  - intros p Hp. cbn in Hp.
    repeat (destruct Hp as [<- | Hp]; [vm_compute; reflexivity |]).
    contradiction.
  - vm_compute. reflexivity.
Defined.

(** The sixth attempt of the example, run: the lock set by the fifth
    attempt is still 15 minutes away and the correct password is refused. *)
Example sixth_attempt_refused :
  let w5 := loginAttemptsWith (js "demo@example.com") Sample.wrongPasswords
              (Sample.withDemo 0 None (Sample.ticking Sample.noon 40)) in
  map (fun u => (User.loginAttempts u, User.lockedUntil u)) (users w5)
  = [(5, Some (Sample.noon + 160 + 900000))] /\
  fst (login (mkLoginData (js "demo@example.com") Sample.demoPassword) w5)
  = Throw (AppErr (UnauthorizedError
             (js "Account is locked. Please try again in 15 minutes")
             ACCOUNT_LOCKED)).
Proof. split; vm_compute; reflexivity. Qed.

(* ================================================================== *)
(** ** What the lock error says *)

Lemma ceilDiv_bounds a b :
  0 < b -> b * (ceilDiv a b - 1) < a <= b * ceilDiv a b.
Proof.
  intro Hb. unfold ceilDiv.
  pose proof (Z.div_mod (- a) b ltac:(lia)) as E.
  pose proof (Z.mod_pos_bound (- a) b Hb) as M.
  nia.
Qed.

Lemma ceilDiv_positive a b : 0 < b -> (0 < ceilDiv a b <-> 0 < a).
Proof.
  intro Hb. pose proof (ceilDiv_bounds a b Hb). split; intro; nia.
Qed.

(** C5, as the code has it: an attempt refused by the lock check fails
    with [ACCOUNT_LOCKED], and the text of the error gives the time left
    in whole minutes, rounded up, computed from a second reading of the
    clock; that number is positive exactly when the lock has not run out
    at that second reading. *)
Theorem locked_error_reports_minutes d w u L :
  account w (loginEmail d) = Some u ->
  User.lockedUntil u = Some L ->
  time (env w) (clockReads w) < L ->
  let remaining := L - time (env w) (S (clockReads w)) in
  let minutes := ceilDiv remaining 60000 in
  fst (login d w)
  = Throw (AppErr (UnauthorizedError
             (js "Account is locked. Please try again in " ++ ofZ minutes
                 ++ js " minutes")
             ACCOUNT_LOCKED)) /\
  60000 * (minutes - 1) < remaining <= 60000 * minutes /\
  (0 < minutes <-> time (env w) (S (clockReads w)) < L).
Proof.
  intros Ha HL Hlt remaining minutes.
  rewrite (login_locked d w u L Ha HL Hlt). cbn [fst].
  split; [reflexivity |].
  split; [apply ceilDiv_bounds; lia |].
  unfold minutes. rewrite ceilDiv_positive by lia.
  unfold remaining. lia.
Qed.

Lemma locked_error_reports_minutes_witness :
  let d := Sample.demoLogin Sample.demoPassword in
  let w := Sample.lockedDemo in
  let remaining := Sample.noon + 900000 - time (env w) (S (clockReads w)) in
  let minutes := ceilDiv remaining 60000 in
  fst (login d w)
  = Throw (AppErr (UnauthorizedError
             (js "Account is locked. Please try again in " ++ ofZ minutes
                 ++ js " minutes")
             ACCOUNT_LOCKED)) /\
  60000 * (minutes - 1) < remaining <= 60000 * minutes /\
  (0 < minutes <-> time (env w) (S (clockReads w)) < Sample.noon + 900000).
Proof.
  intros d w.
  apply (locked_error_reports_minutes d w
           (Sample.demo 5 (Some (Sample.noon + 900000)))
           (Sample.noon + 900000)).
  - vm_compute. reflexivity.
  - reflexivity.
  - vm_compute. reflexivity.
Defined.

(** C5, as stated, fails: with 900 seconds of the lock left, the error
    of the refused attempt reads "15 minutes" and shows no 900. *)
Lemma locked_error_not_in_seconds :
  time (env Sample.lockedDemo) (clockReads Sample.lockedDemo) < Sample.noon + 900000 /\
  fst (login (Sample.demoLogin Sample.demoPassword) Sample.lockedDemo)
  = Throw (AppErr (UnauthorizedError
             (js "Account is locked. Please try again in 15 minutes")
             ACCOUNT_LOCKED)) /\
  ~ reportsSeconds
      (AppErr (UnauthorizedError
                 (js "Account is locked. Please try again in 15 minutes")
                 ACCOUNT_LOCKED))
      (Sample.noon + 900000
       - time (env Sample.lockedDemo) (S (clockReads Sample.lockedDemo))).
Proof.
  split; [vm_compute; reflexivity |].
  split; [vm_compute; reflexivity |].
  intros (err & E & _ & Hinc & _). injection E as <-.
  vm_compute in Hinc. discriminate.
Qed.

(* ================================================================== *)
(** ** Login after the lock has run out *)

(** C4 on the code: the account carries five failed attempts and a lock
    that ran out an hour ago. [checkAccountLock] resets the row, but the
    attempt goes on with the row as it was read before the reset: a wrong
    password is counted as the sixth failure and locks the account again
    at once, where the specification has it count as the first. With the
    correct password the same attempt succeeds. *)
Example login_after_lock_elapsed_relocks :
  let w := Sample.staleLockDemo in
  let wrong := login (Sample.demoLogin (js "password")) w in
  fst wrong = Throw tooManyAttempts /\
  map (fun u => (User.loginAttempts u, User.lockedUntil u)) (users (snd wrong))
  = [(6, Some (Sample.noon + 120 + 900000))] /\
  trace (snd wrong)
  = [EvUpdate Users 1%nat;
     EvBcryptCompare (js "password") (js "$2b$Password123!");
     EvUpdate Users 1%nat;
     EvLog Warn (js "Account locked due to too many failed login attempts");
     EvLog Error (js "Login failed")] /\
  exists response,
    fst (login (Sample.demoLogin Sample.demoPassword) w) = Ok response.
Proof.
  cbv zeta. repeat split; try (vm_compute; reflexivity).
  eexists. vm_compute. reflexivity.
Qed.

(* ================================================================== *)
(** ** The credential sweep *)

Lemma cleanupExpiredTokens_run w :
  let t := time (env w) (clockReads w) in
  cleanupExpiredTokens w =
  (Ok (List.length (filter (sweepFilter t) (refreshTokens w))),
   set_trace
     (trace w ++
      [EvDeleteMany RefreshTokens
         (List.length (filter (sweepFilter t) (refreshTokens w)));
       EvLog Info (js "Expired tokens cleaned up")])
     (set_refreshTokens
        (filter (fun r => negb (sweepFilter t r)) (refreshTokens w))
        (set_clockReads (S (clockReads w)) w))).
Proof.
  unfold cleanupExpiredTokens, Prisma.refreshToken.deleteMany.
  unfold_monad. cbn. f_equal. same_world.
Qed.

Lemma sweepFilter_false t r :
  sweepFilter t r = false <->
  t <= RefreshToken.expiresAt r /\ RefreshToken.revokedAt r = None.
Proof.
  unfold sweepFilter. rewrite orb_false_iff, Z.ltb_ge.
  destruct (RefreshToken.revokedAt r); split; intros [H1 H2];
    split; auto; discriminate.
Qed.

Lemma filter_split_length {A : Type} (p : A -> bool) (l : list A) :
  List.length l
  = (List.length (filter p l)
     + List.length (filter (fun x => negb (p x)) l))%nat.
Proof.
  induction l as [| x l IH]; simpl; [reflexivity |].
  destruct (p x); simpl; lia.
Qed.

(** C6, as the code has it: the sweep deletes the rows that are past
    their expiry or revoked (either is enough) and returns their number;
    the rows left in place are those neither expired nor revoked. *)
Theorem cleanupExpiredTokens_sweep (w : World) :
  let t := time (env w) (clockReads w) in
  let after := refreshTokens (snd (cleanupExpiredTokens w)) in
  exists count,
    fst (cleanupExpiredTokens w) = Ok count /\
    after = filter (fun r => negb (sweepFilter t r)) (refreshTokens w) /\
    List.length (refreshTokens w) = (count + List.length after)%nat /\
    forall r,
      In r (refreshTokens w) ->
      (In r after <->
       t <= RefreshToken.expiresAt r /\ RefreshToken.revokedAt r = None) /\
      (~ In r after <->
       RefreshToken.expiresAt r < t \/ RefreshToken.revokedAt r <> None).
Proof.
  intros t after. subst after. rewrite cleanupExpiredTokens_run. cbn.
  fold t. eexists. split; [reflexivity |]. split; [reflexivity |].
  split; [apply filter_split_length |].
  intros r Hin. rewrite filter_In, negb_true_iff, sweepFilter_false.
  split; [tauto |].
  split.
  - intro Hn.
    destruct (Z.lt_ge_cases (RefreshToken.expiresAt r) t) as [Hlt | Hge];
      [now left | right].
    intro Hnone. apply Hn. repeat split; auto.
  - intros [Hlt | Hrev] (_ & Hge & Hnone); [lia | contradiction].
Qed.

(** C6, as stated, fails: a credential revoked before its expiry and an
    expired credential that was never revoked are both deleted. *)
Lemma cleanupExpiredTokens_deletes_either :
  fst (cleanupExpiredTokens Sample.twoCredentials) = Ok 2%nat /\
  refreshTokens (snd (cleanupExpiredTokens Sample.twoCredentials)) = [] /\
  ~ sweepsOnlyExpiredAndRevoked Sample.twoCredentials.
Proof.
  split; [vm_compute; reflexivity |].
  assert (refreshTokens (snd (cleanupExpiredTokens Sample.twoCredentials))
          = []) as E by (vm_compute; reflexivity).
  split; [exact E |].
  intro H. specialize (H Sample.revokedEarly).
  rewrite E in H.
  destruct H as [Hlt _]; [left; reflexivity | intros [] |].
  vm_compute in Hlt. discriminate.
Qed.

(* ================================================================== *)
(** ** The lookup of the LLM controller *)

Lemma getUserById_run uid w :
  llmController.getUserById uid w =
  match find (Prisma.user.byId uid) (users w) with
  | Some u =>
      (Ok (mkUserInfoBody true (selectInfo u)),
       set_trace (trace w ++
                  [EvLog Info (js "LLM service fetched user information")]) w)
  | None =>
      (Throw (AppErr (NotFoundError (js "User not found") USER_NOT_FOUND)), w)
  end.
Proof.
  unfold llmController.getUserById, Prisma.user.findUnique. unfold_monad.
  cbn. destruct (find _ _); reflexivity.
Qed.

(** C10: the body the lookup returns holds the seven selected columns
    and nothing else; two stores whose rows for the id differ only in the
    password hash, the failed-attempt counter, the lock and the time of
    the last login give the same result and add the same effects. *)
Theorem getUserById_noninterference uid w1 w2 u1 u2 :
  find (Prisma.user.byId uid) (users w1) = Some u1 ->
  find (Prisma.user.byId uid) (users w2) = Some u2 ->
  differOnlyInHiddenColumns u1 u2 ->
  fst (llmController.getUserById uid w1)
  = Ok (mkUserInfoBody true
          (mkUserInfo (User.id u1) (User.name u1) (User.email u1)
             (User.role u1) (User.emailVerified u1) (User.createdAt u1)
             (User.updatedAt u1))) /\
  fst (llmController.getUserById uid w2)
  = fst (llmController.getUserById uid w1) /\
  (exists added,
      trace (snd (llmController.getUserById uid w1)) = trace w1 ++ added /\
      trace (snd (llmController.getUserById uid w2)) = trace w2 ++ added).
Proof.
  intros H1 H2 (pw & att & lock & last & ->).
  rewrite !getUserById_run, H1, H2. cbn.
  repeat split. eexists. split; reflexivity.
Qed.

Lemma getUserById_noninterference_witness :
  let w1 := Sample.withDemo 0 None (Sample.ticking Sample.noon 1) in
  let w2 := Sample.lockedDemo in
  fst (llmController.getUserById 1%nat w1)
  = Ok (mkUserInfoBody true
          (mkUserInfo 1%nat (js "Demo") (js "demo@example.com") (js "user")
             true (Sample.noon - 86400000) (Sample.noon - 86400000))) /\
  fst (llmController.getUserById 1%nat w2)
  = fst (llmController.getUserById 1%nat w1) /\
  (exists added,
      trace (snd (llmController.getUserById 1%nat w1)) = trace w1 ++ added /\
      trace (snd (llmController.getUserById 1%nat w2)) = trace w2 ++ added).
Proof.
  intros w1 w2.
  apply (getUserById_noninterference 1%nat w1 w2 (Sample.demo 0 None)
           (Sample.demo 5 (Some (Sample.noon + 900000)))).
  - reflexivity.
  - reflexivity.
  - unfold differOnlyInHiddenColumns, Sample.demo. cbn.
    do 4 eexists. reflexivity.
Defined.

(* ================================================================== *)
(** ** Tokens *)

Lemma jseqb_refl (s : jsstring) : Js.eqb s s = true.
Proof.
  induction s as [| c s IH]; simpl; [reflexivity |].
  now rewrite N.eqb_refl.
Qed.

Lemma verifyAccessToken_run w p issued expires :
  nowSeconds w < expires ->
  verifyAccessToken (Signed (Config.accessSecret (jwtOf w)) p issued expires) w
  = (Ok (mkDecoded p issued expires), set_clockReads (S (clockReads w)) w).
Proof.
  intro H. unfold verifyAccessToken, jwtConfig, jwt.verify, nowSeconds in *.
  unfold_monad. cbn. fold (jwtOf w). rewrite jseqb_refl. cbn.
  apply Z.leb_gt in H. rewrite H. reflexivity.
Qed.

Lemma verifyRefreshToken_run w p issued expires :
  nowSeconds w < expires ->
  verifyRefreshToken (Signed (Config.refreshSecret (jwtOf w)) p issued expires) w
  = (Ok (mkDecoded p issued expires), set_clockReads (S (clockReads w)) w).
Proof.
  intro H. unfold verifyRefreshToken, jwtConfig, jwt.verify, nowSeconds in *.
  unfold_monad. cbn. fold (jwtOf w). rewrite jseqb_refl. cbn.
  apply Z.leb_gt in H. rewrite H. reflexivity.
Qed.

(** What a successful verification of a refresh token tells. *)
Lemma verifyRefreshToken_ok w tok d :
  fst (verifyRefreshToken tok w) = Ok d ->
  exists key,
    tok = Signed key (payload d) (iat d) (exp d) /\
    Js.eqb key (Config.refreshSecret (jwtOf w)) = true /\
    nowSeconds w < exp d /\
    verifyRefreshToken tok w = (Ok d, set_clockReads (S (clockReads w)) w).
Proof.
  unfold verifyRefreshToken, jwtConfig, jwt.verify, nowSeconds.
  unfold_monad. cbn. fold (jwtOf w).
  destruct tok as [s | key claims issued expires]; cbn; [discriminate |].
  destruct (Js.eqb key _) eqn:Ek; cbn; [| discriminate].
  destruct (Z.leb_spec expires (time (env w) (clockReads w) / 1000));
    cbn; [discriminate |].
  intro E. injection E as <-. cbn. exists key. auto.
Qed.

(** An expired signature is reported as such, whatever the store holds. *)
Lemma verifyRefreshToken_expired w key p issued expires :
  Js.eqb key (Config.refreshSecret (jwtOf w)) = true ->
  expires <= nowSeconds w ->
  verifyRefreshToken (Signed key p issued expires) w
  = (Throw (AppErr (UnauthorizedError (js "Refresh token expired")
                                      TOKEN_EXPIRED)),
     set_clockReads (S (clockReads w)) w).
Proof.
  intros Hk H. unfold verifyRefreshToken, jwtConfig, jwt.verify, nowSeconds in *.
  unfold_monad. cbn. fold (jwtOf w). rewrite Hk. cbn.
  apply Z.leb_le in H. rewrite H. reflexivity.
Qed.

(* ================================================================== *)
(** ** Issuing a pair *)

Lemma issueTokens_run u w :
  issueTokens u w =
  match credential w (refreshAt w (S (clockReads w)) u) with
  | None =>
      (Ok (mkAuthResponse (summary u) (accessAt w (clockReads w) u)
             (refreshAt w (S (clockReads w)) u)),
       set_trace (trace w ++ [EvCreate RefreshTokens (nextId w)])
         (set_refreshTokens (refreshTokens w ++ [issuedRow w u])
            (set_clockReads (S (S (S (S (clockReads w)))))
               (set_nextId (S (nextId w)) w))))
  | Some _ =>
      (Throw (PrismaErr UniqueConstraint),
       set_clockReads (S (S (S (clockReads w)))) w)
  end.
Proof.
  unfold issueTokens, generateAccessToken, generateRefreshToken, jwtConfig,
    jwt.sign, getTokenExpiry, Prisma.refreshToken.create,
    Prisma.refreshToken.findUnique, credential, refreshAt, accessAt,
    issuedRow, payloadOf, jwtOf.
  unfold_monad. cbn.
  destruct (find _ _); cbn; f_equal; same_world.
Qed.

(* ================================================================== *)
(** ** Registration *)

Lemma register_ok data w resp wf :
  register data w = (Ok resp, wf) ->
  account w (registerEmail data) = None /\
  users wf = users w ++ [registeredUser data w] /\
  env wf = env w /\
  resp = mkAuthResponse (summary (registeredUser data w))
           (accessAt w (S (clockReads w)) (registeredUser data w))
           (refreshAt w (S (S (clockReads w))) (registeredUser data w)).
Proof.
  unfold register, lowerCase, Prisma.user.findUniqueByEmail, securityConfig,
    bcrypt_hash, Prisma.user.create, Prisma.user.findUniqueByEmail, account.
  unfold_monad. cbn -[issueTokens].
  destruct (find _ (users w)) as [existing |] eqn:Efind; cbn -[issueTokens];
    [discriminate |].
  rewrite Efind. cbn -[issueTokens].
  rewrite issueTokens_run.
  destruct (credential _ _); cbn; [discriminate |].
  intro E. injection E as <- <-. cbn.
  repeat split.
Qed.

Lemma seconds_monotone (e : Env) n :
  monotone e -> time e n / 1000 <= time e (S n) / 1000.
Proof. intro H. apply Z.div_le_mono; [lia | apply H]. Qed.

(** C9: after a successful registration the account just created is the
    last row of the table, its id is the one the response names, and, at
    any later reading of the clock that is still within the lifetime
    counted from the start of the registration, the access token passes
    [verifyAccessToken] and the refresh token passes [verifyRefreshToken],
    both decoding to that id. *)
Theorem register_tokens_verify data w resp w1 :
  register data w = (Ok resp, w1) ->
  monotone (env w) ->
  exists u,
    users w1 = users w ++ [u] /\
    User.id u = summaryId (authUser resp) /\
    forall w2,
      env w2 = env w ->
      (nowSeconds w2
       < nowSeconds w + expirySeconds (Config.accessExpiry (jwtOf w)) ->
       exists d,
         fst (verifyAccessToken (accessToken resp) w2) = Ok d /\
         userId (payload d) = User.id u) /\
      (nowSeconds w2
       < nowSeconds w + expirySeconds (Config.refreshExpiry (jwtOf w)) ->
       exists d,
         fst (verifyRefreshToken (refreshToken resp) w2) = Ok d /\
         userId (payload d) = User.id u).
Proof.
  intros Hreg Hmono.
  destruct (register_ok data w resp w1 Hreg) as (_ & Husers & _ & ->).
  exists (registeredUser data w).
  split; [exact Husers |]. split; [reflexivity |].
  intros w2 Henv.
  pose proof (seconds_monotone (env w) (clockReads w) Hmono) as H1.
  pose proof (seconds_monotone (env w) (S (clockReads w)) Hmono) as H2.
  assert (jwtOf w2 = jwtOf w) as Hj by (unfold jwtOf; now rewrite Henv).
  unfold nowSeconds in *. cbn [accessToken refreshToken].
  unfold accessAt, refreshAt. rewrite <- Hj.
  split; intro Hlt.
  - rewrite verifyAccessToken_run by (unfold nowSeconds; lia).
    eexists. split; reflexivity.
  - rewrite verifyRefreshToken_run by (unfold nowSeconds; lia).
    eexists. split; reflexivity.
Qed.

Lemma ticking_monotone t0 step service :
  0 <= step -> monotone (Sample.runtime (Sample.ticking t0 step) service).
Proof.
  intros H n. cbn. unfold Sample.ticking. nia.
Qed.

Lemma register_tokens_verify_witness :
  let w := Sample.offline in
  let resp := mkAuthResponse
                (mkUserSummary 0%nat (js "ada@example.com") (js "Ada")
                               (js "user") false)
                (accessAt w 1 (registeredUser Sample.newcomer w))
                (refreshAt w 2 (registeredUser Sample.newcomer w)) in
  exists u,
    users (snd (register Sample.newcomer w)) = users w ++ [u] /\
    User.id u = summaryId (authUser resp) /\
    forall w2,
      env w2 = env w ->
      (nowSeconds w2
       < nowSeconds w + expirySeconds (Config.accessExpiry (jwtOf w)) ->
       exists d,
         fst (verifyAccessToken (accessToken resp) w2) = Ok d /\
         userId (payload d) = User.id u) /\
      (nowSeconds w2
       < nowSeconds w + expirySeconds (Config.refreshExpiry (jwtOf w)) ->
       exists d,
         fst (verifyRefreshToken (refreshToken resp) w2) = Ok d /\
         userId (payload d) = User.id u).
Proof.
  intros w resp.
  apply (register_tokens_verify Sample.newcomer w resp
           (snd (register Sample.newcomer w))).
  - assert (fst (register Sample.newcomer w) = Ok resp) as E
      by (vm_compute; reflexivity).
    rewrite <- E. now destruct (register Sample.newcomer w).
  - apply ticking_monotone. lia.
Defined.

(** The tokens of the example, verified right after the registration. *)
Example register_then_verify :
  let w1 := snd (register Sample.newcomer Sample.offline) in
  exists access refresh,
    option_map (fun r => (accessToken r, refreshToken r))
      (match fst (register Sample.newcomer Sample.offline) with
       | Ok r => Some r
       | Throw _ => None
       end) = Some (access, refresh) /\
    (exists d, fst (verifyAccessToken access w1) = Ok d
               /\ userId (payload d) = 0%nat) /\
    (exists d, fst (verifyRefreshToken refresh w1) = Ok d
               /\ userId (payload d) = 0%nat) /\
    (exists e, fst (verifyAccessToken refresh w1) = Throw e) /\
    (exists e, fst (verifyRefreshToken access w1) = Throw e).
Proof.
  cbv zeta. do 2 eexists. split; [vm_compute; reflexivity |].
  repeat split; eexists; try split; vm_compute; reflexivity.
Qed.

(* ================================================================== *)
(** ** Rotation *)

Lemma find_app_none {A : Type} (f : A -> bool) (l l' : list A) :
  find f l = None -> find f (l ++ l') = find f l'.
Proof.
  induction l as [| y l IH]; simpl; [reflexivity |].
  destruct (f y); [discriminate | exact IH].
Qed.

Lemma byToken_apply tok i t r :
  Prisma.refreshToken.byToken tok
    (Prisma.refreshToken.apply i (Prisma.refreshToken.revoke t) r)
  = Prisma.refreshToken.byToken tok r.
Proof.
  unfold Prisma.refreshToken.apply.
  destruct (Prisma.refreshToken.byId i r); reflexivity.
Qed.

Lemma credential_byId w tok r :
  credential w tok = Some r ->
  exists r', find (Prisma.refreshToken.byId (RefreshToken.id r))
                  (refreshTokens w) = Some r'.
Proof.
  unfold credential. intro H. apply find_some in H. destruct H as [Hin _].
  destruct (find _ _) as [r' |] eqn:E; eauto.
  exfalso. apply (find_none _ _ E) in Hin.
  unfold Prisma.refreshToken.byId in Hin. now rewrite Nat.eqb_refl in Hin.
Qed.

Lemma refreshAccessToken_run tok w d stored u :
  fst (verifyRefreshToken tok w) = Ok d ->
  credential w tok = Some stored ->
  RefreshToken.revokedAt stored = None ->
  time (env w) (S (clockReads w)) <= RefreshToken.expiresAt stored ->
  find (Prisma.user.byId (RefreshToken.userId stored)) (users w) = Some u ->
  credential w (refreshAt w (4 + clockReads w) u) = None ->
  refreshAccessToken tok w =
  (Ok (mkTokenPair (accessAt w (3 + clockReads w) u)
                   (refreshAt w (4 + clockReads w) u)),
   rotated w stored u).
Proof.
  intros Hv Hc Hrev Hexp Hu Hfresh.
  destruct (verifyRefreshToken_ok w tok d Hv) as (key & _ & _ & _ & Hrun).
  destruct (credential_byId w tok stored Hc) as (r' & Hr').
  unfold refreshAccessToken, logged, try_catch.
  rewrite (bind_ok _ Hrun).
  unfold credential in *.
  unfold Prisma.refreshToken.findUniqueWithUser, Prisma.refreshToken.update,
    generateAccessToken, generateRefreshToken, jwtConfig, jwt.sign,
    getTokenExpiry, Prisma.refreshToken.create,
    Prisma.refreshToken.findUnique.
  unfold_monad. cbn.
  rewrite Hc. cbn. rewrite Hrev, Hu. cbn.
  apply Z.ltb_ge in Hexp. rewrite Hexp. cbn.
  rewrite Hr'. cbn.
  rewrite find_map_same by (intro x; apply byToken_apply).
  unfold refreshAt, payloadOf, jwtOf in Hfresh. cbn in Hfresh.
  rewrite Hfresh. cbn.
  unfold rotated, accessAt, refreshAt, payloadOf, jwtOf.
  f_equal. same_world.
Qed.








(** Not part of C2 as amended: a token presented within the second in
    which it was signed. The replacement signed for the same claims in
    the same second is the same string, its insertion violates the unique
    index, and the call throws after having revoked the presented row. *)
Example refreshAccessToken_same_second :
  let w1 := snd (register Sample.newcomer Sample.offline) in
  let tok := refreshAt Sample.offline 2
               (registeredUser Sample.newcomer Sample.offline) in
  option_map (fun r => RefreshToken.revokedAt r) (credential w1 tok)
  = Some None /\
  fst (refreshAccessToken tok w1) = Throw (PrismaErr UniqueConstraint) /\
  option_map (fun r => RefreshToken.revokedAt r)
    (credential (snd (refreshAccessToken tok w1)) tok)
  = Some (Some (Sample.noon + 21)).
Proof. cbv zeta. repeat split; vm_compute; reflexivity. Qed.


(* ================================================================== *)
(** ** Login: the remaining outcomes *)

Lemma login_unknown_run d w :
  account w (loginEmail d) = None ->
  login d w =
  (Throw invalidCredentials,
   set_trace (trace w ++ [EvLog Error (js "Login failed")]) w).
Proof.
  intro Ha. unfold account in Ha.
  unfold login, lowerCase, Prisma.user.findUniqueByEmail.
  unfold_monad. cbn. rewrite Ha. reflexivity.
Qed.

(** X1: a login with an address that has no account is refused with the
    very error a wrong password gets on an existing account (401,
    INVALID_CREDENTIALS, the same text); it leaves both tables as they
    were and adds nothing to the trace but the error log, so no password
    comparison is made. *)
Theorem login_unknown_address_as_wrong_password d w d' w' u :
  account w (loginEmail d) = None ->
  account w' (loginEmail d') = Some u ->
  User.lockedUntil u = None ->
  bcryptCompare (env w') (loginPassword d') (User.password u) = false ->
  User.loginAttempts u + 1 < maxAttempts w' ->
  fst (login d w) = fst (login d' w') /\
  fst (login d w) = Throw invalidCredentials /\
  users (snd (login d w)) = users w /\
  refreshTokens (snd (login d w)) = refreshTokens w /\
  trace (snd (login d w)) = trace w ++ [EvLog Error (js "Login failed")].
Proof.
  intros Hnone Ha HL Hcmp Hlt.
  rewrite (login_unknown_run d w Hnone).
  rewrite (login_wrong_password d' w' u Ha HL Hcmp Hlt).
  cbn. repeat split.
Qed.

Lemma login_unknown_address_as_wrong_password_witness :
  let d := mkLoginData (js "nobody@example.com") Sample.demoPassword in
  let w := Sample.withDemo 0 None (Sample.ticking Sample.noon 40) in
  let d' := Sample.demoLogin (js "password") in
  fst (login d w) = fst (login d' w) /\
  fst (login d w) = Throw invalidCredentials /\
  users (snd (login d w)) = users w /\
  refreshTokens (snd (login d w)) = refreshTokens w /\
  trace (snd (login d w)) = trace w ++ [EvLog Error (js "Login failed")].
Proof.
  intros d w d'.
  apply (login_unknown_address_as_wrong_password d w d' w
           (Sample.demo 0 None));
    [reflexivity | reflexivity | reflexivity | reflexivity
     | vm_compute; reflexivity].
Defined.

Lemma user_id_setLoggedIn t x : User.id (setLoggedIn t x) = User.id x.
Proof. reflexivity. Qed.



(** The whole run of a login with the right password on an account that
    carries no lock. *)
Lemma login_ok_run d w u :
  account w (loginEmail d) = Some u ->
  User.lockedUntil u = None ->
  bcryptCompare (env w) (loginPassword d) (User.password u) = true ->
  credential w (refreshAt w (3 + clockReads w) u) = None ->
  login d w =
  (Ok (mkAuthResponse (summary u) (accessAt w (2 + clockReads w) u)
         (refreshAt w (3 + clockReads w) u)),
   set_trace
     (trace w ++ [EvBcryptCompare (loginPassword d) (User.password u);
                  EvUpdate Users (User.id u);
                  EvLog Info (js "User logged in successfully");
                  EvCreate RefreshTokens (nextId w)])
     (set_refreshTokens
        (refreshTokens w
         ++ [RefreshToken.mk (nextId w) (refreshAt w (3 + clockReads w) u)
               (User.id u)
               (time (env w) (4 + clockReads w)
                + expiryMillis (Config.refreshExpiry (jwtOf w)))
               (time (env w) (5 + clockReads w)) None])
        (set_users
           (map (Prisma.user.apply (User.id u)
                   (setLoggedIn (time (env w) (clockReads w)))
                   (time (env w) (S (clockReads w)))) (users w))
           (set_clockReads (6 + clockReads w)
              (set_nextId (S (nextId w)) w))))).
Proof.
  intros Ha HL Hcmp Hfresh.
  destruct (find_byId_of_member _ _ _ Ha) as (u' & Hu').
  unfold account in Ha.
  unfold login, lowerCase, Prisma.user.findUniqueByEmail, checkAccountLock,
    bcrypt_compare, Prisma.user.update, Prisma.user.findUnique.
  unfold_monad. cbn -[issueTokens]. rewrite Ha. cbn -[issueTokens].
  rewrite HL. cbn -[issueTokens]. rewrite Hcmp. cbn -[issueTokens].
  rewrite Hu'. cbn -[issueTokens].
  rewrite issueTokens_run.
  unfold credential, refreshAt, accessAt, issuedRow, payloadOf, jwtOf in *.
  cbn in Hfresh |- *. rewrite Hfresh.
  f_equal. same_world.
Qed.







(** A run that is known to return: its outcome as a pair. *)
Lemma run_ok {A : Type} (m : M A) (w : World) (a : A) :
  fst (m w) = Ok a -> m w = (Ok a, snd (m w)).
Proof. destruct (m w); cbn; congruence. Qed.

Lemma run_throw {A : Type} (m : M A) (w : World) (e : Exn) :
  fst (m w) = Throw e -> m w = (Throw e, snd (m w)).
Proof. destruct (m w); cbn; congruence. Qed.
(* ================================================================== *)
(** ** Registration: the conflict *)

Lemma register_taken_run data w u :
  account w (registerEmail data) = Some u ->
  register data w =
  (Throw emailAlreadyRegistered,
   set_trace (trace w ++ [EvLog Error (js "Registration failed")]) w).
Proof.
  intro Ha. unfold account in Ha.
  unfold register, lowerCase, Prisma.user.findUniqueByEmail.
  unfold_monad. cbn. rewrite Ha. reflexivity.
Qed.



(** X5: once a registration has succeeded, a second one whose address has
    the same lower-case form is refused with the conflict error and adds
    no account. *)
Theorem register_same_address_twice data data' w resp w1 :
  register data w = (Ok resp, w1) ->
  toLowerCase (env w) (registerEmail data')
  = toLowerCase (env w) (registerEmail data) ->
  fst (register data' w1) = Throw emailAlreadyRegistered /\
  users (snd (register data' w1)) = users w1 /\
  refreshTokens (snd (register data' w1)) = refreshTokens w1.
Proof.
  intros Hreg Hsame.
  destruct (register_ok data w resp w1 Hreg) as (Hnone & Husers & Henv & _).
  assert (account w1 (registerEmail data') = Some (registeredUser data w))
    as Ha.
  { unfold account in *. rewrite Henv, Husers, Hsame.
    rewrite find_app_none by exact Hnone.
    cbn. unfold Prisma.user.byEmail. cbn. now rewrite jseqb_refl. }
  rewrite (register_taken_run data' w1 _ Ha). cbn. repeat split.
Qed.

Lemma register_same_address_twice_witness :
  let w1 := snd (register Sample.newcomer Sample.offline) in
  let again := mkRegisterData (js "ADA@example.COM") (js "another-1A")
                              (js "Ada L.") in
  fst (register again w1) = Throw emailAlreadyRegistered /\
  users (snd (register again w1)) = users w1 /\
  refreshTokens (snd (register again w1)) = refreshTokens w1.
Proof.
  assert (exists resp, fst (register Sample.newcomer Sample.offline) = Ok resp)
    as (resp & E) by (eexists; vm_compute; reflexivity).
  intros w1 again.
  apply (register_same_address_twice Sample.newcomer again Sample.offline
           resp w1).
  - apply (run_ok (register Sample.newcomer) Sample.offline resp E).
  - reflexivity.
Defined.

(* ================================================================== *)
(** ** Refresh: what a refusal and a success tell *)

Lemma verifyRefreshToken_cases tok w :
  (exists d, verifyRefreshToken tok w
             = (Ok d, set_clockReads (S (clockReads w)) w)) \/
  (exists e, verifyRefreshToken tok w
             = (Throw (AppErr e), set_clockReads (S (clockReads w)) w) /\
             statusCode e = 401 /\
             (errorCode e = TOKEN_INVALID \/ errorCode e = TOKEN_EXPIRED)).
Proof.
  unfold verifyRefreshToken, jwtConfig, jwt.verify.
  unfold_monad. cbn.
  destruct tok as [s | key claims issued expires]; cbn.
  - right. eexists. split; [reflexivity |]. cbn. auto.
  - destruct (Js.eqb key _); cbn.
    + destruct (expires <=? _); cbn.
      * right. eexists. split; [reflexivity |]. cbn. auto.
      * left. eexists. reflexivity.
    + right. eexists. split; [reflexivity |]. cbn. auto.
Qed.

(** The outcomes of [refreshAccessToken], by what stops it. *)
Lemma refreshAccessToken_cases tok w :
  (exists e,
      refreshAccessToken tok w
      = (Throw (AppErr e),
         set_trace (trace w ++ [EvLog Error (js "Token refresh failed")])
           (set_clockReads (clockReads (snd (refreshAccessToken tok w))) w)) /\
      statusCode e = 401 /\
      (errorCode e = TOKEN_INVALID \/ errorCode e = TOKEN_EXPIRED)) \/
  (exists d stored,
      fst (verifyRefreshToken tok w) = Ok d /\
      credential w tok = Some stored /\
      RefreshToken.revokedAt stored = None /\
      time (env w) (S (clockReads w)) <= RefreshToken.expiresAt stored /\
      match find (Prisma.user.byId (RefreshToken.userId stored)) (users w) with
      | None => fst (refreshAccessToken tok w) = Throw TypeErr
      | Some u =>
          match credential w (refreshAt w (4 + clockReads w) u) with
          | None =>
              refreshAccessToken tok w
              = (Ok (mkTokenPair (accessAt w (3 + clockReads w) u)
                                 (refreshAt w (4 + clockReads w) u)),
                 rotated w stored u)
          | Some _ =>
              fst (refreshAccessToken tok w)
              = Throw (PrismaErr UniqueConstraint)
          end
      end).
Proof.
  destruct (verifyRefreshToken_cases tok w) as [(d & Hv) | (e & Hv & He)].
  2:{ left. exists e. split; [| exact He].
      unfold refreshAccessToken, logged, try_catch.
      rewrite (bind_throw _ Hv). unfold_monad. cbn. f_equal. }
  destruct (credential w tok) as [stored |] eqn:Hc.
  2:{ left. exists (UnauthorizedError (js "Invalid refresh token") TOKEN_INVALID).
      split; [| cbn; split; [reflexivity | left; reflexivity]].
      unfold refreshAccessToken, logged, try_catch.
      rewrite (bind_ok _ Hv). unfold credential in Hc.
      unfold Prisma.refreshToken.findUniqueWithUser. unfold_monad. cbn.
      rewrite Hc. cbn. f_equal. }
  destruct (RefreshToken.revokedAt stored) as [t |] eqn:Hrev.
  { left.
    exists (UnauthorizedError (js "Refresh token has been revoked")
                              TOKEN_INVALID).
    split; [| cbn; split; [reflexivity | left; reflexivity]].
    unfold refreshAccessToken, logged, try_catch.
    rewrite (bind_ok _ Hv). unfold credential in Hc.
    unfold Prisma.refreshToken.findUniqueWithUser. unfold_monad. cbn.
    rewrite Hc. cbn. rewrite Hrev. cbn. f_equal. }
  destruct (Z.ltb_spec (RefreshToken.expiresAt stored)
              (time (env w) (S (clockReads w)))) as [Hexp | Hexp].
  { left. exists (UnauthorizedError (js "Refresh token expired") TOKEN_EXPIRED).
    split; [| cbn; split; [reflexivity | right; reflexivity]].
    unfold refreshAccessToken, logged, try_catch.
    rewrite (bind_ok _ Hv). unfold credential in Hc.
    unfold Prisma.refreshToken.findUniqueWithUser. unfold_monad. cbn.
    rewrite Hc. cbn. rewrite Hrev. cbn.
    apply Z.ltb_lt in Hexp. rewrite Hexp. cbn. f_equal. }
  right. exists d, stored.
  assert (fst (verifyRefreshToken tok w) = Ok d) as Hfst by now rewrite Hv.
  split; [exact Hfst |]. split; [reflexivity |]. split; [exact Hrev |].
  split; [exact Hexp |].
  destruct (find (Prisma.user.byId _) (users w)) as [u |] eqn:Hu.
  - destruct (credential w (refreshAt w (4 + clockReads w) u)) eqn:Hfresh.
    + destruct (credential_byId w tok stored Hc) as (r' & Hr').
      unfold refreshAccessToken, logged, try_catch.
      rewrite (bind_ok _ Hv). unfold credential in *.
      unfold Prisma.refreshToken.findUniqueWithUser,
        Prisma.refreshToken.update, generateAccessToken,
        generateRefreshToken, jwtConfig, jwt.sign, getTokenExpiry,
        Prisma.refreshToken.create, Prisma.refreshToken.findUnique.
      unfold_monad. cbn.
      rewrite Hc. cbn. rewrite Hrev, Hu. cbn.
      apply Z.ltb_ge in Hexp. rewrite Hexp. cbn.
      rewrite Hr'. cbn.
      rewrite find_map_same by (intro x; apply byToken_apply).
      unfold refreshAt, payloadOf, jwtOf in Hfresh. cbn in Hfresh.
      rewrite Hfresh. cbn. reflexivity.
    + apply (refreshAccessToken_run tok w d stored u); assumption.
  - destruct (credential_byId w tok stored Hc) as (r' & Hr').
    unfold refreshAccessToken, logged, try_catch.
    rewrite (bind_ok _ Hv). unfold credential in *.
    unfold Prisma.refreshToken.findUniqueWithUser,
      Prisma.refreshToken.update.
    unfold_monad. cbn.
    rewrite Hc. cbn. rewrite Hrev, Hu. cbn.
    apply Z.ltb_ge in Hexp. rewrite Hexp. cbn.
    rewrite Hr'. cbn. reflexivity.
Qed.

(** X6: [refreshAccessToken] returns a pair only for a token whose
    signature verifies and whose stored credential exists, is not revoked
    and has not run out at the reading of the clock the service compares
    it with; the pair it returns is signed for the account that owns the
    stored credential, and no account row is written. *)
Theorem refreshAccessToken_requires_live_credential tok w pair :
  fst (refreshAccessToken tok w) = Ok pair ->
  exists d stored u,
    fst (verifyRefreshToken tok w) = Ok d /\
    credential w tok = Some stored /\
    RefreshToken.revokedAt stored = None /\
    time (env w) (S (clockReads w)) <= RefreshToken.expiresAt stored /\
    find (Prisma.user.byId (RefreshToken.userId stored)) (users w) = Some u /\
    pair = mkTokenPair (accessAt w (3 + clockReads w) u)
                       (refreshAt w (4 + clockReads w) u) /\
    users (snd (refreshAccessToken tok w)) = users w.
Proof.
  intro Hok.
  destruct (refreshAccessToken_cases tok w)
    as [(e & Hrun & _) | (d & stored & Hv & Hc & Hrev & Hexp & Hrest)].
  { rewrite Hrun in Hok. discriminate. }
  exists d, stored.
  destruct (find (Prisma.user.byId _) (users w)) as [u |] eqn:Hu;
    [| rewrite Hrest in Hok; discriminate].
  destruct (credential w (refreshAt w (4 + clockReads w) u));
    [rewrite Hrest in Hok; discriminate |].
  exists u. rewrite Hrest in Hok |- *. cbn in Hok. injection Hok as <-.
  repeat split; auto.
Qed.

Lemma refreshAccessToken_requires_live_credential_witness :
  let tok := Sample.agingToken in
  let w := Sample.aging in
  exists d stored u,
    fst (verifyRefreshToken tok w) = Ok d /\
    credential w tok = Some stored /\
    RefreshToken.revokedAt stored = None /\
    time (env w) (S (clockReads w)) <= RefreshToken.expiresAt stored /\
    find (Prisma.user.byId (RefreshToken.userId stored)) (users w) = Some u /\
    mkTokenPair (accessAt w 3 (Sample.demo 0 None))
                (refreshAt w 4 (Sample.demo 0 None))
    = mkTokenPair (accessAt w (3 + clockReads w) u)
                  (refreshAt w (4 + clockReads w) u) /\
    users (snd (refreshAccessToken tok w)) = users w.
Proof.
  assert (fst (refreshAccessToken Sample.agingToken Sample.aging)
          = Ok (mkTokenPair (accessAt Sample.aging 3 (Sample.demo 0 None))
                            (refreshAt Sample.aging 4 (Sample.demo 0 None))))
    as E by (vm_compute; reflexivity).
  intros tok w.
  exact (refreshAccessToken_requires_live_credential tok w _ E).
Defined.

(** X7: whenever [refreshAccessToken] refuses a token with an application
    error, that error is a 401 with code TOKEN_INVALID or TOKEN_EXPIRED,
    and the refusal has written nothing: both tables are as before and the
    trace has gained the error log only. *)
Theorem refreshAccessToken_refusal_writes_nothing tok w e :
  fst (refreshAccessToken tok w) = Throw (AppErr e) ->
  statusCode e = 401 /\
  (errorCode e = TOKEN_INVALID \/ errorCode e = TOKEN_EXPIRED) /\
  users (snd (refreshAccessToken tok w)) = users w /\
  refreshTokens (snd (refreshAccessToken tok w)) = refreshTokens w /\
  trace (snd (refreshAccessToken tok w))
  = trace w ++ [EvLog Error (js "Token refresh failed")].
Proof.
  intro Hthrow.
  destruct (refreshAccessToken_cases tok w)
    as [(e' & Hrun & Hs & Hcode) | (d & stored & _ & _ & _ & _ & Hrest)].
  - rewrite Hrun in Hthrow |- *. cbn in Hthrow. injection Hthrow as <-.
    cbn. auto.
  - exfalso.
    destruct (find (Prisma.user.byId _) (users w)) as [u |];
      [| rewrite Hrest in Hthrow; discriminate].
    destruct (credential w (refreshAt w (4 + clockReads w) u));
      rewrite Hrest in Hthrow; discriminate.
Qed.

Lemma refreshAccessToken_refusal_writes_nothing_witness :
  let tok := Unsigned (js "not-a-token") in
  let w := Sample.aging in
  statusCode (UnauthorizedError (js "Invalid refresh token") TOKEN_INVALID)
  = 401 /\
  (errorCode (UnauthorizedError (js "Invalid refresh token") TOKEN_INVALID)
   = TOKEN_INVALID \/
   errorCode (UnauthorizedError (js "Invalid refresh token") TOKEN_INVALID)
   = TOKEN_EXPIRED) /\
  users (snd (refreshAccessToken tok w)) = users w /\
  refreshTokens (snd (refreshAccessToken tok w)) = refreshTokens w /\
  trace (snd (refreshAccessToken tok w))
  = trace w ++ [EvLog Error (js "Token refresh failed")].
Proof.
  intros tok w.
  apply (refreshAccessToken_refusal_writes_nothing tok w).
  reflexivity.
Defined.

(* ================================================================== *)
(** ** Logout *)

Lemma logout_run tok w :
  logout tok w =
  match credential w tok with
  | Some stored =>
      match RefreshToken.revokedAt stored with
      | None =>
          (Ok tt,
           set_trace
             (trace w ++ [EvUpdate RefreshTokens (RefreshToken.id stored);
                          EvLog Info (js "User logged out")])
             (set_refreshTokens
                (map (Prisma.refreshToken.apply (RefreshToken.id stored)
                        (Prisma.refreshToken.revoke
                           (time (env w) (clockReads w))))
                     (refreshTokens w))
                (set_clockReads (S (clockReads w)) w)))
      | Some _ => (Ok tt, w)
      end
  | None => (Ok tt, w)
  end.
Proof.
  destruct (credential w tok) as [stored |] eqn:Hc.
  - destruct (credential_byId w tok stored Hc) as (r' & Hr').
    unfold credential in Hc.
    unfold logout, Prisma.refreshToken.findUnique, Prisma.refreshToken.update.
    unfold_monad. cbn. rewrite Hc. cbn.
    destruct (RefreshToken.revokedAt stored); cbn; [reflexivity |].
    rewrite Hr'. cbn. f_equal. same_world.
  - unfold credential in Hc.
    unfold logout, Prisma.refreshToken.findUnique.
    unfold_monad. cbn. rewrite Hc. reflexivity.
Qed.

Lemma revoke_self stored t :
  Prisma.refreshToken.apply (RefreshToken.id stored)
    (Prisma.refreshToken.revoke t) stored
  = Prisma.refreshToken.revoke t stored.
Proof.
  unfold Prisma.refreshToken.apply, Prisma.refreshToken.byId.
  now rewrite Nat.eqb_refl.
Qed.

(** After a logout the presented token has no unrevoked credential. *)
Lemma logout_leaves_no_live_credential tok w r :
  credential (snd (logout tok w)) tok = Some r ->
  RefreshToken.revokedAt r <> None.
Proof.
  rewrite logout_run.
  destruct (credential w tok) as [stored |] eqn:Hc; cbn.
  - destruct (RefreshToken.revokedAt stored) as [t |] eqn:Hrev; cbn.
    + rewrite Hc. intro E. injection E as <-. congruence.
    + unfold credential in *. cbn.
      rewrite find_map_same by (intro x; apply byToken_apply).
      rewrite Hc. cbn. rewrite revoke_self.
      intro E. injection E as <-. cbn. discriminate.
  - rewrite Hc. discriminate.
Qed.

(** X8: [logout] never throws (the database answering), and whatever
    token it was given, a [refreshAccessToken] with that token afterwards
    is refused with a 401 of code TOKEN_INVALID or TOKEN_EXPIRED: the
    token has no unrevoked credential any more. *)
Theorem logout_then_refresh_refused tok w :
  let w1 := snd (logout tok w) in
  fst (logout tok w) = Ok tt /\
  (forall r, credential w1 tok = Some r -> RefreshToken.revokedAt r <> None) /\
  exists e,
    fst (refreshAccessToken tok w1) = Throw (AppErr e) /\
    statusCode e = 401 /\
    (errorCode e = TOKEN_INVALID \/ errorCode e = TOKEN_EXPIRED).
Proof.
  cbv zeta. split; [| split].
  - rewrite logout_run.
    destruct (credential w tok) as [stored |]; [| reflexivity].
    destruct (RefreshToken.revokedAt stored); reflexivity.
  - apply logout_leaves_no_live_credential.
  - destruct (refreshAccessToken_cases tok (snd (logout tok w)))
      as [(e & Hrun & He) | (d & stored & _ & Hc & Hrev & _)].
    + exists e. rewrite Hrun. split; [reflexivity | exact He].
    + exfalso.
      exact (logout_leaves_no_live_credential tok w stored Hc Hrev).
Qed.

(** X9: [logout] writes to the credential it was given and to nothing
    else: the accounts are untouched, no credential row is added or
    removed, every row with another id is kept as it is; and a second
    [logout] with the same token changes nothing at all, not even the
    trace. *)
Theorem logout_touches_presented_only tok w :
  let w1 := snd (logout tok w) in
  users w1 = users w /\
  List.length (refreshTokens w1) = List.length (refreshTokens w) /\
  (forall r,
      In r (refreshTokens w) ->
      (forall stored, credential w tok = Some stored ->
                      RefreshToken.id r <> RefreshToken.id stored) ->
      In r (refreshTokens w1)) /\
  logout tok w1 = (Ok tt, w1).
Proof.
  cbv zeta. rewrite (logout_run tok w).
  destruct (credential w tok) as [stored |] eqn:Hc.
  2:{ cbn. repeat split; auto.
      rewrite logout_run, Hc. reflexivity. }
  destruct (RefreshToken.revokedAt stored) as [t |] eqn:Hrev.
  { cbn. repeat split; auto.
    rewrite logout_run, Hc, Hrev. reflexivity. }
  cbn [snd]. split; [reflexivity |]. split; [cbn; apply length_map |].
  split.
  - intros r Hin Hother. cbn. apply in_map_iff. exists r. split; [| exact Hin].
    unfold Prisma.refreshToken.apply, Prisma.refreshToken.byId.
    destruct (Nat.eqb_spec (RefreshToken.id r) (RefreshToken.id stored));
      [| reflexivity].
    exfalso. now apply (Hother stored).
  - rewrite logout_run.
    assert (credential
              (set_trace
                 (trace w ++ [EvUpdate RefreshTokens (RefreshToken.id stored);
                              EvLog Info (js "User logged out")])
                 (set_refreshTokens
                    (map (Prisma.refreshToken.apply (RefreshToken.id stored)
                            (Prisma.refreshToken.revoke
                               (time (env w) (clockReads w))))
                         (refreshTokens w))
                    (set_clockReads (S (clockReads w)) w))) tok
            = Some (Prisma.refreshToken.revoke (time (env w) (clockReads w))
                      stored)) as Hc'.
    { unfold credential in *. cbn.
      rewrite find_map_same by (intro x; apply byToken_apply).
      rewrite Hc. cbn. now rewrite revoke_self. }
    rewrite Hc'. reflexivity.
Qed.

(* ================================================================== *)
(** ** Tokens: the two kinds, and the lifetime *)

Lemma jseqb_eq (a b : jsstring) : Js.eqb a b = true <-> a = b.
Proof.
  revert b. induction a as [| x a IH]; intros [| y b]; simpl;
    try (split; [discriminate | discriminate]); [tauto |].
  rewrite Bool.andb_true_iff, N.eqb_eq, IH.
  split; [intros [-> ->]; reflexivity | intro E; injection E; auto].
Qed.

Lemma jseqb_neq (a b : jsstring) : a <> b -> Js.eqb a b = false.
Proof.
  intro H. destruct (Js.eqb a b) eqn:E; [| reflexivity].
  apply jseqb_eq in E. contradiction.
Qed.

Lemma generateAccessToken_run p w :
  generateAccessToken p w
  = (Ok (Signed (Config.accessSecret (jwtOf w)) p (nowSeconds w)
           (nowSeconds w + expirySeconds (Config.accessExpiry (jwtOf w)))),
     set_clockReads (S (clockReads w)) w).
Proof. reflexivity. Qed.

Lemma generateRefreshToken_run p w :
  generateRefreshToken p w
  = (Ok (Signed (Config.refreshSecret (jwtOf w)) p (nowSeconds w)
           (nowSeconds w + expirySeconds (Config.refreshExpiry (jwtOf w)))),
     set_clockReads (S (clockReads w)) w).
Proof. reflexivity. Qed.

Lemma verifyRefreshToken_other_key w key p issued expires :
  Js.eqb key (Config.refreshSecret (jwtOf w)) = false ->
  verifyRefreshToken (Signed key p issued expires) w
  = (Throw (AppErr (UnauthorizedError (js "Invalid refresh token")
                                      TOKEN_INVALID)),
     set_clockReads (S (clockReads w)) w).
Proof.
  intro Hk. unfold verifyRefreshToken, jwtConfig, jwt.verify.
  unfold_monad. cbn. fold (jwtOf w). rewrite Hk. reflexivity.
Qed.

Lemma verifyAccessToken_other_key w key p issued expires :
  Js.eqb key (Config.accessSecret (jwtOf w)) = false ->
  verifyAccessToken (Signed key p issued expires) w
  = (Throw (AppErr (UnauthorizedError (js "Invalid access token")
                                      TOKEN_INVALID)),
     set_clockReads (S (clockReads w)) w).
Proof.
  intro Hk. unfold verifyAccessToken, jwtConfig, jwt.verify.
  unfold_monad. cbn. fold (jwtOf w). rewrite Hk. reflexivity.
Qed.

Lemma verifyAccessToken_expired w p issued expires :
  expires <= nowSeconds w ->
  verifyAccessToken (Signed (Config.accessSecret (jwtOf w)) p issued expires) w
  = (Throw (AppErr (UnauthorizedError (js "Access token expired")
                                      TOKEN_EXPIRED)),
     set_clockReads (S (clockReads w)) w).
Proof.
  intro H. unfold verifyAccessToken, jwtConfig, jwt.verify, nowSeconds in *.
  unfold_monad. cbn. fold (jwtOf w). rewrite jseqb_refl. cbn.
  apply Z.leb_le in H. rewrite H. reflexivity.
Qed.

(** X10: with two different secrets configured, the two kinds of token
    are not interchangeable, at any time and whatever the store holds: an
    access token is refused by [verifyRefreshToken] and by
    [refreshAccessToken] as TOKEN_INVALID, and a refresh token is refused
    by [verifyAccessToken] as TOKEN_INVALID. *)
Theorem token_kinds_not_interchangeable p w w2 :
  Config.accessSecret (jwtOf w) <> Config.refreshSecret (jwtOf w) ->
  env w2 = env w ->
  (exists access,
      fst (generateAccessToken p w) = Ok access /\
      fst (verifyRefreshToken access w2)
      = Throw (AppErr (UnauthorizedError (js "Invalid refresh token")
                                         TOKEN_INVALID)) /\
      fst (refreshAccessToken access w2)
      = Throw (AppErr (UnauthorizedError (js "Invalid refresh token")
                                         TOKEN_INVALID))) /\
  (exists refresh,
      fst (generateRefreshToken p w) = Ok refresh /\
      fst (verifyAccessToken refresh w2)
      = Throw (AppErr (UnauthorizedError (js "Invalid access token")
                                         TOKEN_INVALID))).
Proof.
  intros Hdiff Henv.
  assert (jwtOf w2 = jwtOf w) as Hj by (unfold jwtOf; now rewrite Henv).
  split.
  - eexists. rewrite generateAccessToken_run. split; [reflexivity |].
    assert (Js.eqb (Config.accessSecret (jwtOf w))
                   (Config.refreshSecret (jwtOf w2)) = false) as Hk
      by (rewrite Hj; now apply jseqb_neq).
    pose proof (verifyRefreshToken_other_key w2 _ p (nowSeconds w)
                  (nowSeconds w
                   + expirySeconds (Config.accessExpiry (jwtOf w))) Hk)
      as Hv.
    split; [now rewrite Hv |].
    unfold refreshAccessToken, logged, try_catch.
    rewrite (bind_throw _ Hv). reflexivity.
  - eexists. rewrite generateRefreshToken_run. split; [reflexivity |].
    rewrite verifyAccessToken_other_key; [reflexivity |].
    rewrite Hj. apply jseqb_neq. congruence.
Qed.

Lemma token_kinds_not_interchangeable_witness :
  let p := mkPayload 1%nat (js "demo@example.com") (js "user") in
  let w := Sample.aging in
  (exists access,
      fst (generateAccessToken p w) = Ok access /\
      fst (verifyRefreshToken access w)
      = Throw (AppErr (UnauthorizedError (js "Invalid refresh token")
                                         TOKEN_INVALID)) /\
      fst (refreshAccessToken access w)
      = Throw (AppErr (UnauthorizedError (js "Invalid refresh token")
                                         TOKEN_INVALID))) /\
  (exists refresh,
      fst (generateRefreshToken p w) = Ok refresh /\
      fst (verifyAccessToken refresh w)
      = Throw (AppErr (UnauthorizedError (js "Invalid access token")
                                         TOKEN_INVALID))).
Proof.
  intros p w.
  apply (token_kinds_not_interchangeable p w w);
    [vm_compute; discriminate | reflexivity].
Defined.

(** X11: a token signed at one reading of the clock is accepted at
    another reading exactly while fewer whole seconds than its configured
    lifetime have gone by since the second it was signed in; accepted, it
    decodes to the very claims that were signed; after that it is refused
    as TOKEN_EXPIRED. This holds for the access token against
    [verifyAccessToken] and for the refresh token against
    [verifyRefreshToken]. *)
Theorem token_lifetime p w w2 :
  env w2 = env w ->
  (exists access,
      fst (generateAccessToken p w) = Ok access /\
      fst (verifyAccessToken access w2)
      = if nowSeconds w2
           <? nowSeconds w + expirySeconds (Config.accessExpiry (jwtOf w))
        then Ok (mkDecoded p (nowSeconds w)
                   (nowSeconds w
                    + expirySeconds (Config.accessExpiry (jwtOf w))))
        else Throw (AppErr (UnauthorizedError (js "Access token expired")
                                              TOKEN_EXPIRED))) /\
  (exists refresh,
      fst (generateRefreshToken p w) = Ok refresh /\
      fst (verifyRefreshToken refresh w2)
      = if nowSeconds w2
           <? nowSeconds w + expirySeconds (Config.refreshExpiry (jwtOf w))
        then Ok (mkDecoded p (nowSeconds w)
                   (nowSeconds w
                    + expirySeconds (Config.refreshExpiry (jwtOf w))))
        else Throw (AppErr (UnauthorizedError (js "Refresh token expired")
                                              TOKEN_EXPIRED))).
Proof.
  intro Henv.
  assert (jwtOf w2 = jwtOf w) as Hj by (unfold jwtOf; now rewrite Henv).
  split.
  - eexists. rewrite generateAccessToken_run. split; [reflexivity |].
    rewrite <- Hj.
    destruct (Z.ltb_spec (nowSeconds w2)
                (nowSeconds w
                 + expirySeconds (Config.accessExpiry (jwtOf w2)))) as [H | H].
    + now rewrite verifyAccessToken_run.
    + now rewrite verifyAccessToken_expired.
  - eexists. rewrite generateRefreshToken_run. split; [reflexivity |].
    rewrite <- Hj.
    destruct (Z.ltb_spec (nowSeconds w2)
                (nowSeconds w
                 + expirySeconds (Config.refreshExpiry (jwtOf w2)))) as [H | H].
    + now rewrite verifyRefreshToken_run.
    + rewrite verifyRefreshToken_expired; [reflexivity | | exact H].
      apply jseqb_refl.
Qed.

Lemma token_lifetime_witness :
  let p := mkPayload 1%nat (js "demo@example.com") (js "user") in
  let w := Sample.aging in
  let w2 := set_clockReads 500 Sample.aging in
  (exists access,
      fst (generateAccessToken p w) = Ok access /\
      fst (verifyAccessToken access w2)
      = if nowSeconds w2
           <? nowSeconds w + expirySeconds (Config.accessExpiry (jwtOf w))
        then Ok (mkDecoded p (nowSeconds w)
                   (nowSeconds w
                    + expirySeconds (Config.accessExpiry (jwtOf w))))
        else Throw (AppErr (UnauthorizedError (js "Access token expired")
                                              TOKEN_EXPIRED))) /\
  (exists refresh,
      fst (generateRefreshToken p w) = Ok refresh /\
      fst (verifyRefreshToken refresh w2)
      = if nowSeconds w2
           <? nowSeconds w + expirySeconds (Config.refreshExpiry (jwtOf w))
        then Ok (mkDecoded p (nowSeconds w)
                   (nowSeconds w
                    + expirySeconds (Config.refreshExpiry (jwtOf w))))
        else Throw (AppErr (UnauthorizedError (js "Refresh token expired")
                                              TOKEN_EXPIRED))).
Proof.
  intros p w w2.
  apply (token_lifetime p w w2). reflexivity.
Defined.

(* ================================================================== *)
(** ** The profile *)




(* ================================================================== *)
(** ** The chat service: who may touch a conversation *)

Lemma getConversation_run uid cid w :
  Chat.getConversation uid cid w =
  match find (Prisma.conversation.byId cid) (conversations w) with
  | None =>
      (Throw conversationNotFound,
       set_trace (trace w ++ [EvLog Error (js "Failed to get conversation")])
                 w)
  | Some c =>
      if Nat.eqb (Conversation.userId c) uid
      then (Ok (c, turnsOf w cid),
            set_trace (trace w ++ [EvLog Info (js "Conversation retrieved")])
                      w)
      else (Throw conversationForbidden,
            set_trace
              (trace w ++ [EvLog Error (js "Failed to get conversation")]) w)
  end.
Proof.
  unfold Chat.getConversation, Prisma.conversation.findUniqueWithMessages,
    turnsOf.
  unfold_monad. cbn.
  destruct (find _ _) as [c |]; cbn; [| reflexivity].
  destruct (Nat.eqb _ _); reflexivity.
Qed.

Lemma find_conversation_id cid l c :
  find (Prisma.conversation.byId cid) l = Some c -> Conversation.id c = cid.
Proof.
  intro H. apply find_some in H. destruct H as [_ H].
  unfold Prisma.conversation.byId in H. now apply Nat.eqb_eq in H.
Qed.

Lemma updateConversationTitle_run uid cid title w :
  Chat.updateConversationTitle uid cid title w =
  match find (Prisma.conversation.byId cid) (conversations w) with
  | None =>
      (Throw conversationNotFound,
       set_trace
         (trace w ++ [EvLog Error (js "Failed to update conversation title")])
         w)
  | Some c =>
      if Nat.eqb (Conversation.userId c) uid
      then (Ok (PrismaChat.conversation.retitle cid title
                  (time (env w) (clockReads w)) c),
            set_trace
              (trace w ++ [EvUpdate Conversations cid;
                           EvLog Info (js "Conversation title updated")])
              (set_conversations
                 (map (PrismaChat.conversation.retitle cid title
                         (time (env w) (clockReads w))) (conversations w))
                 (set_clockReads (S (clockReads w)) w)))
      else (Throw conversationForbidden,
            set_trace
              (trace w
               ++ [EvLog Error (js "Failed to update conversation title")]) w)
  end.
Proof.
  unfold Chat.updateConversationTitle, PrismaChat.conversation.updateTitle,
    PrismaChat.conversation.findUnique.
  unfold_monad. cbn.
  destruct (find _ _) as [c |] eqn:Hc; cbn; [| reflexivity].
  destruct (Nat.eqb _ _); cbn; [| reflexivity].
  rewrite Hc. cbn. f_equal. same_world.
Qed.

Lemma deleteConversation_run uid cid w :
  Chat.deleteConversation uid cid w =
  match find (Prisma.conversation.byId cid) (conversations w) with
  | None =>
      (Throw conversationNotFound,
       set_trace
         (trace w ++ [EvLog Error (js "Failed to delete conversation")]) w)
  | Some c =>
      if Nat.eqb (Conversation.userId c) uid
      then (Ok tt,
            set_trace
              (trace w
               ++ [EvDeleteMany Conversations 1;
                   EvDeleteMany Messages
                     (List.length
                        (filter (Prisma.message.ofConversation cid)
                                (messages w)));
                   EvLog Info (js "Conversation deleted")])
              (set_messages
                 (filter (fun m => negb (Prisma.message.ofConversation cid m))
                         (messages w))
                 (set_conversations
                    (filter (fun x => negb (Prisma.conversation.byId cid x))
                            (conversations w)) w)))
      else (Throw conversationForbidden,
            set_trace
              (trace w ++ [EvLog Error (js "Failed to delete conversation")])
              w)
  end.
Proof.
  unfold Chat.deleteConversation, PrismaChat.conversation.delete,
    PrismaChat.conversation.findUnique.
  unfold_monad. cbn.
  destruct (find _ _) as [c |] eqn:Hc; cbn; [| reflexivity].
  destruct (Nat.eqb _ _); cbn; [| reflexivity].
  rewrite Hc. cbn. f_equal. same_world.
Qed.

Lemma sendMessage_refused_run uid text cid w :
  (forall c, find (Prisma.conversation.byId cid) (conversations w) = Some c ->
             Conversation.userId c <> uid) ->
  chatService.sendMessage (mkSendMessageData uid text (Some cid)) w
  = (Throw (match find (Prisma.conversation.byId cid) (conversations w) with
            | Some _ => conversationForbidden
            | None => conversationNotFound
            end),
     set_trace (trace w ++ [EvLog Error (js "Send message failed")]) w).
Proof.
  intro Hforeign.
  unfold chatService.sendMessage, chatService.resolve,
    Prisma.conversation.findUniqueWithMessages.
  unfold_monad. cbn.
  destruct (find _ _) as [c |] eqn:Hc; cbn; [| reflexivity].
  destruct (Nat.eqb_spec (Conversation.userId c) uid) as [E | E]; cbn;
    [| reflexivity].
  exfalso. now apply (Hforeign c).
Qed.

(** X13: a conversation that does not exist, or that belongs to someone
    else, can neither be read, renamed, deleted nor extended: each of
    [getConversation], [updateConversationTitle], [deleteConversation]
    and [sendMessage] throws CONVERSATION_NOT_FOUND (404) in the first
    case and FORBIDDEN (403) in the second, leaves conversations and
    messages as they were, and has no effect but one error log; in
    particular [sendMessage] stores no turn and makes no outbound call. *)
Theorem foreign_conversation_refused uid cid title text w :
  (forall c, find (Prisma.conversation.byId cid) (conversations w) = Some c ->
             Conversation.userId c <> uid) ->
  let e := match find (Prisma.conversation.byId cid) (conversations w) with
           | Some _ => conversationForbidden
           | None => conversationNotFound
           end in
  refusedWith e (Chat.getConversation uid cid) w /\
  refusedWith e (Chat.updateConversationTitle uid cid title) w /\
  refusedWith e (Chat.deleteConversation uid cid) w /\
  refusedWith e (chatService.sendMessage
                   (mkSendMessageData uid text (Some cid))) w.
Proof.
  intros Hforeign e. subst e. unfold refusedWith.
  rewrite getConversation_run, updateConversationTitle_run,
    deleteConversation_run, (sendMessage_refused_run uid text cid w Hforeign).
  destruct (find _ _) as [c |] eqn:Hc.
  - destruct (Nat.eqb_spec (Conversation.userId c) uid) as [E | E];
      [exfalso; now apply (Hforeign c) |].
    cbn. repeat split; eauto.
  - cbn. repeat split; eauto.
Qed.

Lemma foreign_conversation_refused_witness :
  let w := Scenario.answering in
  refusedWith conversationForbidden (Chat.getConversation 7%nat 21%nat) w /\
  refusedWith conversationForbidden
    (Chat.updateConversationTitle 7%nat 21%nat (js "Mine now")) w /\
  refusedWith conversationForbidden (Chat.deleteConversation 7%nat 21%nat) w /\
  refusedWith conversationForbidden
    (chatService.sendMessage
       (mkSendMessageData 7%nat (js "Hello?") (Some 21%nat))) w.
Proof.
  intro w.
  apply (foreign_conversation_refused 7%nat 21%nat (js "Mine now")
           (js "Hello?") w).
  intros c Hc. cbn in Hc. injection Hc as <-. cbn. discriminate.
Defined.

(* ================================================================== *)
(** ** Deleting and renaming *)

Lemma find_filter_out {A : Type} (p : A -> bool) (l : list A) :
  find p (filter (fun x => negb (p x)) l) = None.
Proof.
  induction l as [| x l IH]; simpl; [reflexivity |].
  destruct (p x) eqn:E; simpl; [exact IH |]. now rewrite E.
Qed.

(** X14: when its owner deletes a conversation, the conversation row and
    every turn of that conversation are gone and nothing else is: the
    other conversations and the turns of the other conversations are kept
    (in their order), accounts and credentials are untouched, and reading
    the conversation afterwards gives CONVERSATION_NOT_FOUND. *)
Theorem deleteConversation_cascades uid cid w c :
  find (Prisma.conversation.byId cid) (conversations w) = Some c ->
  Conversation.userId c = uid ->
  let w' := snd (Chat.deleteConversation uid cid w) in
  fst (Chat.deleteConversation uid cid w) = Ok tt /\
  (forall x, In x (conversations w')
             <-> In x (conversations w) /\ Conversation.id x <> cid) /\
  (forall m, In m (messages w')
             <-> In m (messages w) /\ Message.conversationId m <> cid) /\
  users w' = users w /\
  refreshTokens w' = refreshTokens w /\
  refusedWith conversationNotFound (Chat.getConversation uid cid) w'.
Proof.
  intros Hc Hown w'. subst w'.
  rewrite deleteConversation_run, Hc, Hown, Nat.eqb_refl. cbn [fst snd].
  split; [reflexivity |]. split; [| split].
  - intro x. cbn. rewrite filter_In. unfold Prisma.conversation.byId.
    rewrite Bool.negb_true_iff, Nat.eqb_neq. tauto.
  - intro m. cbn. rewrite filter_In. unfold Prisma.message.ofConversation.
    rewrite Bool.negb_true_iff, Nat.eqb_neq. tauto.
  - split; [reflexivity |]. split; [reflexivity |].
    unfold refusedWith. rewrite getConversation_run. cbn.
    rewrite find_filter_out. cbn. repeat split. eauto.
Qed.

Lemma deleteConversation_cascades_witness :
  let w := Scenario.answering in
  let w' := snd (Chat.deleteConversation 7%nat 20%nat w) in
  fst (Chat.deleteConversation 7%nat 20%nat w) = Ok tt /\
  (forall x, In x (conversations w')
             <-> In x (conversations w) /\ Conversation.id x <> 20%nat) /\
  (forall m, In m (messages w')
             <-> In m (messages w) /\ Message.conversationId m <> 20%nat) /\
  users w' = users w /\
  refreshTokens w' = refreshTokens w /\
  refusedWith conversationNotFound (Chat.getConversation 7%nat 20%nat) w'.
Proof.
  intro w.
  apply (deleteConversation_cascades 7%nat 20%nat w Scenario.mine);
    reflexivity.
Defined.

Lemma deleteMessage_run uid mid w :
  Chat.deleteMessage uid mid w =
  match find (PrismaChat.message.byId mid) (messages w) with
  | None =>
      (Throw messageNotFound,
       set_trace (trace w ++ [EvLog Error (js "Failed to delete message")]) w)
  | Some m =>
      match find (Prisma.conversation.byId (Message.conversationId m))
                 (conversations w) with
      | None =>
          (Throw TypeErr,
           set_trace (trace w ++ [EvLog Error (js "Failed to delete message")])
                     w)
      | Some c =>
          if Nat.eqb (Conversation.userId c) uid
          then (Ok tt,
                set_trace
                  (trace w ++ [EvDeleteMany Messages 1;
                               EvLog Info (js "Message deleted")])
                  (set_messages
                     (filter (fun x => negb (PrismaChat.message.byId mid x))
                             (messages w)) w))
          else (Throw messageForbidden,
                set_trace
                  (trace w ++ [EvLog Error (js "Failed to delete message")]) w)
      end
  end.
Proof.
  unfold Chat.deleteMessage, PrismaChat.message.findUniqueWithConversation,
    PrismaChat.message.delete.
  unfold_monad. cbn.
  destruct (find _ (messages w)) as [m |] eqn:Hm; cbn; [| reflexivity].
  destruct (find _ (conversations w)) as [c |]; cbn; [| reflexivity].
  destruct (Nat.eqb _ _); cbn; [| reflexivity].
  rewrite Hm. cbn. f_equal. same_world.
Qed.

(** X15: [deleteMessage] by the owner of the conversation the turn
    belongs to removes the turns with that id and no other turn (the rest
    keep their order), and it leaves the conversation rows as they are,
    [updatedAt] included. *)
Theorem deleteMessage_removes_that_turn uid mid w m c :
  find (PrismaChat.message.byId mid) (messages w) = Some m ->
  find (Prisma.conversation.byId (Message.conversationId m)) (conversations w)
  = Some c ->
  Conversation.userId c = uid ->
  let w' := snd (Chat.deleteMessage uid mid w) in
  fst (Chat.deleteMessage uid mid w) = Ok tt /\
  messages w'
  = filter (fun x => negb (Nat.eqb (Message.id x) mid)) (messages w) /\
  (forall x, In x (messages w')
             <-> In x (messages w) /\ Message.id x <> mid) /\
  ~ In m (messages w') /\
  conversations w' = conversations w.
Proof.
  intros Hm Hc Hown w'. subst w'.
  rewrite deleteMessage_run, Hm, Hc, Hown, Nat.eqb_refl. cbn [fst snd].
  split; [reflexivity |]. split; [reflexivity |].
  assert (forall x,
             In x (messages
                     (set_trace
                        (trace w ++ [EvDeleteMany Messages 1;
                                     EvLog Info (js "Message deleted")])
                        (set_messages
                           (filter
                              (fun x => negb (PrismaChat.message.byId mid x))
                              (messages w)) w)))
             <-> In x (messages w) /\ Message.id x <> mid) as Hiff.
  { intro x. cbn. rewrite filter_In. unfold PrismaChat.message.byId.
    rewrite Bool.negb_true_iff, Nat.eqb_neq. tauto. }
  split; [exact Hiff |]. split; [| reflexivity].
  intro Hin. apply Hiff in Hin. destruct Hin as [_ Hne].
  apply find_some in Hm. destruct Hm as [_ Hid].
  unfold PrismaChat.message.byId in Hid. apply Nat.eqb_eq in Hid.
  contradiction.
Qed.

Lemma deleteMessage_removes_that_turn_witness :
  let w := Scenario.answering in
  let w' := snd (Chat.deleteMessage 7%nat 31%nat w) in
  fst (Chat.deleteMessage 7%nat 31%nat w) = Ok tt /\
  messages w'
  = filter (fun x => negb (Nat.eqb (Message.id x) 31%nat)) (messages w) /\
  (forall x, In x (messages w')
             <-> In x (messages w) /\ Message.id x <> 31%nat) /\
  ~ In Scenario.answer (messages w') /\
  conversations w' = conversations w.
Proof.
  intro w.
  apply (deleteMessage_removes_that_turn 7%nat 31%nat w Scenario.answer
           Scenario.mine); reflexivity.
Defined.

(** X16: a turn that does not exist, or that belongs to a conversation of
    someone else, cannot be deleted: [deleteMessage] throws
    MESSAGE_NOT_FOUND (404) in the first case and FORBIDDEN (403) in the
    second, and both tables stay as they were. *)
Theorem foreign_message_refused uid mid w :
  (forall m, find (PrismaChat.message.byId mid) (messages w) = Some m ->
             exists c,
               find (Prisma.conversation.byId (Message.conversationId m))
                    (conversations w) = Some c /\
               Conversation.userId c <> uid) ->
  refusedWith
    (match find (PrismaChat.message.byId mid) (messages w) with
     | Some _ => messageForbidden
     | None => messageNotFound
     end)
    (Chat.deleteMessage uid mid) w.
Proof.
  intro Hforeign. unfold refusedWith. rewrite deleteMessage_run.
  destruct (find _ (messages w)) as [m |] eqn:Hm.
  - destruct (Hforeign m eq_refl) as (c & Hc & Hne). rewrite Hc.
    destruct (Nat.eqb_spec (Conversation.userId c) uid) as [E | E];
      [contradiction |].
    cbn. repeat split. eauto.
  - cbn. repeat split. eauto.
Qed.

Lemma foreign_message_refused_witness :
  refusedWith messageForbidden (Chat.deleteMessage 7%nat 32%nat)
              Scenario.answering.
Proof.
  apply (foreign_message_refused 7%nat 32%nat Scenario.answering).
  intros m Hm. cbn in Hm. injection Hm as <-.
  exists Scenario.theirs. split; [reflexivity | discriminate].
Defined.

Lemma conversation_byId_retitle i j title t x :
  Prisma.conversation.byId j (PrismaChat.conversation.retitle i title t x)
  = Prisma.conversation.byId j x.
Proof.
  unfold PrismaChat.conversation.retitle.
  destruct (Prisma.conversation.byId i x); reflexivity.
Qed.

(** X17: [updateConversationTitle] by the owner returns the conversation
    with the new title, the same id, owner and creation time, and
    [updatedAt] set to the reading of the clock; the other conversations
    and all turns are untouched, and reading the conversation afterwards
    returns that row with its turns as before. *)
Theorem updateConversationTitle_renames uid cid title w c :
  find (Prisma.conversation.byId cid) (conversations w) = Some c ->
  Conversation.userId c = uid ->
  let w' := snd (Chat.updateConversationTitle uid cid title w) in
  let c' := Conversation.mk cid uid title (Conversation.createdAt c)
                            (time (env w) (clockReads w)) in
  fst (Chat.updateConversationTitle uid cid title w) = Ok c' /\
  messages w' = messages w /\
  (forall x, In x (conversations w) -> Conversation.id x <> cid ->
             In x (conversations w')) /\
  List.length (conversations w') = List.length (conversations w) /\
  fst (Chat.getConversation uid cid w') = Ok (c', turnsOf w cid).
Proof.
  intros Hc Hown w' c'. subst w' c'.
  pose proof (find_conversation_id _ _ _ Hc) as Hid.
  assert (PrismaChat.conversation.retitle cid title
            (time (env w) (clockReads w)) c
          = Conversation.mk cid uid title (Conversation.createdAt c)
                            (time (env w) (clockReads w))) as Hre.
  { unfold PrismaChat.conversation.retitle, Prisma.conversation.byId.
    rewrite Hid, Nat.eqb_refl, Hown. reflexivity. }
  rewrite updateConversationTitle_run, Hc, Hown, Nat.eqb_refl. cbn [fst snd].
  rewrite Hre. split; [reflexivity |]. split; [reflexivity |].
  split; [| split].
  - intros x Hin Hne. cbn. apply in_map_iff. exists x. split; [| exact Hin].
    unfold PrismaChat.conversation.retitle, Prisma.conversation.byId.
    apply Nat.eqb_neq in Hne. now rewrite Hne.
  - cbn. apply length_map.
  - rewrite getConversation_run. cbn.
    rewrite find_map_same by (intro x; apply conversation_byId_retitle).
    rewrite Hc. cbn. rewrite Hre. cbn. rewrite Nat.eqb_refl. reflexivity.
Qed.

Lemma updateConversationTitle_renames_witness :
  let w := Scenario.answering in
  let w' := snd (Chat.updateConversationTitle 7%nat 20%nat
                   (js "Past perfect") w) in
  let c' := Conversation.mk 20%nat 7%nat (js "Past perfect")
                            (Sample.noon - 7200000) Sample.noon in
  fst (Chat.updateConversationTitle 7%nat 20%nat (js "Past perfect") w)
  = Ok c' /\
  messages w' = messages w /\
  (forall x, In x (conversations w) -> Conversation.id x <> 20%nat ->
             In x (conversations w')) /\
  List.length (conversations w') = List.length (conversations w) /\
  fst (Chat.getConversation 7%nat 20%nat w') = Ok (c', turnsOf w 20%nat).
Proof.
  intro w.
  apply (updateConversationTitle_renames 7%nat 20%nat (js "Past perfect") w
           Scenario.mine); reflexivity.
Defined.

(* ================================================================== *)
(** ** Turns in the order of their timestamps *)


Lemma message_insert_In m l x :
  In x (Prisma.message.insert m l) <-> x = m \/ In x l.
Proof.
  induction l as [| y l IH]; simpl; [intuition |].
  destruct (Message.timestamp m <? Message.timestamp y); simpl.
  - intuition.
  - rewrite IH. intuition.
Qed.

Lemma message_fold_In l : forall acc x,
  In x (fold_left (fun a m => Prisma.message.insert m a) l acc)
  <-> In x acc \/ In x l.
Proof.
  induction l as [| m l IH]; intros acc x; simpl; [intuition |].
  rewrite IH, message_insert_In. intuition.
Qed.

Lemma orderByTimestamp_In l x :
  In x (Prisma.message.orderByTimestamp l) <-> In x l.
Proof.
  unfold Prisma.message.orderByTimestamp. rewrite message_fold_In.
  simpl. intuition.
Qed.


(* ================================================================== *)
(** ** Creating a conversation *)




(* ================================================================== *)
(** ** The history, page by page *)

Lemma conversation_insert_In c l x :
  In x (PrismaChat.conversation.insert c l) <-> x = c \/ In x l.
Proof.
  induction l as [| y l IH]; simpl; [intuition |].
  destruct (Conversation.updatedAt y <? Conversation.updatedAt c); simpl.
  - intuition.
  - rewrite IH. intuition.
Qed.

Lemma conversation_insert_length c l :
  List.length (PrismaChat.conversation.insert c l) = S (List.length l).
Proof.
  induction l as [| y l IH]; simpl; [reflexivity |].
  destruct (Conversation.updatedAt y <? Conversation.updatedAt c); simpl;
    [reflexivity | now rewrite IH].
Qed.

Lemma conversation_fold_In l : forall acc x,
  In x (fold_left (fun a c => PrismaChat.conversation.insert c a) l acc)
  <-> In x acc \/ In x l.
Proof.
  induction l as [| c l IH]; intros acc x; simpl; [intuition |].
  rewrite IH, conversation_insert_In. intuition.
Qed.

Lemma conversation_fold_length l : forall acc,
  List.length (fold_left (fun a c => PrismaChat.conversation.insert c a) l acc)
  = (List.length acc + List.length l)%nat.
Proof.
  induction l as [| c l IH]; intro acc; simpl; [lia |].
  rewrite IH, conversation_insert_length. lia.
Qed.

Lemma conversation_insert_sorted c l :
  newestFirst l -> newestFirst (PrismaChat.conversation.insert c l).
Proof.
  induction l as [| y l IH]; simpl.
  - intros _. split; [intros x [] | exact I].
  - intros [Hy Hl].
    destruct (Z.ltb_spec (Conversation.updatedAt y) (Conversation.updatedAt c))
      as [Hlt | Hge]; simpl.
    + split; [| split; assumption].
      intros x [<- | Hx]; [lia |]. specialize (Hy x Hx). lia.
    + split; [| exact (IH Hl)].
      intros x Hx. apply conversation_insert_In in Hx.
      destruct Hx as [-> | Hx]; [exact Hge | exact (Hy x Hx)].
Qed.

Lemma conversation_fold_sorted l : forall acc,
  newestFirst acc ->
  newestFirst (fold_left (fun a c => PrismaChat.conversation.insert c a) l acc).
Proof.
  induction l as [| c l IH]; intros acc H; simpl; [exact H |].
  apply IH. now apply conversation_insert_sorted.
Qed.

Lemma firstn_member {A : Type} n : forall (l : list A) x,
  In x (firstn n l) -> In x l.
Proof.
  induction n as [| n IH]; intros [| y l] x; simpl; try tauto.
  intros [-> | H]; [now left | right; now apply IH].
Qed.

Lemma skipn_member {A : Type} n : forall (l : list A) x,
  In x (skipn n l) -> In x l.
Proof.
  induction n as [| n IH]; intros [| y l] x; simpl; auto.
Qed.

Lemma newestFirst_skipn n : forall l, newestFirst l -> newestFirst (skipn n l).
Proof.
  induction n as [| n IH]; intros [| x l] H; simpl; auto.
  apply IH. exact (proj2 H).
Qed.

Lemma newestFirst_firstn n : forall l, newestFirst l -> newestFirst (firstn n l).
Proof.
  induction n as [| n IH]; intros [| x l] H; simpl; auto.
  destruct H as [Hx Hl]. split; [| exact (IH l Hl)].
  intros y Hy. apply Hx. now apply firstn_member in Hy.
Qed.

Lemma getConversationHistory_run uid page limit w :
  Chat.getConversationHistory uid page limit w =
  (Ok (firstn (Pos.to_nat limit)
         (skipn ((Pos.to_nat page - 1) * Pos.to_nat limit)
            (PrismaChat.conversation.orderByUpdatedAtDesc
               (filter (PrismaChat.conversation.ownedBy uid)
                       (conversations w)))),
       List.length (filter (PrismaChat.conversation.ownedBy uid)
                           (conversations w))),
   set_trace (trace w ++ [EvLog Info (js "Conversation history retrieved")])
             w).
Proof. reflexivity. Qed.

(** X19: [getConversationHistory] never throws (the database answering)
    and writes nothing. The total it returns is the number of
    conversations of the caller, whatever the page asked for; the page
    holds conversations of the caller only, newest [updatedAt] first, and
    as many of them as are left after the pages before it, at most
    [limit]; it is non-empty exactly for the pages 1 .. [totalPages], the
    number of pages the response reports ([Math.ceil(total / limit)]). *)
Theorem getConversationHistory_pages uid page limit w :
  exists rows total,
    Chat.getConversationHistory uid page limit w
    = (Ok (rows, total),
       set_trace
         (trace w ++ [EvLog Info (js "Conversation history retrieved")]) w) /\
    total = List.length (filter (PrismaChat.conversation.ownedBy uid)
                                (conversations w)) /\
    List.length rows
    = Nat.min (Pos.to_nat limit)
              (total - (Pos.to_nat page - 1) * Pos.to_nat limit) /\
    (forall c, In c rows ->
               In c (conversations w) /\ Conversation.userId c = uid) /\
    newestFirst rows /\
    (rows <> [] <-> Z.pos page <= totalPages (pagination page limit total)).
Proof.
  rewrite getConversationHistory_run.
  set (mine := filter (PrismaChat.conversation.ownedBy uid) (conversations w)).
  set (sorted := PrismaChat.conversation.orderByUpdatedAtDesc mine).
  assert (List.length sorted = List.length mine) as Hlen.
  { unfold sorted, PrismaChat.conversation.orderByUpdatedAtDesc.
    now rewrite conversation_fold_length. }
  assert (List.length
            (firstn (Pos.to_nat limit)
               (skipn ((Pos.to_nat page - 1) * Pos.to_nat limit) sorted))
          = Nat.min (Pos.to_nat limit)
              (List.length mine - (Pos.to_nat page - 1) * Pos.to_nat limit))
    as Hrows by (now rewrite length_firstn, length_skipn, Hlen).
  do 2 eexists. split; [reflexivity |]. split; [reflexivity |].
  split; [exact Hrows |]. split; [| split].
  - intros c Hc. apply firstn_member, skipn_member in Hc.
    unfold sorted, PrismaChat.conversation.orderByUpdatedAtDesc in Hc.
    apply conversation_fold_In in Hc. destruct Hc as [[] | Hc].
    unfold mine in Hc. apply filter_In in Hc. destruct Hc as [Hin Hown].
    unfold PrismaChat.conversation.ownedBy in Hown.
    apply Nat.eqb_eq in Hown. auto.
  - apply newestFirst_firstn, newestFirst_skipn.
    unfold sorted, PrismaChat.conversation.orderByUpdatedAtDesc.
    apply conversation_fold_sorted. exact I.
  - cbn [totalPages pagination].
    pose proof (ceilDiv_bounds (Z.of_nat (List.length mine)) (Z.pos limit)
                  (Pos2Z.is_pos limit)) as Hceil.
    pose proof (Pos2Nat.is_pos limit) as Hl.
    pose proof (Pos2Nat.is_pos page) as Hp.
    rewrite <- (positive_nat_Z limit) in Hceil |- *.
    rewrite <- (positive_nat_Z page).
    set (L := Pos.to_nat limit) in *. set (P := Pos.to_nat page) in *.
    set (T := List.length mine) in *.
    set (C := ceilDiv (Z.of_nat T) (Z.of_nat L)) in *.
    assert (Z.of_nat L * (Z.of_nat P - 1) = Z.of_nat ((P - 1) * L)) as E
      by (rewrite Nat2Z.inj_mul, Nat2Z.inj_sub by lia; lia).
    split.
    + intro Hne.
      assert (List.length
                (firstn L (skipn ((P - 1) * L) sorted)) <> 0%nat) as Hn
        by (destruct (firstn L _); [contradiction | discriminate]).
      rewrite Hrows in Hn.
      assert ((P - 1) * L < T)%nat as Hlt by lia.
      apply Z.nlt_ge. intro Hc.
      assert (Z.of_nat L * C <= Z.of_nat L * (Z.of_nat P - 1)) as Hm
        by (apply Z.mul_le_mono_nonneg_l; lia).
      lia.
    + intros Hle Hnil.
      assert (List.length (firstn L (skipn ((P - 1) * L) sorted)) = 0%nat)
        as Hz by now rewrite Hnil.
      rewrite Hrows in Hz.
      assert (T <= (P - 1) * L)%nat as Hge by lia.
      assert (Z.of_nat L * (Z.of_nat P - 1) <= Z.of_nat L * (C - 1)) as Hm
        by (apply Z.mul_le_mono_nonneg_l; lia).
      lia.
Qed.

(* ================================================================== *)
(** ** The agent client: the reply *)

(** What the agent client returns for a 2xx answer whose [response] is a
    string. *)
Lemma agentClient_string_reply_run uid m h w r d s :
  fetch (env w) (agentRequest w h m) = Responds r ->
  ok r = true ->
  responseBody r = Json d ->
  response d = JStr s ->
  agentClient.sendMessage uid m h w
  = (Ok (mkAgentResponse (JStr s) (detectMessageFormat s)
           (Some (mkMetadata (js "llm-backend-v1")
                    (Num (Z.of_nat (Js.length s) / 4))
                    (Some (timesHundred (iterations d)))))),
     set_trace (trace w ++ [EvLog Info (js "LLM agent processing message");
                            EvFetch (agentRequest w h m);
                            EvLog Info (js "LLM agent response received")])
               w).
Proof.
  intros Hf Hok Hb Hs.
  unfold agentClient.sendMessage, doFetch, json, fieldsOf, agentRequest in *.
  unfold_monad. cbn. rewrite Hf. cbn. rewrite Hok. cbn. rewrite Hb. cbn.
  rewrite Hs. cbn. f_equal. same_world.
Qed.

(** Whatever the service does, the agent client returns, makes one
    outbound call, and writes to the trace only. *)
Lemma agentClient_run uid m h w :
  exists a after,
    agentClient.sendMessage uid m h w =
    (Ok a,
     set_trace (trace w ++ EvLog Info (js "LLM agent processing message")
                  :: EvFetch (agentRequest w h m) :: after) w) /\
    fetchesOf after = [] /\
    agentFormat a <> FCode.
Proof.
  assert (forall s, detectMessageFormat s <> FCode) as Hfmt.
  { intro s. destruct (detect_text_or_markdown s) as [-> | ->]; discriminate. }
  unfold agentClient.sendMessage, doFetch, json, fieldsOf, agentRequest.
  unfold_monad. cbn.
  destruct (fetch _ _) as [timedOut | r]; cbn.
  - do 2 eexists. split; [f_equal; same_world |]. split; [reflexivity |].
    discriminate.
  - destruct (ok r); cbn.
    + destruct (responseBody r) as [| | d]; cbn.
      * do 2 eexists. split; [f_equal; same_world |].
        split; [reflexivity | discriminate].
      * do 2 eexists. split; [f_equal; same_world |].
        split; [reflexivity | discriminate].
      * destruct (response d); cbn; do 2 eexists;
          (split; [f_equal; same_world |]);
          (split; [reflexivity |]); cbn; try discriminate; apply Hfmt.
    + do 2 eexists. split; [f_equal; same_world |].
      split; [reflexivity | discriminate].
Qed.

(** X20: when the LLM service answers 2xx with a JSON body whose
    [response] is a string, the agent client returns that string as the
    content, tagged ['markdown'] exactly when one of the markdown patterns
    occurs in it and ['text'] otherwise, with the token estimate
    [floor(length / 4)] and the processing time [iterations * 100] (not a
    number when the body has no [iterations]); it made exactly one
    outbound call, carrying the history turn by turn followed by the new
    message as a user turn, and it touched neither the tables nor the
    clock. *)
Theorem agentClient_reply uid m h w r d s :
  fetch (env w) (agentRequest w h m) = Responds r ->
  ok r = true ->
  responseBody r = Json d ->
  response d = JStr s ->
  let w' := snd (agentClient.sendMessage uid m h w) in
  exists format,
    fst (agentClient.sendMessage uid m h w)
    = Ok (mkAgentResponse (JStr s) format
            (Some (mkMetadata (js "llm-backend-v1")
                     (Num (Z.of_nat (Js.length s) / 4))
                     (Some (match iterations d with
                            | Some n => Num (n * 100)
                            | None => NaN
                            end))))) /\
    (format = FMarkdown <-> exists p, In p markdownPatterns /\ occurs p s) /\
    (format = FText <-> ~ exists p, In p markdownPatterns /\ occurs p s) /\
    (exists req,
        fetchesOf (addedBy (agentClient.sendMessage uid m h) w)
        = [EvFetch req] /\
        requestMessages req = map llmTurn h ++ [mkLLMMessage user m]) /\
    users w' = users w /\ refreshTokens w' = refreshTokens w /\
    conversations w' = conversations w /\ messages w' = messages w /\
    clockReads w' = clockReads w.
Proof.
  intros Hf Hok Hb Hs w'. subst w'.
  unfold addedBy.
  rewrite (agentClient_string_reply_run uid m h w r d s Hf Hok Hb Hs).
  cbn [fst snd]. exists (detectMessageFormat s).
  split; [reflexivity |]. split; [apply detect_markdown_iff |].
  split.
  { rewrite <- detect_markdown_iff.
    destruct (detect_text_or_markdown s) as [E | E]; rewrite E;
      split; congruence. }
  split.
  { eexists. cbn [trace set_trace]. rewrite skipn_app, skipn_all, Nat.sub_diag.
    cbn. split; reflexivity. }
  cbn. repeat split.
Qed.

Lemma agentClient_reply_witness :
  let w := Scenario.answering in
  let h := [Scenario.question; Scenario.answer] in
  let m := js "And the past perfect continuous?" in
  let w' := snd (agentClient.sendMessage 7%nat m h w) in
  exists format,
    fst (agentClient.sendMessage 7%nat m h w)
    = Ok (mkAgentResponse (JStr Scenario.reply) format
            (Some (mkMetadata (js "llm-backend-v1")
                     (Num (Z.of_nat (Js.length Scenario.reply) / 4))
                     (Some (Num (1 * 100)))))) /\
    (format = FMarkdown
     <-> exists p, In p markdownPatterns /\ occurs p Scenario.reply) /\
    (format = FText
     <-> ~ exists p, In p markdownPatterns /\ occurs p Scenario.reply) /\
    (exists req,
        fetchesOf (addedBy (agentClient.sendMessage 7%nat m h) w)
        = [EvFetch req] /\
        requestMessages req = map llmTurn h ++ [mkLLMMessage user m]) /\
    users w' = users w /\ refreshTokens w' = refreshTokens w /\
    conversations w' = conversations w /\ messages w' = messages w /\
    clockReads w' = clockReads w.
Proof.
  intros w h m.
  apply (agentClient_reply 7%nat m h w
           (mkHttpResponse 200 (js "OK")
              (Json (mkLLMResponse (JStr Scenario.reply) (Some 0) (Some 1))))
           (mkLLMResponse (JStr Scenario.reply) (Some 0) (Some 1))
           Scenario.reply); reflexivity.
Defined.

(* ================================================================== *)
(** ** The message pipeline, once the conversation is resolved *)


(** From the resolved conversation on: the user turn is stored, the
    agent client is called with the history, and either the reply is a
    string and both turns end in the table, or the insertion of the reply
    is refused. *)
Lemma sendMessage_from_resolve data w c h w1 c1 :
  chatService.resolve data w = (Ok (c, h), w1) ->
  find (Prisma.conversation.byId (Conversation.id c)) (conversations w1)
  = Some c1 ->
  exists a after,
    fetchesOf after = [] /\
    agentFormat a <> FCode /\
    let um := newMessage w1 (Conversation.id c) user (messageText data)
                FText None in
    match agentContent a with
    | JStr s =>
        let am := Message.mk (S (nextId w1)) (Conversation.id c) assistant s
                    (agentFormat a) sent
                    (time (env w1) (S (clockReads w1))) (agentMetadata a) in
        chatService.sendMessage data w =
        (Ok (mkMessageResponse (Conversation.id c) um am),
         set_trace
           (trace w1
            ++ EvCreate Messages (nextId w1)
            :: EvLog Info (js "LLM agent processing message")
            :: EvFetch (agentRequest w1 h (messageText data))
            :: after
            ++ [EvCreate Messages (S (nextId w1));
                EvUpdate Conversations (Conversation.id c);
                EvLog Info (js "Message sent and response received")])
           (set_messages (messages w1 ++ [um; am])
              (set_conversations
                 (map (Prisma.conversation.stamp (Conversation.id c)
                         (time (env w1) (S (S (clockReads w1)))))
                      (conversations w1))
                 (set_clockReads (3 + clockReads w1)
                    (set_nextId (S (S (nextId w1))) w1)))))
    | _ =>
        chatService.sendMessage data w =
        (Throw (PrismaErr ValidationFailure),
         set_trace
           (trace w1
            ++ EvCreate Messages (nextId w1)
            :: EvLog Info (js "LLM agent processing message")
            :: EvFetch (agentRequest w1 h (messageText data))
            :: after
            ++ [EvLog Error (js "Send message failed")])
           (set_messages (messages w1 ++ [um])
              (set_clockReads (S (clockReads w1))
                 (set_nextId (S (nextId w1)) w1))))
    end.
Proof.
  intros Hrun Hc.
  unfold chatService.sendMessage, logged, try_catch.
  rewrite (bind_ok _ Hrun). cbn [fst snd].
  rewrite (bind_ok _ (message_create_run _ _ _ _ _ _)).
  match goal with
  | |- context [bind (agentClient.sendMessage ?u ?m ?hh) _ ?ww] =>
      destruct (agentClient_run u m hh ww) as (a & after & Hagent & Hno & Hfmt)
  end.
  exists a, after. split; [exact Hno |]. split; [exact Hfmt |].
  rewrite (bind_ok _ Hagent). clear Hagent. cbv zeta.
  destruct (agentContent a) as [| | b | z | text] eqn:Ea.
  1-4: unfold Prisma.message.create; unfold_monad; cbn;
    f_equal; apply world_eq; cbn; repeat rewrite <- app_assoc; reflexivity.
  rewrite (bind_ok _ (message_create_run _ _ _ _ _ _)).
  unfold Prisma.conversation.updateUpdatedAt.
  unfold_monad. cbn. rewrite Hc. cbn.
  f_equal. apply world_eq; cbn; repeat rewrite <- app_assoc; reflexivity.
Qed.

Lemma resolve_existing_run uid text cid w c :
  find (Prisma.conversation.byId cid) (conversations w) = Some c ->
  Conversation.userId c = uid ->
  chatService.resolve (mkSendMessageData uid text (Some cid)) w
  = (Ok (c, turnsOf w cid), w).
Proof.
  intros Hc Hown.
  unfold chatService.resolve, Prisma.conversation.findUniqueWithMessages,
    turnsOf.
  unfold_monad. cbn. rewrite Hc. cbn. rewrite Hown, Nat.eqb_refl.
  reflexivity.
Qed.


Lemma fetchesOf_app l l' : fetchesOf (l ++ l') = fetchesOf l ++ fetchesOf l'.
Proof. apply filter_app. Qed.

(** A call that returns had its conversation resolved. *)
Lemma sendMessage_ok_resolves data w r :
  fst (chatService.sendMessage data w) = Ok r -> resolves data w.
Proof.
  destruct data as [uid text [cid |]]; unfold resolves; cbn; [| auto].
  intro Hok.
  destruct (find (Prisma.conversation.byId cid) (conversations w)) as [c |]
    eqn:Hc.
  - destruct (Nat.eq_dec (Conversation.userId c) uid) as [E | E]; [eauto |].
    rewrite sendMessage_refused_run in Hok; [discriminate |].
    intros c' Hc'. congruence.
  - rewrite sendMessage_refused_run in Hok; [discriminate |].
    intros c' Hc'. congruence.
Qed.





(* ================================================================== *)
(** ** Registration, then login *)

(** X23: an account that has just been registered can log in with the
    password it was registered with and with its address in any letter
    case that has the same lower-case form, provided bcrypt accepts the
    password against its own hash and the refresh token signed for the
    login is not yet a stored token value: the login returns the same
    user summary as the registration did and appends a second credential
    for the same account. *)
Theorem register_then_login data w resp w1 address :
  register data w = (Ok resp, w1) ->
  toLowerCase (env w) address = toLowerCase (env w) (registerEmail data) ->
  bcryptCompare (env w) (registerPassword data)
    (bcryptHash (env w) (registerPassword data)
       (Config.bcryptRounds (Config.security (config (env w))))) = true ->
  credential w1 (refreshAt w1 (3 + clockReads w1) (registeredUser data w))
  = None ->
  exists resp' w2 row,
    login (mkLoginData address (registerPassword data)) w1 = (Ok resp', w2) /\
    authUser resp' = authUser resp /\
    summaryEmail (authUser resp')
    = toLowerCase (env w) (registerEmail data) /\
    refreshTokens w2 = refreshTokens w1 ++ [row] /\
    RefreshToken.token row = refreshToken resp' /\
    RefreshToken.userId row = summaryId (authUser resp) /\
    RefreshToken.revokedAt row = None.
Proof.
  intros Hreg Hsame Hcmp Hfresh.
  destruct (register_ok data w resp w1 Hreg) as (Hnone & Husers & Henv & ->).
  assert (account w1 address = Some (registeredUser data w)) as Ha.
  { unfold account in *. rewrite Henv, Husers, Hsame.
    rewrite find_app_none by exact Hnone.
    cbn. unfold Prisma.user.byEmail. cbn. now rewrite jseqb_refl. }
  pose proof (login_ok_run (mkLoginData address (registerPassword data)) w1
                (registeredUser data w) Ha eq_refl) as Hrun.
  cbn [loginPassword loginEmail] in Hrun. rewrite Henv in Hrun at 1.
  specialize (Hrun Hcmp Hfresh).
  do 3 eexists. split; [exact Hrun |]. cbn. repeat split.
Qed.

Lemma register_then_login_witness :
  let w := Sample.empty (Sample.runtime (Sample.ticking Sample.noon 400)
                                        Sample.unreachable) in
  let w1 := snd (register Sample.newcomer w) in
  exists resp resp' w2 row,
    fst (register Sample.newcomer w) = Ok resp /\
    login (mkLoginData (js "ADA@Example.Com") (js "Password123!")) w1
    = (Ok resp', w2) /\
    authUser resp' = authUser resp /\
    summaryEmail (authUser resp')
    = toLowerCase (env w) (registerEmail Sample.newcomer) /\
    refreshTokens w2 = refreshTokens w1 ++ [row] /\
    RefreshToken.token row = refreshToken resp' /\
    RefreshToken.userId row = summaryId (authUser resp) /\
    RefreshToken.revokedAt row = None.
Proof.
  assert (exists resp,
             fst (register Sample.newcomer
                    (Sample.empty
                       (Sample.runtime (Sample.ticking Sample.noon 400)
                                       Sample.unreachable))) = Ok resp)
    as (resp & E) by (eexists; vm_compute; reflexivity).
  assert (credential
            (snd (register Sample.newcomer
                    (Sample.empty
                       (Sample.runtime (Sample.ticking Sample.noon 400)
                                       Sample.unreachable))))
            (refreshAt
               (snd (register Sample.newcomer
                       (Sample.empty
                          (Sample.runtime (Sample.ticking Sample.noon 400)
                                          Sample.unreachable))))
               (3 + clockReads
                      (snd (register Sample.newcomer
                              (Sample.empty
                                 (Sample.runtime
                                    (Sample.ticking Sample.noon 400)
                                    Sample.unreachable)))))
               (registeredUser Sample.newcomer
                  (Sample.empty
                     (Sample.runtime (Sample.ticking Sample.noon 400)
                                     Sample.unreachable))))
          = None) as Hfresh by (vm_compute; reflexivity).
  intros w w1. exists resp.
  destruct (register_then_login Sample.newcomer w resp w1
              (js "ADA@Example.Com")
              (run_ok (register Sample.newcomer) w resp E)
              eq_refl eq_refl Hfresh) as (resp' & w2 & row & H).
  exists resp', w2, row. split; [exact E | exact H].
Defined.

(* ================================================================== *)
(** ** The two expiries of a refresh token *)





(* ================================================================== *)
(** ** What the client sees when [sendMessage] fails *)



(* ================================================================== *)
(** ** utils/validation *)

Lemma testWhole_spec : forall s r, testWhole r s = true <-> matches r s.
Proof.
  induction s as [| c s IH]; intro r; simpl.
  - apply RegexFacts.nullable_matches.
  - rewrite IH. apply RegexFacts.deriv_matches.
Qed.

Lemma matches_seq r1 r2 s :
  matches (Seq r1 r2) s <->
  exists s1 s2, s = s1 ++ s2 /\ matches r1 s1 /\ matches r2 s2.
Proof.
  split.
  - intro H. inversion H; subst. eauto.
  - intros (s1 & s2 & -> & H1 & H2). now constructor.
Qed.

Lemma matches_cls k s :
  matches (Cls k) s <-> exists c, s = [c] /\ in_cls k c = true.
Proof.
  split.
  - intro H. inversion H; subst. eauto.
  - intros (c & -> & H). now constructor.
Qed.







(** The UUID the unit test of [isValidUUID] expects to be accepted is of
    version 1, and is refused. *)
Example isValidUUID_refuses_test_uuid :
  isValidUUID testUuid = false /\ nth_error testUuid 14 = Some 49%N.
Proof. split; vm_compute; reflexivity. Qed.

Lemma trimStart_member s c : In c (trimStart s) -> In c s.
Proof.
  induction s as [| x s IH]; simpl; [tauto |].
  destruct (is_space x); simpl; tauto.
Qed.

Lemma trimEnd_member s c : In c (trimEnd s) -> In c s.
Proof.
  unfold trimEnd. intro H. apply in_rev in H. apply trimStart_member in H.
  now apply in_rev.
Qed.

Lemma trimStart_idem s : trimStart (trimStart s) = trimStart s.
Proof.
  induction s as [| x s IH]; simpl; [reflexivity |].
  destruct (is_space x) eqn:E; [exact IH |]. simpl. now rewrite E.
Qed.

Lemma trimStart_snoc s c :
  is_space c = false -> trimStart (s ++ [c]) = trimStart s ++ [c].
Proof.
  intro Hc. induction s as [| x s IH]; simpl.
  - now rewrite Hc.
  - destruct (is_space x); [exact IH | reflexivity].
Qed.

Lemma trimEnd_cons c s :
  is_space c = false -> trimEnd (c :: s) = c :: trimEnd s.
Proof.
  intro Hc. unfold trimEnd. simpl.
  rewrite trimStart_snoc by exact Hc. rewrite rev_app_distr. reflexivity.
Qed.

Lemma trimEnd_idem s : trimEnd (trimEnd s) = trimEnd s.
Proof.
  unfold trimEnd. now rewrite rev_involutive, trimStart_idem.
Qed.

Lemma trimStart_head s :
  match trimStart s with
  | [] => True
  | c :: _ => is_space c = false
  end.
Proof.
  induction s as [| x s IH]; simpl; [exact I |].
  destruct (is_space x) eqn:E; [exact IH | exact E].
Qed.

Lemma trim_head s :
  match trim s with
  | [] => True
  | c :: _ => is_space c = false
  end.
Proof.
  unfold trim. pose proof (trimStart_head s) as H.
  destruct (trimStart s) as [| c r]; [exact I |].
  now rewrite trimEnd_cons.
Qed.

Lemma trim_last s :
  match rev (trim s) with
  | [] => True
  | c :: _ => is_space c = false
  end.
Proof.
  unfold trim, trimEnd. rewrite rev_involutive. apply trimStart_head.
Qed.

Lemma trimStart_fixed s :
  match s with
  | [] => True
  | c :: _ => is_space c = false
  end ->
  trimStart s = s.
Proof.
  destruct s as [| c s]; simpl; [reflexivity |]. now intros ->.
Qed.

Lemma trim_idem s : trim (trim s) = trim s.
Proof.
  unfold trim at 1.
  rewrite (trimStart_fixed (trim s) (trim_head s)).
  unfold trim. apply trimEnd_idem.
Qed.

Lemma filter_fixed {A : Type} (p : A -> bool) (l : list A) :
  (forall x, In x l -> p x = true) -> filter p l = l.
Proof.
  induction l as [| x l IH]; intro H; simpl; [reflexivity |].
  rewrite (H x (or_introl eq_refl)). f_equal. apply IH.
  intros y Hy. apply H. now right.
Qed.

(** X27: what [sanitizeString] returns holds neither [<] nor [>], and
    neither begins nor ends with white space; every code unit of it comes
    from the input; sanitizing again changes nothing; and an input that
    already is of that form is returned as it is. *)
Theorem sanitizeString_clean input :
  let out := sanitizeString input in
  (forall c, In c out -> c <> 60%N /\ c <> 62%N /\ In c input) /\
  match out with
  | [] => True
  | c :: _ => is_space c = false
  end /\
  match rev out with
  | [] => True
  | c :: _ => is_space c = false
  end /\
  sanitizeString out = out /\
  ((forall c, In c input -> c <> 60%N /\ c <> 62%N) ->
   trim input = input -> out = input).
Proof.
  cbv zeta. unfold sanitizeString.
  set (kept := filter (fun c => negb (angleBracket c)) input).
  assert (forall c, In c (trim kept) ->
                    negb (angleBracket c) = true /\ In c input) as Hin.
  { intros c Hc. unfold trim in Hc.
    apply trimEnd_member, trimStart_member in Hc.
    unfold kept in Hc. apply filter_In in Hc. tauto. }
  assert (forall c, negb (angleBracket c) = true <-> c <> 60%N /\ c <> 62%N)
    as Hangle.
  { intro c. unfold angleBracket, mem.
    change (js "<>") with [60; 62]%N. cbn [existsb].
    rewrite Bool.negb_true_iff, Bool.orb_false_r, Bool.orb_false_iff.
    now rewrite !N.eqb_neq. }
  split; [| split; [| split; [| split]]].
  - intros c Hc. destruct (Hin c Hc) as [Hn Hi].
    apply Hangle in Hn. tauto.
  - apply trim_head.
  - apply trim_last.
  - rewrite filter_fixed by (intros c Hc; now apply Hin). apply trim_idem.
  - intros Hclean Htrim. unfold kept.
    rewrite filter_fixed; [exact Htrim |].
    intros c Hc. apply Hangle. now apply Hclean.
Qed.

(* ================================================================== *)
(** ** After a message, the conversation leads the history *)

Lemma clock_later (e : Env) :
  monotone e -> forall n k, time e n <= time e (k + n).
Proof.
  intros Hmono n k. induction k as [| k IH]; [cbn; lia |].
  cbn. pose proof (Hmono (k + n)%nat). lia.
Qed.

(** X28: after a [sendMessage] that returned, the conversation it wrote
    to leads the first page of its sender's history, whatever the page
    size: in a store whose conversations were all last written before the
    call, with a clock that does not go back, the first row
    [getConversationHistory] returns for page 1 is a row of the
    conversation the response names, and its [updatedAt] is the reading of
    the clock the call stamped it with, not before either of the two new
    turns. *)
Theorem sendMessage_leads_history data w r w' limit :
  chatService.sendMessage data w = (Ok r, w') ->
  monotone (env w) ->
  conversationsInPast w ->
  exists c rest total,
    fst (Chat.getConversationHistory (senderId data) 1 limit w')
    = Ok (c :: rest, total) /\
    Conversation.id c = responseConversationId r /\
    Conversation.userId c = senderId data /\
    Message.timestamp (assistantMessage r) <= Conversation.updatedAt c /\
    (forall x, In x rest ->
               Conversation.updatedAt x <= Conversation.updatedAt c).
Proof.
  intros Hok Hmono Hpast.
  assert (fst (chatService.sendMessage data w) = Ok r) as Hfst
    by now rewrite Hok.
  pose proof (sendMessage_ok_resolves data w r Hfst) as Hres.
  destruct (resolve_run data w Hres)
    as (c0 & h & w1 & before & Hrun & Henv & _ & _ & _ & c1 & Hc1).
  (* what [resolve] tells about the conversation and the table *)
  assert (In c0 (conversations w1) /\
          Conversation.userId c0 = senderId data /\
          (clockReads w <= clockReads w1)%nat /\
          (forall x, In x (conversations w1) ->
                     Conversation.id x = Conversation.id c0 \/
                     Conversation.updatedAt x
                     < time (env w) (clockReads w1)))
    as (Hin0 & Hown0 & Hclock & Hold).
  { clear Hok Hfst Hc1. revert Hrun.
    destruct data as [uid text [cid |]]; unfold resolves in Hres; cbn in Hres.
    - destruct Hres as (c & Hc & Hown).
      rewrite (resolve_existing_run uid text cid w c Hc Hown).
      intro E. injection E as <- _ <-.
      apply find_some in Hc. destruct Hc as [Hin _].
      split; [exact Hin |]. split; [exact Hown |]. split; [lia |].
      intros x Hx. apply Hpast in Hx. right. lia.
    - rewrite (resolve_new_run (mkSendMessageData uid text None) w eq_refl).
      intro E. injection E as <- _ <-. cbn.
      split; [apply in_or_app; right; now left |].
      split; [reflexivity |]. split; [lia |].
      intros x Hx. apply in_app_or in Hx.
      pose proof (Hmono (clockReads w)) as Hstep.
      destruct Hx as [Hx | [<- | []]];
        [apply Hpast in Hx; right; lia | left; reflexivity]. }
  destruct (sendMessage_from_resolve data w c0 h w1 c1 Hrun Hc1)
    as (a & after & _ & _ & Hsend).
  cbv zeta in Hsend.
  destruct (agentContent a) as [| | b | z | s];
    try (rewrite Hsend in Hok; discriminate).
  rewrite Hsend in Hok. injection Hok as <- <-.
  cbn [responseConversationId assistantMessage Message.timestamp].
  rewrite getConversationHistory_run.
  cbn [conversations set_trace set_messages set_conversations fst].
  set (t := time (env w1) (S (S (clockReads w1)))).
  set (stamped := map (Prisma.conversation.stamp (Conversation.id c0) t)
                      (conversations w1)).
  set (mine := filter (PrismaChat.conversation.ownedBy (senderId data))
                      stamped).
  set (sorted := PrismaChat.conversation.orderByUpdatedAtDesc mine).
  assert (forall n, time (env w) (clockReads w1)
                    <= time (env w) (n + clockReads w1)) as Hlater
    by (intro n; now apply clock_later).
  pose proof (Hlater 1%nat) as Hl1. pose proof (Hlater 2%nat) as Hl2.
  pose proof (Hmono (S (clockReads w1))) as Hl3.
  cbn in Hl1, Hl2.
  assert (t = time (env w) (S (S (clockReads w1)))) as Ht
    by (unfold t; now rewrite Henv).
  (* every stamped row is the conversation written to, at [t], or older *)
  assert (forall x, In x stamped ->
                    (Conversation.id x = Conversation.id c0 /\
                     Conversation.updatedAt x = t) \/
                    Conversation.updatedAt x < t) as Hrows.
  { intros x Hx. unfold stamped in Hx. apply in_map_iff in Hx.
    destruct Hx as (y & <- & Hy).
    unfold Prisma.conversation.stamp, Prisma.conversation.byId.
    destruct (Nat.eqb_spec (Conversation.id y) (Conversation.id c0)) as [E | E].
    - left. cbn. auto.
    - right. apply Hold in Hy. destruct Hy as [Hy | Hy]; [contradiction |].
      lia. }
  (* the conversation written to is among the sender's rows *)
  assert (In (Prisma.conversation.stamp (Conversation.id c0) t c0) mine)
    as Hmine.
  { unfold mine. apply filter_In. split.
    - unfold stamped. apply in_map. exact Hin0.
    - unfold Prisma.conversation.stamp, Prisma.conversation.byId,
        PrismaChat.conversation.ownedBy.
      rewrite Nat.eqb_refl. cbn. rewrite Hown0. apply Nat.eqb_refl. }
  assert (Conversation.updatedAt
            (Prisma.conversation.stamp (Conversation.id c0) t c0) = t)
    as Hstamp.
  { unfold Prisma.conversation.stamp, Prisma.conversation.byId.
    now rewrite Nat.eqb_refl. }
  assert (newestFirst sorted) as Hsorted
    by (apply conversation_fold_sorted; exact I).
  assert (forall x, In x sorted <-> In x mine) as Hperm.
  { intro x. unfold sorted, PrismaChat.conversation.orderByUpdatedAtDesc.
    rewrite conversation_fold_In. cbn. tauto. }
  destruct sorted as [| top rest] eqn:Esorted.
  { exfalso. apply Hperm in Hmine. exact Hmine. }
  cbn [Pos.to_nat Pos.iter_op Nat.sub Nat.mul skipn] in *.
  replace ((Pos.to_nat 1 - 1) * Pos.to_nat limit)%nat with 0%nat by lia.
  cbn [skipn].
  destruct (Pos.to_nat limit) as [| k] eqn:Ek;
    [pose proof (Pos2Nat.is_pos limit); lia |].
  cbn [firstn].
  exists top, (firstn k rest). eexists. split; [reflexivity |].
  destruct Hsorted as [Htop _].
  assert (In top mine) as Htopin by (apply Hperm; now left).
  assert (t <= Conversation.updatedAt top) as Hmax.
  { apply Hperm in Hmine. destruct Hmine as [E | Hrest].
    - rewrite E, Hstamp. lia.
    - specialize (Htop _ Hrest). rewrite Hstamp in Htop. exact Htop. }
  unfold mine in Htopin. apply filter_In in Htopin.
  destruct Htopin as [Hst Hown].
  unfold PrismaChat.conversation.ownedBy in Hown. apply Nat.eqb_eq in Hown.
  destruct (Hrows top Hst) as [[Hid Hupd] | Hlt]; [| lia].
  split; [exact Hid |]. split; [exact Hown |].
  split; [rewrite Hupd, Ht, Henv; lia |].
  intros x Hx. apply Htop. now apply firstn_member in Hx.
Qed.

Lemma sendMessage_leads_history_witness :
  let data := Scenario.followUp in
  let w := Scenario.answering in
  exists r,
    fst (chatService.sendMessage data w) = Ok r /\
    let w' := snd (chatService.sendMessage data w) in
    exists c rest total,
      fst (Chat.getConversationHistory (senderId data) 1 20 w')
      = Ok (c :: rest, total) /\
      Conversation.id c = responseConversationId r /\
      Conversation.userId c = senderId data /\
      Message.timestamp (assistantMessage r) <= Conversation.updatedAt c /\
      (forall x, In x rest ->
                 Conversation.updatedAt x <= Conversation.updatedAt c).
Proof.
  assert (exists r,
             fst (chatService.sendMessage Scenario.followUp Scenario.answering)
             = Ok r) as (r & E) by (eexists; vm_compute; reflexivity).
  assert (conversationsInPast Scenario.answering) as Hpast
    by (intros c [<- | [<- | []]]; vm_compute; reflexivity).
  intros data w. exists r. split; [exact E |].
  apply (sendMessage_leads_history data w r
           (snd (chatService.sendMessage data w)) 20
           (run_ok (chatService.sendMessage Scenario.followUp)
                   Scenario.answering r E)
           (ticking_monotone Sample.noon 5 _ ltac:(lia)) Hpast).
Defined.

(* ================================================================== *)
(** ** Reading a conversation *)

Lemma message_insert_length m l :
  List.length (Prisma.message.insert m l) = S (List.length l).
Proof.
  induction l as [| y l IH]; simpl; [reflexivity |].
  destruct (Message.timestamp m <? Message.timestamp y); simpl;
    [reflexivity | now rewrite IH].
Qed.

Lemma message_fold_length l : forall acc,
  List.length (fold_left (fun a m => Prisma.message.insert m a) l acc)
  = (List.length acc + List.length l)%nat.
Proof.
  induction l as [| m l IH]; intro acc; simpl; [lia |].
  rewrite IH, message_insert_length. lia.
Qed.

Lemma message_insert_sorted m l :
  oldestFirst l -> oldestFirst (Prisma.message.insert m l).
Proof.
  induction l as [| y l IH]; simpl.
  - intros _. split; [intros x [] | exact I].
  - intros [Hy Hl].
    destruct (Z.ltb_spec (Message.timestamp m) (Message.timestamp y))
      as [Hlt | Hge]; simpl.
    + split; [| split; assumption].
      intros x [<- | Hx]; [lia |]. specialize (Hy x Hx). lia.
    + split; [| exact (IH Hl)].
      intros x Hx. apply message_insert_In in Hx.
      destruct Hx as [-> | Hx]; [exact Hge | exact (Hy x Hx)].
Qed.

Lemma message_fold_sorted l : forall acc,
  oldestFirst acc ->
  oldestFirst (fold_left (fun a m => Prisma.message.insert m a) l acc).
Proof.
  induction l as [| m l IH]; intros acc H; simpl; [exact H |].
  apply IH. now apply message_insert_sorted.
Qed.

(** X29: [getConversation] by the owner returns the conversation row as
    stored together with the turns of that conversation and of no other,
    none left out and none repeated, oldest timestamp first; it writes
    nothing but an info log. *)
Theorem getConversation_turns_in_order uid cid w c :
  find (Prisma.conversation.byId cid) (conversations w) = Some c ->
  Conversation.userId c = uid ->
  exists turns,
    Chat.getConversation uid cid w
    = (Ok (c, turns),
       set_trace (trace w ++ [EvLog Info (js "Conversation retrieved")]) w) /\
    (forall m, In m turns
               <-> In m (messages w) /\ Message.conversationId m = cid) /\
    List.length turns
    = List.length (filter (Prisma.message.ofConversation cid) (messages w)) /\
    oldestFirst turns.
Proof.
  intros Hc Hown.
  rewrite getConversation_run, Hc, Hown, Nat.eqb_refl.
  eexists. split; [reflexivity |]. unfold turnsOf. split; [| split].
  - intro m. rewrite orderByTimestamp_In, filter_In.
    unfold Prisma.message.ofConversation. now rewrite Nat.eqb_eq.
  - unfold Prisma.message.orderByTimestamp. now rewrite message_fold_length.
  - apply message_fold_sorted. exact I.
Qed.

Lemma getConversation_turns_in_order_witness :
  let w := Scenario.answering in
  exists turns,
    Chat.getConversation 7%nat 20%nat w
    = (Ok (Scenario.mine, turns),
       set_trace (trace w ++ [EvLog Info (js "Conversation retrieved")]) w) /\
    (forall m, In m turns
               <-> In m (messages w) /\ Message.conversationId m = 20%nat) /\
    List.length turns
    = List.length (filter (Prisma.message.ofConversation 20%nat)
                          (messages w)) /\
    oldestFirst turns.
Proof.
  intro w.
  apply (getConversation_turns_in_order 7%nat 20%nat w Scenario.mine);
    reflexivity.
Defined.

(* ================================================================== *)
(** ** utils/validation: addresses *)

Lemma mem_whiteSpace c : mem c whiteSpace = is_space c.
Proof.
  apply Bool.eq_true_iff_eq.
  unfold mem, whiteSpace, is_space. cbn [existsb].
  repeat rewrite Bool.orb_true_iff. repeat rewrite Bool.andb_true_iff.
  repeat rewrite N.eqb_eq. repeat rewrite N.leb_le.
  lia.
Qed.

Lemma in_addressUnit c :
  in_cls (CNoneOf (whiteSpace ++ js "@")) c = plainUnit c.
Proof.
  unfold plainUnit. cbn [in_cls]. unfold mem.
  rewrite existsb_app. fold (mem c whiteSpace). rewrite mem_whiteSpace.
  change (js "@") with [64%N]. cbn [existsb].
  rewrite Bool.orb_false_r, Bool.negb_orb. reflexivity.
Qed.

Lemma matches_star_cls k : forall s,
  matches (Star (Cls k)) s <-> forallb (in_cls k) s = true.
Proof.
  induction s as [| c s IH]; simpl.
  - split; [reflexivity | intros _; constructor].
  - split.
    + intro H. apply RegexFacts.star_cons in H.
      destruct H as (s1 & s2 & -> & H1 & H2).
      apply matches_cls in H1. destruct H1 as (c' & E & Hc).
      injection E as <- ->. cbn [app] in *. apply IH in H2.
      now rewrite Hc, H2.
    + intro H. apply Bool.andb_true_iff in H. destruct H as [Hc Hs].
      change (c :: s) with ([c] ++ s).
      constructor; [now constructor | now apply IH].
Qed.

Lemma matches_plus_cls k s :
  matches (Plus (Cls k)) s <-> s <> [] /\ forallb (in_cls k) s = true.
Proof.
  unfold Plus. rewrite matches_seq. split.
  - intros (s1 & s2 & -> & H1 & H2).
    apply matches_cls in H1. destruct H1 as (c & -> & Hc).
    apply matches_star_cls in H2. cbn. rewrite Hc, H2.
    split; [discriminate | reflexivity].
  - intros [Hne Hf]. destruct s as [| c s]; [contradiction |].
    cbn in Hf. apply Bool.andb_true_iff in Hf. destruct Hf as [Hc Hs].
    exists [c], s. split; [reflexivity |].
    split; [now constructor | now apply matches_star_cls].
Qed.

Lemma forallb_ext_eq {A : Type} (p q : A -> bool) (l : list A) :
  (forall x, p x = q x) -> forallb p l = forallb q l.
Proof.
  intro H. induction l as [| x l IH]; simpl; [reflexivity |].
  now rewrite H, IH.
Qed.

Lemma plain_no_at l :
  forallb plainUnit l = true -> count_occ N.eq_dec l 64%N = 0%nat.
Proof.
  intro H. apply count_occ_not_In. intro Hin.
  rewrite forallb_forall in H. apply H in Hin.
  unfold plainUnit in Hin. rewrite N.eqb_refl in Hin.
  now rewrite Bool.andb_false_r in Hin.
Qed.

Lemma plain_no_space l :
  forallb plainUnit l = true -> forallb (fun c => negb (is_space c)) l = true.
Proof.
  rewrite !forallb_forall. intros H c Hc. apply H in Hc.
  unfold plainUnit in Hc. now apply Bool.andb_true_iff in Hc.
Qed.

(** X30: [isValidEmail] accepts exactly the strings of the form
    local[@]domain[.]tail whose three parts are non-empty and hold
    neither white space nor [@]; hence an accepted address holds exactly
    one [@], holds no white space at all, and has a dot after the [@]
    that is neither the first nor the last code unit of that part. *)
Theorem isValidEmail_shape s :
  (isValidEmail s = true <->
   exists l d t,
     s = l ++ js "@" ++ d ++ js "." ++ t /\
     l <> [] /\ d <> [] /\ t <> [] /\
     forallb plainUnit (l ++ d ++ t) = true) /\
  (isValidEmail s = true ->
   count_occ N.eq_dec s 64%N = 1%nat /\
   forallb (fun c => negb (is_space c)) s = true).
Proof.
  assert (isValidEmail s = true <->
          exists l d t,
            s = l ++ js "@" ++ d ++ js "." ++ t /\
            l <> [] /\ d <> [] /\ t <> [] /\
            forallb plainUnit (l ++ d ++ t) = true) as Hiff.
  { unfold isValidEmail. rewrite testWhole_spec.
    unfold emailRegex, addressUnit, lit. split.
    - intro H.
      repeat match goal with
      | H : matches (Seq _ _) _ |- _ =>
          apply matches_seq in H; destruct H as (? & ? & -> & ? & ?)
      | H : matches (Plus _) _ |- _ =>
          apply matches_plus_cls in H; destruct H as [? ?]
      | H : matches (word _) _ |- _ => apply matches_word in H; subst
      end.
      do 3 eexists. split; [reflexivity |].
      repeat (split; [eassumption |]).
      rewrite !forallb_app.
      repeat match goal with
      | H : forallb (in_cls _) _ = true |- _ =>
          rewrite (forallb_ext_eq _ plainUnit _ in_addressUnit) in H;
          rewrite H; clear H
      end.
      reflexivity.
    - intros (l & d & t & -> & Hl & Hd & Ht & Hf).
      rewrite !forallb_app, !Bool.andb_true_iff in Hf.
      destruct Hf as (Fl & Fd & Ft).
      repeat (apply matches_seq; do 2 eexists;
              split; [reflexivity |]; split).
      all: try (apply matches_word; reflexivity).
      all: apply matches_plus_cls; split; [assumption |].
      all: now rewrite (forallb_ext_eq _ plainUnit _ in_addressUnit). }
  split; [exact Hiff |].
  intro H. apply Hiff in H.
  destruct H as (l & d & t & -> & _ & _ & _ & Hf).
  rewrite !forallb_app, !Bool.andb_true_iff in Hf.
  destruct Hf as (Fl & Fd & Ft).
  change (js "@") with [64%N]. change (js ".") with [46%N].
  split.
  - rewrite !count_occ_app, (plain_no_at l Fl), (plain_no_at d Fd),
      (plain_no_at t Ft). reflexivity.
  - rewrite !forallb_app, (plain_no_space l Fl), (plain_no_space d Fd),
      (plain_no_space t Ft). reflexivity.
Qed.
